(** * remark-lint rules: a shallow embedding and its verification

    The rules of this repository are JavaScript functions
    [(tree, file, options) -> undefined] that walk an mdast tree with
    [unist-util-visit] and report through [file.message] / [file.fail].
    Here the tree is an inductive type, the file's message list is the state
    of a small monad with failure ([Lint]), and every rule is written in that
    monad in the order of its source statements. *)

From Stdlib Require Import ZArith String Ascii List Bool Lia Permutation.
From stdpp Require Import gmap strings list fin_maps pretty.
Import ListNotations.

Local Open Scope Z_scope.

(** ** unist data model *)

(** A unist point as it sits in the tree: [line] and [column] are numbers
    (1-based when they come from a parser), [offset] is optional. *)
Record Point : Type := mkPoint {
  line : Z;
  column : Z;
  offset : option Z
}.

Record Position : Type := mkPosition {
  pos_start : Point;
  pos_end : Point
}.

(** An mdast node.  JavaScript objects are open records; the fields kept here
    are the ones the rules read: [type], [position], [children], [value]
    (literals such as [text] and [html]), [identifier] (definitions) and
    [depth] (headings, 1 to 6). *)
Inductive Node : Type := mkNode {
  node_type : string;
  node_position : option Position;
  node_children : list Node;
  node_value : option string;
  node_identifier : string;
  node_depth : positive
}.

(** ** unist-util-position (version 5, used by the current rules) *)

(** Modelled from the spec: the Position Model of section 4.1
    ([startOf], [endOf], [rangeOf] return none for a generated node).  The
    package [unist-util-position] is a dependency and not part of the
    sources; as in its version 5, a point resolves when its line and column
    are positive numbers, and its offset is kept when it is a number above
    -1. *)
Definition resolve_point (p : Point) : option Point :=
  if (0 <? line p) && (0 <? column p) then
    Some {| line := line p;
            column := column p;
            offset := match offset p with
                      | Some o => if -1 <? o then Some o else None
                      | None => None
                      end |}
  else None.

Definition pointStart (node : option Node) : option Point :=
  match node with
  | Some n =>
      match node_position n with
      | Some pos => resolve_point (pos_start pos)
      | None => None
      end
  | None => None
  end.

Definition pointEnd (node : option Node) : option Point :=
  match node with
  | Some n =>
      match node_position n with
      | Some pos => resolve_point (pos_end pos)
      | None => None
      end
  | None => None
  end.

Definition position (node : option Node) : option Position :=
  match pointStart node, pointEnd node with
  | Some s, Some e => Some {| pos_start := s; pos_end := e |}
  | _, _ => None
  end.

(** [value && typeof value === 'number' ? value : 1] *)
Definition index_or_1 (v : Z) : Z := if v =? 0 then 1 else v.

(** Modelled from the spec: [stringifyPosition(Point)] of section 4.1 renders
    ["line:column"] in decimal.  As in [unist-util-stringify-position], a
    line or column that is falsy is rendered as 1. *)
Definition stringifyPosition (p : Point) : string :=
  pretty (index_or_1 (line p)) +:+ ":" +:+ pretty (index_or_1 (column p)).

(** ** The position helpers of the older rules *)

(** The rules that still import [unist-util-generated] were written against
    version 4 of [unist-util-position], whose [pointStart] and [pointEnd]
    always return an object, with [null] fields where the node has none. *)
Module V4.

(** [x || null] on a number. *)
Definition or_null (x : Z) : option Z := if x =? 0 then None else Some x.

Definition line_or_null (p : option Point) : option Z :=
  match p with Some p => or_null (line p) | None => None end.

Definition column_or_null (p : option Point) : option Z :=
  match p with Some p => or_null (column p) | None => None end.

Definition offset_or_null (p : option Point) : option Z :=
  match p with
  | Some p => match offset p with
              | Some o => if -1 <? o then Some o else None
              | None => None
              end
  | None => None
  end.

Definition start_of (node : option Node) : option Point :=
  match node with
  | Some n => option_map pos_start (node_position n)
  | None => None
  end.

Definition end_of (node : option Node) : option Point :=
  match node with
  | Some n => option_map pos_end (node_position n)
  | None => None
  end.

(** Modelled from the spec: a generated node is one without a resolvable
    position (glossary); this is [unist-util-generated]: no position, or a
    start or end whose line or column is falsy. *)
Definition generated (node : Node) : bool :=
  match node_position node with
  | None => true
  | Some pos =>
      (line (pos_start pos) =? 0) || (column (pos_start pos) =? 0) ||
      (line (pos_end pos) =? 0) || (column (pos_end pos) =? 0)
  end.

Record Point : Type := mkPoint {
  line : option Z;
  column : option Z;
  offset : option Z
}.

(** Modelled from the spec: section 4.1 gives the position helpers only by
    contract; this is [unist-util-position] 4:
    [{line: point.line || null, column: point.column || null,
      offset: point.offset > -1 ? point.offset : null}]. *)
Definition pointStart (node : option Node) : Point :=
  {| line := line_or_null (start_of node);
     column := column_or_null (start_of node);
     offset := offset_or_null (start_of node) |}.

Definition pointEnd (node : option Node) : Point :=
  {| line := line_or_null (end_of node);
     column := column_or_null (end_of node);
     offset := offset_or_null (end_of node) |}.

(** [null] is 0 in arithmetic and in [slice]. *)
Definition to_number (x : option Z) : Z :=
  match x with Some z => z | None => 0 end.

(** [stringifyPosition] on such a point: a [null] line or column is
    rendered as 1. *)
Definition stringifyPosition (p : Point) : string :=
  pretty (index_or_1 (to_number (line p))) +:+ ":" +:+
  pretty (index_or_1 (to_number (column p))).

End V4.

(** ** vfile messages and the [Lint] monad *)

(** What [file.message(reason, place)] was given as its place. *)
Inductive Place : Type :=
| AtNode (n : Node)
| AtPosition (p : Position)
| AtPoint (p : Point)
| AtRange (start_ end_ : V4.Point)
| NoPlace.

Record VFileMessage : Type := mkMessage {
  reason : string;
  place : Place;
  fatal : bool
}.

(** A rule either runs to its end or is aborted by the exception that
    [file.fail] throws. *)
Inductive Completion (A : Type) : Type :=
| Normal (a : A)
| Throw (m : VFileMessage).
Arguments Normal {A} a.
Arguments Throw {A} m.

(** The state is [file.messages]. *)
Definition Lint (A : Type) : Type :=
  list VFileMessage -> Completion A * list VFileMessage.

Definition lint_ret {A} (a : A) : Lint A := fun ms => (Normal a, ms).

Definition lint_bind {A B} (m : Lint A) (k : A -> Lint B) : Lint B :=
  fun ms =>
    match m ms with
    | (Normal a, ms') => k a ms'
    | (Throw e, ms') => (Throw e, ms')
    end.

Notation "x <- m ;; k" := (lint_bind m (fun x => k))
  (at level 100, m at next level, right associativity).
Notation "m ;;; k" := (lint_bind m (fun _ => k))
  (at level 100, right associativity).

(** Modelled from the spec: [message(reason, place?)] of section 4.3 appends
    a non-fatal diagnostic and continues. *)
Definition message (r : string) (p : Place) : Lint unit :=
  fun ms => (Normal tt, ms ++ [{| reason := r; place := p; fatal := false |}]).

(** Modelled from the spec: [fail(reason, place?)] of section 4.3 is fatal.
    As in vfile, the message is stored with [fatal] set and then thrown. *)
Definition fail {A} (r : string) : Lint A :=
  fun ms =>
    let m := {| reason := r; place := NoPlace; fatal := true |} in
    (Throw m, ms ++ [m]).

(** Running a rule on a fresh file. *)
Definition run {A} (m : Lint A) : Completion A * list VFileMessage := m [].

Definition diagnostics {A} (m : Lint A) : list VFileMessage := snd (run m).

(** ** unist-util-visit *)

(** One call of a visitor: the node, its index in its parent, its parent
    (both absent for the root). *)
Record Visit : Type := mkVisit {
  v_node : Node;
  v_index : option nat;
  v_parent : option Node
}.

(** Modelled from the spec: the Visitation Engine of section 4.2.
    Pre-order, parent before children, children in document order; with
    [reverse] the children are walked from the last to the first, as
    [unist-util-visit] does when its last argument is [true]. *)
Fixpoint walk (reverse : bool) (index : option nat) (parent : option Node)
    (node : Node) {struct node} : list Visit :=
  match node with
  | mkNode _ _ kids _ _ _ =>
      {| v_node := node; v_index := index; v_parent := parent |} ::
      (fix siblings (i : nat) (cs : list Node) {struct cs} : list Visit :=
         match cs with
         | [] => []
         | c :: cs' =>
             if reverse
             then siblings (S i) cs' ++ walk reverse (Some i) (Some node) c
             else walk reverse (Some i) (Some node) c ++ siblings (S i) cs'
         end) 0%nat kids
  end.

Fixpoint each {S A} (visitor : A -> S -> Lint S) (l : list A) (s : S)
    : Lint S :=
  match l with
  | [] => lint_ret s
  | x :: l' => s' <- visitor x s ;; each visitor l' s'
  end.

(** [visit(tree, test, visitor, reverse)]: the visitor is called on the
    nodes that pass [test]; the descent does not depend on the test.  [S] is
    the state of the variables the visitor closes over. *)
Definition visit {S} (tree : Node) (test : Node -> bool)
    (visitor : Visit -> S -> Lint S) (reverse : bool) (s : S) : Lint S :=
  each visitor
    (List.filter (fun v => test (v_node v)) (walk reverse None None tree)) s.

Definition is_type (t : string) (n : Node) : bool := String.eqb (node_type n) t.

Definition any_node (n : Node) : bool := true.

Definition when (b : bool) (m : Lint unit) : Lint unit :=
  if b then m else lint_ret tt.

(** ** JavaScript strings and numbers *)

(** A non-empty string is truthy. *)
Definition truthy (s : string) : bool := negb (String.eqb s "").

(** [value.slice(a, b)] for integer arguments that are not negative. *)
Definition slice (a b : Z) (s : string) : string :=
  String.substring (Z.to_nat a) (Z.to_nat b - Z.to_nat a) s.

(** [value.charAt(i)]: the empty string out of range. *)
Definition charAt (i : Z) (s : string) : string :=
  if i <? 0 then ""
  else match String.get (Z.to_nat i) s with
       | Some c => String c ""
       | None => ""
       end.

Definition line_feed : string := String (ascii_of_nat 10) "".

(** [/[^-_* ]/.test(s)]: some character of [s] is none of dash,
    underscore, asterisk, space. *)
Definition is_marker_char (c : ascii) : bool :=
  (Ascii.eqb c "-" || Ascii.eqb c "_" || Ascii.eqb c "*" ||
   Ascii.eqb c " ")%char.

Fixpoint has_non_marker (s : string) : bool :=
  match s with
  | EmptyString => false
  | String c s' => negb (is_marker_char c) || has_non_marker s'
  end.

(** [\s] on the characters of the model: space, tab, line feed, vertical
    tab, form feed, carriage return. *)
Definition is_space (c : ascii) : bool :=
  let n := nat_of_ascii c in
  (Nat.eqb n 32 || (Nat.leb 9 n && Nat.leb n 13))%nat.

(** [/^\s*<!--/.test(s)] *)
Fixpoint html_comment (s : string) : bool :=
  String.prefix "<!--" s ||
  match s with
  | String c s' => is_space c && html_comment s'
  | EmptyString => false
  end.

(** Modelled from the spec: [pluralize(word, count)] of the dependency
    [pluralize], for a regular noun: singular for a count of one. *)
Definition pluralize (word : string) (count : Z) : string :=
  if count =? 1 then word else word +:+ "s".

(** ** final-newline (src/unnamed/part_002, lines 85-105) *)

Definition remarkLintFinalNewline (_ : Node) (file : string) : Lint unit :=
  let value := file in
  let last := Z.of_nat (String.length value) - 1 in
  when ((-1 <? last) && negb (String.eqb (charAt last value) line_feed))
    (message "Missing newline character at end of file" NoPlace).

(** ** rule-style (src/unnamed/part_002, lines 197-240) *)

Definition rule_style_reason (preferred : string) : string :=
  "Rules should use `" +:+ preferred +:+ "`".

Definition rule_style_fatal : string :=
  "Incorrect preferred rule style: provide a correct markdown rule or " +:+
  "`'consistent'`".

(** The visitor; its state is the variable [option] it closes over. *)
Definition rule_style_visitor (value : string) (v : Visit) (option : string)
    : Lint string :=
  let node := v_node v in
  let end_ := pointEnd (Some node) in
  let start := pointStart (Some node) in
  match start, end_ with
  | Some start, Some end_ =>
      match offset start, offset end_ with
      | Some start_offset, Some end_offset =>
          let rule := slice start_offset end_offset value in
          if String.eqb option "consistent" then lint_ret rule
          else if negb (String.eqb rule option) then
            message (rule_style_reason option) (AtNode node) ;;;
            lint_ret option
          else lint_ret option
      | _, _ => lint_ret option
      end
  | _, _ => lint_ret option
  end.

Definition remarkLintRuleStyle (tree : Node) (file : string)
    (options : option string) : Lint unit :=
  let value := file in
  let option :=
    match options with
    | Some o => if truthy o then o else "consistent"
    | None => "consistent"
    end in
  when (negb (String.eqb option "consistent") && has_non_marker option)
    (fail rule_style_fatal) ;;;
  _ <- visit tree (is_type "thematicBreak") (rule_style_visitor value) false
         option ;;
  lint_ret tt.

(** ** blockquote-indentation *)

(** [Options]: a number or ['consistent']. *)
Inductive IndentOptions : Type :=
| IndentNumber (n : Z)
| IndentConsistent.

Definition blockquote_reason (diff : Z) : string :=
  let abs := Z.abs diff in
  (if 0 <? diff then "Add" else "Remove") +:+ " " +:+ pretty abs +:+ " " +:+
  pluralize "space" abs +:+ " between block quote and content".

Definition blockquote_visitor (v : Visit) (option : IndentOptions)
    : Lint IndentOptions :=
  let node := v_node v in
  let start := pointStart (Some node) in
  let head := pointStart (node_children node !! 0%nat) in
  match head, start with
  | Some head, Some start =>
      let count := column head - column start in
      match option with
      | IndentConsistent => lint_ret (IndentNumber count)
      | IndentNumber preferred =>
          let diff := preferred - count in
          if negb (diff =? 0) then
            message (blockquote_reason diff) (AtPoint head) ;;;
            lint_ret option
          else lint_ret option
      end
  | _, _ => lint_ret option
  end.

Definition remarkLintBlockquoteIndentation (tree : Node)
    (options : option IndentOptions) : Lint unit :=
  let option :=
    match options with
    | Some (IndentNumber n) =>
        if n =? 0 then IndentConsistent else IndentNumber n
    | Some IndentConsistent => IndentConsistent
    | None => IndentConsistent
    end in
  _ <- visit tree (is_type "blockquote") blockquote_visitor false option ;;
  lint_ret tt.

(** ** Duplicate-by-key rules *)

Definition duplicate_definitions_reason (duplicate : string) : string :=
  "Do not use definitions with the same identifier (" +:+ duplicate +:+ ")".

Definition duplicate_headings_reason (duplicate : string) : string :=
  "Do not use headings with similar content (" +:+ duplicate +:+ ")".

(** no-duplicate-definitions: the state is the [Map] from identifier to the
    stringified start of a definition seen before. *)
Definition duplicate_definitions_visitor (v : Visit) (map : gmap string string)
    : Lint (gmap string string) :=
  let node := v_node v in
  let place := position (Some node) in
  let start := pointStart (Some node) in
  match is_type "definition" node || is_type "footnoteDefinition" node,
        place, start with
  | true, Some place, Some start =>
      let identifier := node_identifier node in
      let duplicate := map !! identifier in
      match duplicate with
      | Some duplicate =>
          when (truthy duplicate)
            (message (duplicate_definitions_reason duplicate)
               (AtPosition place))
      | None => lint_ret tt
      end ;;;
      lint_ret (<[identifier := stringifyPosition start]> map)
  | _, _, _ => lint_ret map
  end.

Definition remarkLintNoDuplicateDefinitions (tree : Node) : Lint unit :=
  _ <- visit tree any_node duplicate_definitions_visitor false ∅ ;;
  lint_ret tt.

Section Text.
(** [toString] of [mdast-util-to-string] (the flattened text of a node)
    and [String.prototype.toUpperCase] are taken as they are. *)
Variable toString : Node -> string.
Variable toUpperCase : string -> string.

(** no-duplicate-headings *)
Definition duplicate_headings_visitor (v : Visit) (map : gmap string string)
    : Lint (gmap string string) :=
  let node := v_node v in
  let place := position (Some node) in
  let start := pointStart (Some node) in
  match place, start with
  | Some place, Some start =>
      let value := toUpperCase (toString node) in
      let duplicate := map !! value in
      match duplicate with
      | Some duplicate =>
          when (truthy duplicate)
            (message (duplicate_headings_reason duplicate) (AtNode node))
      | None => lint_ret tt
      end ;;;
      lint_ret (<[value := stringifyPosition start]> map)
  | _, _ => lint_ret map
  end.

Definition remarkLintNoDuplicateHeadings (tree : Node) : Lint unit :=
  _ <- visit tree (is_type "heading") duplicate_headings_visitor false ∅ ;;
  lint_ret tt.
End Text.

(** ** no-missing-blank-lines *)

Record BlankLinesOptions : Type := mkBlankLinesOptions {
  exceptTightLists : option bool
}.

Definition types : gset string :=
  list_to_set ["paragraph"; "heading"; "thematicBreak"; "blockquote"; "list";
               "table"; "html"; "code"; "yaml"].

Definition missing_blank_lines_reason : string :=
  "Missing blank line before block node".

Definition missing_blank_lines_visitor (exceptTightLists : bool) (v : Visit)
    (_ : unit) : Lint unit :=
  let node := v_node v in
  let end_ := pointEnd (Some node) in
  match v_parent v, v_index v, end_ with
  | Some parent, Some index, Some end_ =>
      if negb exceptTightLists ||
         negb (String.eqb (node_type parent) "listItem")
      then
        let next := node_children parent !! (index + 1)%nat in
        let nextPoint := pointStart next in
        match next, nextPoint with
        | Some next, Some nextPoint =>
            when (bool_decide (node_type next ∈ types) &&
                  (line nextPoint =? line end_ + 1))
              (message missing_blank_lines_reason (AtNode next))
        | _, _ => lint_ret tt
        end
      else lint_ret tt
  | _, _, _ => lint_ret tt
  end.

Definition remarkLintNoMissingBlankLines (tree : Node)
    (options : option BlankLinesOptions) : Lint unit :=
  let exceptTightLists :=
    match options with
    | Some o => match exceptTightLists o with Some b => b | None => false end
    | None => false
    end in
  visit tree any_node (missing_blank_lines_visitor exceptTightLists) false tt.

(** ** final-definition *)

Definition final_definition_reason (last : Z) : string :=
  "Move definitions to the end of the file (after the node at line `" +:+
  pretty last +:+ "`)".

(** The state is the variable [last], 0 until a content node is met. *)
Definition final_definition_visitor (v : Visit) (last : Z) : Lint Z :=
  let node := v_node v in
  let start := pointStart (Some node) in
  match start with
  | None => lint_ret last
  | Some start =>
      if is_type "root" node ||
         (is_type "html" node &&
          match node_value node with
          | Some value => html_comment value
          | None => false
          end)
      then lint_ret last
      else
        let line := line start in
        if is_type "definition" node then
          when (negb (last =? 0) && (line <? last))
            (message (final_definition_reason last) (AtNode node)) ;;;
          lint_ret last
        else if last =? 0 then lint_ret line
        else lint_ret last
  end.

Definition remarkLintFinalDefinition (tree : Node) : Lint unit :=
  _ <- visit tree any_node final_definition_visitor true 0 ;;
  lint_ret tt.

(** ** rule-style, older version
    (src/packages/remark-lint-rule-style/index.js) *)

Definition ruleStyle_visitor (contents : string) (v : Visit)
    (preferred : option string) : Lint (option string) :=
  let node := v_node v in
  let initial := V4.offset (V4.pointStart (Some node)) in
  let final := V4.offset (V4.pointEnd (Some node)) in
  if negb (V4.generated node) then
    let rule := slice (V4.to_number initial) (V4.to_number final) contents in
    match preferred with
    | Some p =>
        if truthy p then
          when (negb (String.eqb rule p))
            (message (rule_style_reason p) (AtNode node)) ;;;
          lint_ret preferred
        else lint_ret (Some rule)
    | None => lint_ret (Some rule)
    end
  else lint_ret preferred.

Definition ruleStyle (tree : Node) (file : string) (option : option string)
    : Lint unit :=
  let contents := file in
  let preferred :=
    match option with
    | Some o => if negb (String.eqb o "consistent") then Some o else None
    | None => None
    end in
  when (match preferred with
        | Some p => has_non_marker p
        | None => false
        end)
    (fail rule_style_fatal) ;;;
  _ <- visit tree (is_type "thematicBreak") (ruleStyle_visitor contents) false
         preferred ;;
  lint_ret tt.

(** ** no-duplicate-headings-in-section *)

(** [stack[index] = x] on a JavaScript array: in range it replaces, out of
    range the array grows and the slots in between are holes. *)
Definition array_set {A} (l : list (option A)) (i : nat) (x : A)
    : list (option A) :=
  if (i <? length l)%nat then <[i := Some x]> l
  else l ++ replicate (i - length l) None ++ [Some x].

(** [stack[index]], a hole reads as [undefined]. *)
Definition array_get {A} (l : list (option A)) (i : nat) : option A :=
  match l !! i with
  | Some (Some x) => Some x
  | _ => None
  end.

Definition in_section_reason (duplicate : string) : string :=
  "Do not use headings with similar content per section" +:+ " (" +:+
  duplicate +:+ ")".

Section TextInSection.
Variable toString : Node -> string.
Variable toUpperCase : string -> string.

(** The state is [stack]: one scope object per depth, each a map from the
    upper-cased text to the heading that had it. *)
Definition in_section_visitor (v : Visit)
    (stack : list (option (gmap string Node)))
    : Lint (list (option (gmap string Node))) :=
  let node := v_node v in
  let depth := Pos.to_nat (node_depth node) in
  let value := toUpperCase (toString node) in
  let index := (depth - 1)%nat in
  let scope :=
    match array_get stack index with
    | Some scope => scope
    | None => ∅
    end in
  let duplicate := scope !! value in
  match duplicate with
  | Some duplicate =>
      when (negb (V4.generated node))
        (message
           (in_section_reason
              (V4.stringifyPosition (V4.pointStart (Some duplicate))))
           (AtNode node))
  | None => lint_ret tt
  end ;;;
  let stack := array_set stack index (<[value := node]> scope) in
  lint_ret (take depth stack).

Definition noDuplicateHeadingsInSection (tree : Node) : Lint unit :=
  _ <- visit tree (is_type "heading") in_section_visitor false [] ;;
  lint_ret tt.
End TextInSection.

(** ** list-item-spacing
    (src/packages/remark-lint-no-missing-blank-lines/index.js, 257-347) *)

Record ListItemSpacingOptions : Type := mkListItemSpacingOptions {
  checkBlanks : bool
}.

Definition reasonLoose : string := "Missing new line after list item".
Definition reasonTight : string := "Extraneous new line after list item".

Definition line_gap (next child : Node) : Z :=
  V4.to_number (V4.line (V4.pointStart (Some next))) -
  V4.to_number (V4.line (V4.pointEnd (Some child))).

Definition inferBlankLine (node : Node) : bool :=
  match node_children node with
  | [] => false
  | child :: rest =>
      (fix loop (child : Node) (rest : list Node) {struct rest} : bool :=
         match rest with
         | [] => false
         | next :: rest' =>
             if 1 <? line_gap next child then true else loop next rest'
         end) child rest
  end.

Definition inferMultiline (node : Node) : bool :=
  let children := node_children node in
  0 <? V4.to_number (V4.line (V4.pointEnd (last children))) -
       V4.to_number (V4.line (V4.pointStart (children !! 0%nat))).

Fixpoint list_item_gaps (tight : bool) (child : Node) (rest : list Node)
    : Lint unit :=
  match rest with
  | [] => lint_ret tt
  | next :: rest' =>
      when (negb (Bool.eqb (line_gap next child <? 2) tight))
        (message (if tight then reasonTight else reasonLoose)
           (AtRange (V4.pointEnd (Some child)) (V4.pointStart (Some next)))) ;;;
      list_item_gaps tight next rest'
  end.

Definition listItemSpacing_visitor (infer : Node -> bool) (v : Visit)
    (_ : unit) : Lint unit :=
  let node := v_node v in
  if negb (V4.generated node) then
    let children := node_children node in
    let tight := negb (existsb infer children) in
    match children with
    | [] => lint_ret tt
    | child :: rest => list_item_gaps tight child rest
    end
  else lint_ret tt.

Definition listItemSpacing (tree : Node)
    (option : option ListItemSpacingOptions) : Lint unit :=
  let infer :=
    match option with
    | Some o => if checkBlanks o then inferBlankLine else inferMultiline
    | None => inferMultiline
    end in
  visit tree (is_type "list") (listItemSpacing_visitor infer) false tt.

(** ** JavaScript exceptions *)

(** Reading a property of [undefined] or [null] throws a [TypeError]: the
    rule is aborted as by any exception, and the throw itself adds nothing
    to [file.messages].  The thrown error is represented by this value. *)
Definition type_error_value : VFileMessage :=
  {| reason := "TypeError"; place := NoPlace; fatal := true |}.

Definition type_error {A} : Lint A :=
  fun ms => (Throw type_error_value, ms).

(** [new RegExp(source)] throws a [SyntaxError] for a source that is not a
    regular expression; like a [TypeError] it aborts the rule and adds
    nothing to [file.messages]. *)
Definition syntax_error_value : VFileMessage :=
  {| reason := "SyntaxError"; place := NoPlace; fatal := true |}.

Definition syntax_error {A} : Lint A :=
  fun ms => (Throw syntax_error_value, ms).

(** ** no-heading-punctuation
    (src/packages/remark-lint-no-heading-punctuation/index.js, 93-108) *)

Section HeadingPunctuation.
(** [toString] of [mdast-util-to-string], and the regular-expression engine:
    [RegExp source] is [new RegExp(source)], which is [None] when the engine
    rejects the source with a [SyntaxError] (a class such as [z-a], or one
    that ends in a lone backslash) and otherwise the [test] method of the
    expression made. *)
Variable toString : Node -> string.
Variable RegExp : string -> option (string -> bool).

Definition heading_punctuation_reason (tail : string) : string :=
  "Don’t add a trailing `" +:+ tail +:+ "` to headings".

Definition heading_punctuation_visitor (expression : string -> bool)
    (v : Visit) (_ : unit) : Lint unit :=
  let node := v_node v in
  let place := position (Some node) in
  match place with
  | Some place =>
      let value := toString node in
      let tail := charAt (Z.of_nat (String.length value) - 1) value in
      when (expression tail)
        (message (heading_punctuation_reason tail) (AtPosition place))
  | None => lint_ret tt
  end.

(** ['[' + (options || '!,\\.:;?') + ']'] *)
Definition heading_punctuation_source (options : option string) : string :=
  "[" +:+
  match options with
  | Some o => if truthy o then o else "!,\.:;?"
  | None => "!,\.:;?"
  end +:+ "]".

Definition remarkLintNoHeadingPunctuation (tree : Node)
    (options : option string) : Lint unit :=
  match RegExp (heading_punctuation_source options) with
  | Some expression =>
      visit tree (is_type "heading") (heading_punctuation_visitor expression)
        false tt
  | None => syntax_error
  end.
End HeadingPunctuation.

(** ** Rules on links, images and references *)

Section Resources.
(** Fields of mdast nodes that the record above does not keep: [url]
    (a string on every link, image and definition) and [referenceType]
    (on link references).  [toString] is [mdast-util-to-string] and
    [toLowerCase] is [String.prototype.toLowerCase], taken as they are. *)
Variable url : Node -> string.
Variable referenceType : Node -> string.
Variable toString : Node -> string.
Variable toLowerCase : string -> string.

(** *** no-shortcut-reference-link (src/unnamed/part_000, lines 54-72) *)

Definition shortcut_reason : string :=
  "Use the trailing `[]` on reference links".

Definition shortcut_visitor (v : Visit) (_ : unit) : Lint unit :=
  let node := v_node v in
  let place := position (Some node) in
  match place with
  | Some place =>
      when (String.eqb (referenceType node) "shortcut")
        (message shortcut_reason (AtPosition place))
  | None => lint_ret tt
  end.

Definition remarkLintNoShortcutReferenceLink (tree : Node) : Lint unit :=
  visit tree (is_type "linkReference") shortcut_visitor false tt.

(** *** no-shortcut-reference-link, older version
    (src/unnamed/part_000, lines 110-127) *)

Definition noShortcutReferenceLink_visitor (v : Visit) (_ : unit)
    : Lint unit :=
  let node := v_node v in
  when (negb (V4.generated node) &&
        String.eqb (referenceType node) "shortcut")
    (message shortcut_reason (AtNode node)).

Definition noShortcutReferenceLink (tree : Node) : Lint unit :=
  visit tree (is_type "linkReference") noShortcutReferenceLink_visitor
    false tt.

(** *** no-empty-url (src/unnamed/part_003, lines 60-86) *)

Definition empty_url_reason (type : string) : string :=
  "Don’t use " +:+ type +:+ "s without URL".

Definition empty_url_visitor (v : Visit) (_ : unit) : Lint unit :=
  let node := v_node v in
  let place := position (Some node) in
  if is_type "definition" node || is_type "image" node ||
     is_type "link" node
  then
    match place with
    | Some place =>
        when (negb (truthy (url node)))
          (message (empty_url_reason (node_type node)) (AtPosition place))
    | None => lint_ret tt
    end
  else lint_ret tt.

Definition remarkLintNoEmptyUrl (tree : Node) : Lint unit :=
  visit tree any_node empty_url_visitor false tt.

(** *** no-reference-like-url (src/unnamed/part_003, lines 141-180) *)

Definition reference_like_reason (url : string) : string :=
  "Did you mean to use `[" +:+ url +:+ "]` instead of " +:+ "`(" +:+ url +:+
  ")`, a reference?".

(** The first traversal: [identifiers.add(node.identifier.toLowerCase())]. *)
Definition reference_like_collect (v : Visit) (identifiers : gset string)
    : Lint (gset string) :=
  let node := v_node v in
  lint_ret ({[ toLowerCase (node_identifier node) ]} ∪ identifiers).

Definition reference_like_visitor (identifiers : gset string) (v : Visit)
    (_ : unit) : Lint unit :=
  let node := v_node v in
  let place := position (Some node) in
  match place with
  | Some place =>
      when ((is_type "image" node || is_type "link" node) &&
            bool_decide (toLowerCase (url node) ∈ identifiers))
        (message (reference_like_reason (url node)) (AtPosition place))
  | None => lint_ret tt
  end.

Definition remarkLintNoReferenceLikeUrl (tree : Node) : Lint unit :=
  identifiers <- visit tree (is_type "definition") reference_like_collect
                   false ∅ ;;
  visit tree any_node (reference_like_visitor identifiers) false tt.

(** *** no-literal-urls
    (src/packages/remark-lint-no-literal-urls/index.js, lines 53-85) *)

Definition literal_url_reason : string :=
  "Don’t use literal URLs without angle brackets".

Definition literal_urls_visitor (v : Visit) (_ : unit) : Lint unit :=
  let node := v_node v in
  let value := toString node in
  let end_ := pointEnd (Some node) in
  let start := pointStart (Some node) in
  let headStart := pointStart (node_children node !! 0%nat) in
  let tailEnd := pointEnd (last (node_children node)) in
  match end_, start, headStart, tailEnd with
  | Some end_, Some start, Some headStart, Some tailEnd =>
      when ((column end_ =? column tailEnd) &&
            (column start =? column headStart) &&
            (String.eqb (url node) ("mailto:" +:+ value) ||
             String.eqb (url node) value))
        (message literal_url_reason (AtNode node))
  | _, _, _, _ => lint_ret tt
  end.

Definition remarkLintNoLiteralUrls (tree : Node) : Lint unit :=
  visit tree (is_type "link") literal_urls_visitor false tt.

End Resources.

(** ** no-html
    (src/packages/remark-lint-no-literal-urls/index.js, lines 130-149) *)

Definition no_html_reason : string := "Do not use HTML in markdown".

Definition no_html_visitor (v : Visit) (_ : unit) : Lint unit :=
  let node := v_node v in
  let place := position (Some node) in
  match place with
  | Some place =>
      when (negb match node_value node with
                 | Some value => html_comment value
                 | None => false
                 end)
        (message no_html_reason (AtPosition place))
  | None => lint_ret tt
  end.

Definition remarkLintNoHtml (tree : Node) : Lint unit :=
  visit tree (is_type "html") no_html_visitor false tt.

(** ** no-heading-like-paragraph
    (src/packages/remark-lint-no-heading-like-paragraph/index.js) *)

Definition fence : string := "#######".

Definition heading_like_reason : string :=
  "This looks like a heading but has too many hashes".

(** [head.value.slice(...)] throws when the text node has no [value]. *)
Definition heading_like_visitor (v : Visit) (_ : unit) : Lint unit :=
  let node := v_node v in
  let place := position (Some node) in
  match place with
  | Some place =>
      let head := node_children node !! 0%nat in
      match head with
      | Some head =>
          if is_type "text" head then
            match node_value head with
            | Some value =>
                when (String.eqb
                        (slice 0 (Z.of_nat (String.length fence)) value)
                        fence)
                  (message heading_like_reason (AtPosition place))
            | None => type_error
            end
          else lint_ret tt
      | None => lint_ret tt
      end
  | None => lint_ret tt
  end.

Definition remarkLintNoHeadingLikeParagraph (tree : Node) : Lint unit :=
  visit tree (is_type "paragraph") heading_like_visitor false tt.

(** ** no-emphasis-as-heading
    (src/packages/remark-lint-no-emphasis-as-heading/index.js) *)

Definition emphasis_reason : string :=
  "Don’t use emphasis to introduce a section, use a heading".

(** [parent.children[index - 1]] and [parent.children[index + 1]]: an index
    of -1 reads [undefined]; [null] counts as 0 in the arithmetic. *)
Definition previous_sibling (parent : Node) (index : option nat)
    : option Node :=
  match index with
  | Some (S i) => node_children parent !! i
  | _ => None
  end.

Definition next_sibling (parent : Node) (index : option nat) : option Node :=
  match index with
  | Some i => node_children parent !! (i + 1)%nat
  | None => node_children parent !! 1%nat
  end.

(** The visitor reads [parent.children] first of all its tests, which throws
    on the root, whose parent is [undefined]. *)
Definition emphasis_visitor (v : Visit) (_ : unit) : Lint unit :=
  let node := v_node v in
  let head := node_children node !! 0%nat in
  match v_parent v with
  | None => type_error
  | Some parent =>
      let previous := previous_sibling parent (v_index v) in
      let next := next_sibling parent (v_index v) in
      when (negb (V4.generated node) &&
            match previous with
            | Some previous => negb (is_type "heading" previous)
            | None => true
            end &&
            match next with
            | Some next => is_type "paragraph" next
            | None => false
            end &&
            (length (node_children node) =? 1)%nat &&
            match head with
            | Some head => is_type "emphasis" head || is_type "strong" head
            | None => false
            end)
        (message emphasis_reason (AtNode node))
  end.

Definition noEmphasisAsHeading (tree : Node) : Lint unit :=
  visit tree (is_type "paragraph") emphasis_visitor false tt.

(** ** link-title-style
    (src/packages/remark-lint-no-missing-blank-lines/index.js, 436-543) *)

Definition double_quote : string := String (ascii_of_nat 34) EmptyString.

(** [markers]: the closing delimiters of a title, each with its opening
    delimiter. *)
Definition markers : gmap string string :=
  <[double_quote := double_quote]> (<["'" := "'"]> (<[")" := "("]> ∅)).

(** [/\s/.test(s)] *)
Fixpoint has_space (s : string) : bool :=
  match s with
  | EmptyString => false
  | String c s' => is_space c || has_space s'
  end.

(** [contents.lastIndexOf(search, from)]: the last index at or before
    [from] (clamped to the string) where [search] occurs, or -1. *)
Fixpoint lastIndexOf_from (search contents : string) (i : nat) : Z :=
  if String.prefix search
       (String.substring i (String.length contents - i) contents)
  then Z.of_nat i
  else match i with
       | O => -1
       | S i' => lastIndexOf_from search contents i'
       end.

Definition lastIndexOf (search : string) (from : Z) (contents : string) : Z :=
  lastIndexOf_from search contents
    (Z.to_nat (Z.min (Z.max from 0) (Z.of_nat (String.length contents)))).

(** [while (last) { final = contents.charAt(last); if (/\s/.test(final))
    last--; else break }], from a [last] that is not negative.  [final] is
    [undefined] until the body has run. *)
Fixpoint skip_back_from (contents : string) (last : nat)
    (final : option string) : Z * option string :=
  match last with
  | O => (0, final)
  | S last' =>
      let final := charAt (Z.of_nat last) contents in
      if has_space final then skip_back_from contents last' (Some final)
      else (Z.of_nat last, Some final)
  end.

(** The same loop from any [last]: at a negative index [charAt] gives the
    empty string, which holds no white space, so the loop is left at once. *)
Definition skip_back (contents : string) (last : Z) : Z * option string :=
  if last <? 0 then (last, Some (charAt last contents))
  else skip_back_from contents (Z.to_nat last) None.

(** [first <= begin]: [begin] is a point object; compared with a number it
    converts to [NaN], and a comparison with [NaN] is false. *)
Definition number_le_point (first : Z) (begin : V4.Point) : bool := false.

Definition link_title_fatal (preferred : string) : string :=
  "Incorrect link title style marker `" +:+ preferred +:+
  "`: use either `'consistent'`, `'" +:+ double_quote +:+
  "'`, `'\''`, or `'()'`".

Definition link_title_reason (preferred : string) : string :=
  "Titles should use `" +:+
  (if String.eqb preferred ")" then "()" else preferred) +:+
  "` as a quote".

Section LinkTitle.
(** [location(file).toPoint] of [vfile-location], taken as it is. *)
Variable toPoint : string -> Z -> V4.Point.

(** [check]; its state is the variable [preferred], [None] for [null]. *)
Definition link_title_check (contents : string) (v : Visit)
    (preferred : option string) : Lint (option string) :=
  let node := v_node v in
  if V4.generated node then lint_ret preferred
  else
    let last_ := V4.to_number (V4.offset (V4.pointEnd (Some node))) - 1 in
    let tail := last (node_children node) in
    let begin :=
      match tail with
      | Some tail => V4.pointEnd (Some tail)
      | None => V4.pointStart (Some node)
      end in
    let last_ := if negb (is_type "definition" node) then last_ - 1
                 else last_ in
    let '(last_, final) := skip_back contents last_ in
    match final with
    | None => lint_ret preferred
    | Some final =>
        match markers !! final with
        | None => lint_ret preferred
        | Some initial =>
            let first := lastIndexOf initial (last_ - 1) contents in
            if number_le_point first begin ||
               negb (has_space (charAt (first - 1) contents))
            then lint_ret preferred
            else
              match preferred with
              | Some p =>
                  if truthy p then
                    when (negb (String.eqb p final))
                      (message (link_title_reason p)
                         (AtRange (toPoint contents first)
                                  (toPoint contents (last_ + 1)))) ;;;
                    lint_ret preferred
                  else lint_ret (Some final)
              | None => lint_ret (Some final)
              end
        end
    end.

Definition link_title_test (node : Node) : bool :=
  is_type "link" node || is_type "image" node || is_type "definition" node.

Definition linkTitleStyle (tree : Node) (file : string)
    (option : option string) : Lint unit :=
  let contents := file in
  let preferred :=
    match option with
    | Some o => if negb (String.eqb o "consistent") then Some o else None
    | None => None
    end in
  let preferred :=
    match preferred with
    | Some p =>
        if String.eqb p "()" || String.eqb p "(" then Some ")"%string
        else preferred
    | None => preferred
    end in
  match preferred with
  | Some p =>
      when (truthy p && negb (bool_decide (is_Some (markers !! p))))
        (fail (link_title_fatal p))
  | None => lint_ret tt
  end ;;;
  _ <- visit tree link_title_test (link_title_check contents) false
         preferred ;;
  lint_ret tt.

End LinkTitle.

(** * Vocabulary of the statements

    What the rules observe, what the specification expects of them, and
    example documents. *)

(** ** Runs that do not throw *)

(** [emits m a out]: from any message list, [m] completes normally with
    result [a] and appends exactly [out]. *)
Definition emits {A} (m : Lint A) (a : A) (out : list VFileMessage) : Prop :=
  forall ms, m ms = (Normal a, ms ++ out).

(** ** final-newline *)

(** The last character of a text, if it has one. *)
Fixpoint last_character (s : string) : option ascii :=
  match s with
  | EmptyString => None
  | String c EmptyString => Some c
  | String _ s' => last_character s'
  end.

Definition missing_final_newline : VFileMessage :=
  {| reason := "Missing newline character at end of file";
     place := NoPlace;
     fatal := false |}.

(** ** rule-style and blockquote-indentation: consistency inference *)

(** The characters a preferred rule may be made of. *)
Definition recognized_marker (c : ascii) : Prop :=
  (c = "-" \/ c = "_" \/ c = "*" \/ c = " ")%char.

Definition rule_style_failure : VFileMessage :=
  {| reason := rule_style_fatal; place := NoPlace; fatal := true |}.

(** The visits on which a filtered [visit] calls its visitor, in order. *)
Definition visited (reverse : bool) (test : Node -> bool) (tree : Node)
    : list Visit :=
  List.filter (fun v => test (v_node v)) (walk reverse None None tree).

(** Section 4.4 in the spec's words: with a configured preferred value,
    every observation that differs from it is flagged; without one, the
    first observation is adopted and every later one that differs from it
    is flagged. *)
Definition flagged {X V} (differs : V -> V -> bool) (configured : option V)
    (observed : list (X * V)) : list (X * V) :=
  match configured with
  | Some preferred =>
      List.filter (fun o => differs (snd o) preferred) observed
  | None =>
      match observed with
      | [] => []
      | first :: later =>
          List.filter (fun o => differs (snd o) (snd first)) later
      end
  end.

(** The value the diagnostics of a run cite, if any. *)
Definition preferred_value {X V} (configured : option V)
    (observed : list (X * V)) : option V :=
  match configured with
  | Some preferred => Some preferred
  | None => option_map snd (head observed)
  end.

(** What rule-style observes at a thematic break: the slice of the file
    between the offsets of its start and end, when it has both. *)
Definition rule_of (value : string) (node : Node) : option (Node * string) :=
  match pointStart (Some node), pointEnd (Some node) with
  | Some s, Some e =>
      match offset s, offset e with
      | Some a, Some b => Some (node, slice a b value)
      | _, _ => None
      end
  | _, _ => None
  end.

Definition rule_observations (value : string) (l : list Visit)
    : list (Node * string) :=
  omap (fun v => rule_of value (v_node v)) l.

Definition rule_differs (rule preferred : string) : bool :=
  negb (String.eqb rule preferred).

Definition rule_report (preferred : string) (o : Node * string)
    : VFileMessage :=
  {| reason := "Rules should use `" +:+ preferred +:+ "`";
     place := AtNode (fst o);
     fatal := false |}.

(** What the code does without a configured value: an observed rule that
    reads ['consistent'] leaves the variable as it was. *)
Fixpoint rule_inferred (observed : list (Node * string))
    : list VFileMessage :=
  match observed with
  | [] => []
  | o :: later =>
      if String.eqb (snd o) "consistent" then rule_inferred later
      else map (rule_report (snd o))
             (List.filter (fun o' => rule_differs (snd o') (snd o)) later)
  end.

(** rule-style without a usable configured value: [null], [undefined],
    ['consistent'] or the empty string. *)
Definition infers_style (options : option string) : Prop :=
  options = None \/ options = Some "consistent"%string \/
  options = Some ""%string.

(** What blockquote-indentation observes at a block quote: the start of its
    first child, and how many columns that is after its own start. *)
Definition indent_of (node : Node) : option (Point * Z) :=
  match pointStart (node_children node !! 0%nat), pointStart (Some node) with
  | Some head, Some start => Some (head, column head - column start)
  | _, _ => None
  end.

Definition indent_observations (l : list Visit) : list (Point * Z) :=
  omap (fun v => indent_of (v_node v)) l.

Definition indent_differs (count preferred : Z) : bool :=
  negb (preferred - count =? 0).

(** The message says how many spaces to add or remove to reach the
    preferred width. *)
Definition indent_report (preferred : Z) (o : Point * Z) : VFileMessage :=
  {| reason :=
       (if 0 <? preferred - snd o then "Add" else "Remove") +:+ " " +:+
       pretty (Z.abs (preferred - snd o)) +:+ " " +:+
       pluralize "space" (Z.abs (preferred - snd o)) +:+
       " between block quote and content";
     place := AtPoint (fst o);
     fatal := false |}.

Definition indent_reports (configured : option Z)
    (observed : list (Point * Z)) : list VFileMessage :=
  match preferred_value configured observed with
  | Some preferred =>
      map (indent_report preferred) (flagged indent_differs configured observed)
  | None => []
  end.

Definition rule_reports (configured : option string)
    (observed : list (Node * string)) : list VFileMessage :=
  match preferred_value configured observed with
  | Some preferred =>
      map (rule_report preferred) (flagged rule_differs configured observed)
  | None => []
  end.

(** The preferred width the rule starts from: a number other than 0. *)
Definition effective_indent (options : option IndentOptions) : option Z :=
  match options with
  | Some (IndentNumber n) => if n =? 0 then None else Some n
  | _ => None
  end.

(** ** Example documents *)

Module Example.

Definition span (l1 c1 o1 l2 c2 o2 : Z) : option Position :=
  Some {| pos_start := {| line := l1; column := c1; offset := Some o1 |};
          pos_end := {| line := l2; column := c2; offset := Some o2 |} |}.

Definition leaf (type : string) (pos : option Position) : Node :=
  mkNode type pos [] None "" 1%positive.

Definition parent (type : string) (pos : option Position)
    (children : list Node) : Node :=
  mkNode type pos children None "" 1%positive.

Definition root (children : list Node) : Node :=
  parent "root" (span 1 1 0 9 1 80) children.

(** [>  Hello]: a block quote whose content starts [indent] columns in. *)
Definition quote (l o indent : Z) : Node :=
  parent "blockquote" (span l 1 o l (indent + 6) (o + indent + 5))
    [leaf "paragraph"
       (span l (1 + indent) (o + indent) l (indent + 6) (o + indent + 5))].

(** Two rules, [***] on line 1 and [* * *] on line 3. *)
Definition two_rules_file : string :=
  "***" +:+ line_feed +:+ line_feed +:+ "* * *" +:+ line_feed.

(** Rules and block quotes in one document. *)
Definition rules_and_quotes : Node :=
  root [leaf "thematicBreak" (span 1 1 0 1 4 3);
        leaf "thematicBreak" (span 3 1 5 3 6 10);
        quote 5 12 2;
        quote 7 21 3].

End Example.

(** How the claim reads a configured option. *)
Definition configured_style (options : option string) : option string :=
  match options with
  | Some o => if String.eqb o "consistent" then None else Some o
  | None => None
  end.

Definition configured_indent (options : option IndentOptions) : option Z :=
  match options with
  | Some (IndentNumber n) => Some n
  | _ => None
  end.

(** ** Duplicate-by-key rules *)

(** A qualifying node as the duplicate rules see it: its key, its start
    point, and the place its diagnostic would be given. *)
Record Occurrence : Type := mkOccurrence {
  occ_key : string;
  occ_start : Point;
  occ_place : Place
}.

Definition definition_occurrence (node : Node) : option Occurrence :=
  match is_type "definition" node || is_type "footnoteDefinition" node,
        position (Some node), pointStart (Some node) with
  | true, Some place, Some start =>
      Some {| occ_key := node_identifier node;
              occ_start := start;
              occ_place := AtPosition place |}
  | _, _, _ => None
  end.

Definition definition_occurrences (tree : Node) : list Occurrence :=
  omap (fun v => definition_occurrence (v_node v))
    (visited false any_node tree).

(** The most recent of the occurrences [seen] (in document order) that has
    key [k]. *)
Definition latest (k : string) (seen : list Occurrence) : option Occurrence :=
  List.find (fun o => String.eqb (occ_key o) k) (rev seen).

Definition duplicate_report (reason : string -> string)
    (o earlier : Occurrence) : VFileMessage :=
  {| reason := reason (stringifyPosition (occ_start earlier));
     place := occ_place o;
     fatal := false |}.

(** The diagnostics for the occurrences [todo], met after [seen]: one for
    each occurrence whose key was seen before, citing the most recent
    earlier occurrence of that key. *)
Fixpoint duplicate_reports (reason : string -> string)
    (seen todo : list Occurrence) : list VFileMessage :=
  match todo with
  | [] => []
  | o :: rest =>
      match latest (occ_key o) seen with
      | Some earlier => [duplicate_report reason o earlier]
      | None => []
      end ++ duplicate_reports reason (seen ++ [o]) rest
  end.

(** The [Map] after the occurrences [seen]. *)
Definition map_after (seen : list Occurrence) : gmap string string :=
  fold_left (fun m o => <[occ_key o := stringifyPosition (occ_start o)]> m)
    seen ∅.

(** What both visitors do with a node, given what it is an occurrence of. *)
Definition duplicate_step (reason : string -> string)
    (occurrence : option Occurrence) (map : gmap string string)
    : Lint (gmap string string) :=
  match occurrence with
  | Some o =>
      match map !! occ_key o with
      | Some duplicate =>
          when (truthy duplicate) (message (reason duplicate) (occ_place o))
      | None => lint_ret tt
      end ;;;
      lint_ret (<[occ_key o := stringifyPosition (occ_start o)]> map)
  | None => lint_ret map
  end.

(** The two duplicate-by-key rules of the claim. *)
Inductive DuplicateRule : Type :=
| Definitions
| Headings.

Section DuplicateKeys.
(** [toString] of [mdast-util-to-string] and [toUpperCase], as in the
    rules. *)
Variable toString : Node -> string.
Variable toUpperCase : string -> string.

Definition heading_occurrence (node : Node) : option Occurrence :=
  match position (Some node), pointStart (Some node) with
  | Some place, Some start =>
      Some {| occ_key := toUpperCase (toString node);
              occ_start := start;
              occ_place := AtNode node |}
  | _, _ => None
  end.

Definition duplicate_rule (rule : DuplicateRule) (tree : Node) : Lint unit :=
  match rule with
  | Definitions => remarkLintNoDuplicateDefinitions tree
  | Headings => remarkLintNoDuplicateHeadings toString toUpperCase tree
  end.

(** The positioned qualifying nodes of a rule, in document order. *)
Definition occurrences (rule : DuplicateRule) (tree : Node)
    : list Occurrence :=
  match rule with
  | Definitions => definition_occurrences tree
  | Headings =>
      omap (fun v => heading_occurrence (v_node v))
        (visited false (is_type "heading") tree)
  end.

End DuplicateKeys.

Definition duplicate_reason (rule : DuplicateRule) : string -> string :=
  match rule with
  | Definitions =>
      fun earlier =>
        "Do not use definitions with the same identifier (" +:+ earlier +:+
        ")"
  | Headings =>
      fun earlier =>
        "Do not use headings with similar content (" +:+ earlier +:+ ")"
  end.

(** Headings and definitions for the examples. *)
Module Example2.

(** The flattened text of a node, as [mdast-util-to-string] gives it. *)
Fixpoint flat_text (node : Node) : string :=
  match node with
  | mkNode _ _ kids value _ _ =>
      match value with
      | Some s => s
      | None =>
          (fix all (cs : list Node) : string :=
             match cs with
             | [] => ""
             | c :: cs' => flat_text c +:+ all cs'
             end) kids
      end
  end.

(** Upper case on the letters a to z. *)
Definition upper_char (c : ascii) : ascii :=
  let n := nat_of_ascii c in
  if (Nat.leb 97 n && Nat.leb n 122)%nat then ascii_of_nat (n - 32) else c.

Fixpoint upper (s : string) : string :=
  match s with
  | EmptyString => EmptyString
  | String c s' => String (upper_char c) (upper s')
  end.

Definition text (s : string) : Node :=
  mkNode "text" None [] (Some s) "" 1%positive.

Definition heading (depth : positive) (l : Z) (s : string) : Node :=
  mkNode "heading" (Example.span l 1 0 l 9 8) [text s] None "" depth.

Definition definition (l : Z) (identifier : string) : Node :=
  mkNode "definition" (Example.span l 1 0 l 11 10) [] None identifier
    1%positive.

End Example2.

(** ** no-duplicate-headings-in-section *)

(** The headings of a tree, in document order. *)
Definition headings (tree : Node) : list Node :=
  map v_node (visited false (is_type "heading") tree).

Section SectionScopes.
(** [toString] of [mdast-util-to-string] and [toUpperCase], as in the
    rules. *)
Variable toString : Node -> string.
Variable toUpperCase : string -> string.

Definition heading_key (node : Node) : string :=
  toUpperCase (toString node).

Definition heading_depth (node : Node) : nat :=
  Pos.to_nat (node_depth node).

(** The scope object of a depth, empty when the stack has none. *)
Definition scope_at (stack : list (option (gmap string Node)))
    (depth : nat) : gmap string Node :=
  match array_get stack (depth - 1) with
  | Some scope => scope
  | None => ∅
  end.

(** The diagnostic at [node] that cites the heading [earlier]. *)
Definition in_section_report (node earlier : Node) : VFileMessage :=
  {| reason :=
       "Do not use headings with similar content per section (" +:+
       V4.stringifyPosition (V4.pointStart (Some earlier)) +:+ ")";
     place := AtNode node;
     fatal := false |}.

Definition in_section_next (node : Node)
    (stack : list (option (gmap string Node)))
    : list (option (gmap string Node)) :=
  take (heading_depth node)
    (array_set stack (heading_depth node - 1)
       (<[heading_key node := node]> (scope_at stack (heading_depth node)))).

Definition in_section_out (node : Node)
    (stack : list (option (gmap string Node))) : list VFileMessage :=
  match scope_at stack (heading_depth node) !! heading_key node with
  | Some earlier =>
      if negb (V4.generated node) then [in_section_report node earlier]
      else []
  | None => []
  end.

(** The stack and the diagnostics after the headings [l]. *)
Fixpoint in_section_stack (l : list Node)
    (stack : list (option (gmap string Node)))
    : list (option (gmap string Node)) :=
  match l with
  | [] => stack
  | node :: l' => in_section_stack l' (in_section_next node stack)
  end.

Fixpoint in_section_reports (l : list Node)
    (stack : list (option (gmap string Node))) : list VFileMessage :=
  match l with
  | [] => []
  | node :: l' =>
      in_section_out node stack ++
      in_section_reports l' (in_section_next node stack)
  end.

(** The headings that a heading of depth [depth] is compared with: those of
    its own depth met since the last heading of a smaller depth.  [seen]
    holds the headings met so far, the most recent first. *)
Fixpoint section_scope (depth : nat) (seen : list Node) : list Node :=
  match seen with
  | [] => []
  | node :: rest =>
      if (heading_depth node <? depth)%nat then []
      else if (heading_depth node =? depth)%nat
           then node :: section_scope depth rest
           else section_scope depth rest
  end.

(** The diagnostics of the headings [todo], met after [seen]: a heading
    with a position gets one when the scope of its depth holds a heading of
    its text, and cites the most recent such heading. *)
Fixpoint section_reports (seen todo : list Node) : list VFileMessage :=
  match todo with
  | [] => []
  | node :: rest =>
      match List.find
              (fun e => String.eqb (heading_key e) (heading_key node))
              (section_scope (heading_depth node) seen) with
      | Some earlier =>
          if negb (V4.generated node) then [in_section_report node earlier]
          else []
      | None => []
      end ++ section_reports (node :: seen) rest
  end.

End SectionScopes.

(** ** no-missing-blank-lines *)

(** The visits below the children [cs] of [node], the first of which has
    index [i]: the inner loop of [walk]. *)
Fixpoint walk_children (reverse : bool) (node : Node) (i : nat)
    (cs : list Node) : list Visit :=
  match cs with
  | [] => []
  | c :: cs' =>
      if reverse
      then walk_children reverse node (S i) cs' ++
           walk reverse (Some i) (Some node) c
      else walk reverse (Some i) (Some node) c ++
           walk_children reverse node (S i) cs'
  end.

(** The nodes of a tree: the ones a traversal in document order reaches. *)
Definition nodes_of (tree : Node) : list Node :=
  map v_node (walk false None None tree).

Definition missing_blank_line (next : Node) : VFileMessage :=
  {| reason := "Missing blank line before block node";
     place := AtNode next;
     fatal := false |}.

(** The value of [exceptTightLists] the rule works with. *)
Definition except_tight_lists (options : option BlankLinesOptions) : bool :=
  match options with
  | Some o => match exceptTightLists o with Some b => b | None => false end
  | None => false
  end.

(** What the visit of one node adds: at most the diagnostic at its next
    sibling. *)
Definition blank_line_check (except : bool) (v : Visit)
    : list VFileMessage :=
  match v_parent v, v_index v, pointEnd (Some (v_node v)) with
  | Some parent, Some index, Some end_ =>
      if negb except || negb (String.eqb (node_type parent) "listItem") then
        match node_children parent !! (index + 1)%nat with
        | Some next =>
            match pointStart (Some next) with
            | Some nextPoint =>
                if bool_decide (node_type next ∈ types) &&
                   (line nextPoint =? line end_ + 1)
                then [missing_blank_line next] else []
            | None => []
            end
        | None => []
        end
      else []
  | _, _, _ => []
  end.

(** The pairs of neighbouring children that the traversal meets: at the
    visit of a node that has a parent, that parent, the node, and the
    sibling that follows the node, when there is one. *)
Definition sibling_pair (v : Visit) : option (Node * Node * Node) :=
  match v_parent v, v_index v with
  | Some parent, Some index =>
      option_map (fun next => (parent, v_node v, next))
        (node_children parent !! (index + 1)%nat)
  | _, _ => None
  end.

Definition sibling_pairs (tree : Node) : list (Node * Node * Node) :=
  omap sibling_pair (visited false any_node tree).

(** No blank line between two neighbouring children: the end of the first
    and the start of the second resolve, the second is of a block type
    and starts on the line after the one the first ends on; under
    [exceptTightLists] the children of a list item are left out. *)
Definition lacks_blank_line (except : bool) (t : Node * Node * Node)
    : bool :=
  let '(parent, a, b) := t in
  match pointEnd (Some a), pointStart (Some b) with
  | Some ea, Some sb =>
      bool_decide (node_type b ∈ types) && (line sb =? line ea + 1) &&
      negb (except && String.eqb (node_type parent) "listItem")
  | _, _ => false
  end.

(** ** final-definition *)

(** How final-definition looks at a node: ignored (generated, the root, an
    HTML comment), a definition, or content. *)
Inductive NodeClass : Type :=
| Ignored
| DefinitionAt (line : Z)
| ContentAt (line : Z).

Definition node_class (node : Node) : NodeClass :=
  match pointStart (Some node) with
  | None => Ignored
  | Some start =>
      if is_type "root" node ||
         (is_type "html" node &&
          match node_value node with
          | Some value => html_comment value
          | None => false
          end)
      then Ignored
      else if is_type "definition" node then DefinitionAt (line start)
      else ContentAt (line start)
  end.

(** The line of a content node: a positioned node that is not the root, not
    a definition and not an HTML comment. *)
Definition content_line (node : Node) : option Z :=
  match node_class node with
  | ContentAt l => Some l
  | _ => None
  end.

(** A definition that starts before the remembered line. *)
Definition definition_before (remembered : Z) (v : Visit) : bool :=
  match node_class (v_node v) with
  | DefinitionAt l => l <? remembered
  | _ => false
  end.

Definition final_definition_report (remembered : Z) (v : Visit)
    : VFileMessage :=
  {| reason :=
       "Move definitions to the end of the file (after the node at line `" +:+
       pretty remembered +:+ "`)";
     place := AtNode (v_node v);
     fatal := false |}.

(** ** no-heading-punctuation *)

(** What the visit of one heading adds. *)
Definition heading_punctuation_check (toString : Node -> string)
    (expression : string -> bool) (v : Visit) : list VFileMessage :=
  match position (Some (v_node v)) with
  | Some pos =>
      let value := toString (v_node v) in
      let tail := charAt (Z.of_nat (String.length value) - 1) value in
      if expression tail then
        [{| reason := heading_punctuation_reason tail;
            place := AtPosition pos;
            fatal := false |}]
      else []
  | None => []
  end.

(** ** list-item-spacing *)

(** A list that has a position, with two items that have none (say, items
    a plugin wrapped around the paragraphs of the document); the first
    paragraph runs over two lines. *)
Definition generated_items : Node :=
  Example.root
    [Example.parent "list" (Example.span 1 1 0 3 8 23)
       [Example.parent "listItem" None
          [Example.leaf "paragraph" (Example.span 1 3 2 2 8 15)];
        Example.parent "listItem" None
          [Example.leaf "paragraph" (Example.span 3 3 18 3 8 23)]]].

(** ** Rules that report on one node at a time *)

(** A diagnostic that is not fatal. *)
Definition warning (r : string) (p : Place) : VFileMessage :=
  {| reason := r; place := p; fatal := false |}.

(** The nodes of [tree] that satisfy [p] and have a resolvable position,
    each with that position, in document order. *)
Definition positioned_where (p : Node -> bool) (tree : Node)
    : list (Node * Position) :=
  omap (fun n => option_map (pair n) (position (Some n)))
    (List.filter p (nodes_of tree)).

(** No node of the tree has a negative line or column. *)
Definition plain_positions (tree : Node) : Prop :=
  Forall (fun n =>
            match node_position n with
            | Some pos =>
                0 <= line (pos_start pos) /\ 0 <= column (pos_start pos) /\
                0 <= line (pos_end pos) /\ 0 <= column (pos_end pos)
            | None => True
            end)
    (nodes_of tree).

(** A text that [/^\s*<!--/] matches: white space, then [<!--]. *)
Definition comment_text (s : string) : Prop :=
  exists ws rest,
    Forall (fun c => is_space c = true) (list_ascii_of_string ws) /\
    s = ws +:+ "<!--" +:+ rest.

(** Every text node of the tree has a [value], as mdast requires. *)
Definition texts_have_values (tree : Node) : Prop :=
  Forall (fun n => node_type n = "text" -> node_value n <> None)
    (nodes_of tree).

(** A paragraph whose first child is a text that starts with the fence of
    seven hashes. *)
Definition heading_like (n : Node) : bool :=
  is_type "paragraph" n &&
  match node_children n !! 0%nat with
  | Some head =>
      is_type "text" head &&
      match node_value head with
      | Some value => String.prefix fence value
      | None => false
      end
  | None => false
  end.

Section ResourceVocabulary.
Variable url : Node -> string.
Variable toLowerCase : string -> string.

(** The set that the first traversal of no-reference-like-url builds: the
    lower-cased identifiers of all definitions of the tree. *)
Definition identifiers_of (tree : Node) : gset string :=
  list_to_set
    (map (fun n => toLowerCase (node_identifier n))
       (List.filter (is_type "definition") (nodes_of tree))).

End ResourceVocabulary.

(** ** link-title-style *)

(** What link-title-style observes at a node: the offsets of the opening
    and of the closing delimiter of its title, and the closing delimiter.
    Nothing at a generated node, at a node that does not end in a closing
    delimiter, or when no opening delimiter after white space is found. *)
Definition title_of (contents : string) (node : Node)
    : option ((Z * Z) * string) :=
  if V4.generated node then None
  else
    let last_ := V4.to_number (V4.offset (V4.pointEnd (Some node))) - 1 in
    let begin :=
      match last (node_children node) with
      | Some tail => V4.pointEnd (Some tail)
      | None => V4.pointStart (Some node)
      end in
    let last_ := if negb (is_type "definition" node) then last_ - 1
                 else last_ in
    let '(last_, final) := skip_back contents last_ in
    match final with
    | None => None
    | Some final =>
        match markers !! final with
        | None => None
        | Some initial =>
            let first := lastIndexOf initial (last_ - 1) contents in
            if number_le_point first begin ||
               negb (has_space (charAt (first - 1) contents))
            then None
            else Some ((first, last_), final)
        end
    end.

Definition title_observations (contents : string) (l : list Visit)
    : list ((Z * Z) * string) :=
  omap (fun v => title_of contents (v_node v)) l.

Definition title_differs (final preferred : string) : bool :=
  negb (String.eqb preferred final).

(** The style link-title-style starts from: none for ['consistent'], for the
    empty string and for a missing option; [()] and [(] stand for [)]. *)
Definition configured_title (setting : option string) : option string :=
  match setting with
  | Some o =>
      if String.eqb o "consistent" || String.eqb o "" then None
      else if String.eqb o "()" || String.eqb o "(" then Some ")"%string
      else Some o
  | None => None
  end.

Definition link_title_failure (option : string) : VFileMessage :=
  {| reason := link_title_fatal option; place := NoPlace; fatal := true |}.

Section LinkTitleReports.
Variable toPoint : string -> Z -> V4.Point.

(** The diagnostic for a title in another style than [preferred]: from its
    opening delimiter to just after its closing one. *)
Definition title_report (contents preferred : string)
    (o : (Z * Z) * string) : VFileMessage :=
  warning (link_title_reason preferred)
    (AtRange (toPoint contents (fst (fst o)))
             (toPoint contents (snd (fst o) + 1))).

Definition title_reports (contents : string) (configured : option string)
    (observed : list ((Z * Z) * string)) : list VFileMessage :=
  match preferred_value configured observed with
  | Some preferred =>
      map (title_report contents preferred)
        (flagged title_differs configured observed)
  | None => []
  end.

End LinkTitleReports.

(** ** list-item-spacing *)

(** The place between two list items: from the end of one to the start of
    the next. *)
Definition item_gap (child next : Node) : Place :=
  AtRange (V4.pointEnd (Some child)) (V4.pointStart (Some next)).

(** [infer] as the option selects it. *)
Definition spacing_infer (option : option ListItemSpacingOptions)
    : Node -> bool :=
  match option with
  | Some o => if checkBlanks o then inferBlankLine else inferMultiline
  | None => inferMultiline
  end.

(** What the items [child :: rest] of one list get. *)
Fixpoint gap_reports (tight : bool) (child : Node) (rest : list Node)
    : list VFileMessage :=
  match rest with
  | [] => []
  | next :: rest' =>
      (if negb (Bool.eqb (line_gap next child <? 2) tight)
       then [warning (if tight then reasonTight else reasonLoose)
               (item_gap child next)]
       else []) ++ gap_reports tight next rest'
  end.

Definition list_reports (infer : Node -> bool) (node : Node)
    : list VFileMessage :=
  if is_type "list" node && negb (V4.generated node) then
    match node_children node with
    | [] => []
    | child :: rest =>
        gap_reports (negb (existsb infer (node_children node))) child rest
    end
  else [].

(** The nodes [children] follow each other in the file: each ends on or
    after the line it starts on, and starts on or after the line the one
    before it ends on ([line] for the first). *)
Fixpoint ordered_after (line : Z) (children : list Node) : Prop :=
  match children with
  | [] => True
  | child :: rest =>
      line <= V4.to_number (V4.line (V4.pointStart (Some child))) /\
      V4.to_number (V4.line (V4.pointStart (Some child))) <=
        V4.to_number (V4.line (V4.pointEnd (Some child))) /\
      ordered_after (V4.to_number (V4.line (V4.pointEnd (Some child)))) rest
  end.

Definition children_in_order (node : Node) : Prop :=
  ordered_after 0 (node_children node).

(** ** rule-style: the two versions *)

(** A node without a position, or with one as a parser gives it: lines and
    columns from 1, offsets from 0. *)
Definition complete_position (n : Node) : Prop :=
  match node_position n with
  | Some pos =>
      0 < line (pos_start pos) /\ 0 < column (pos_start pos) /\
      0 < line (pos_end pos) /\ 0 < column (pos_end pos) /\
      (exists a, offset (pos_start pos) = Some a /\ 0 <= a) /\
      (exists b, offset (pos_end pos) = Some b /\ 0 <= b)
  | None => True
  end.

(** * Verification *)

(** ** Reasoning about [Lint] computations that do not throw *)

Lemma emits_ret {A} (a : A) : emits (lint_ret a) a [].
Proof. intros ms. unfold lint_ret. now rewrite app_nil_r. Qed.

Lemma emits_message r p :
  emits (message r p) tt [{| reason := r; place := p; fatal := false |}].
Proof. intros ms. reflexivity. Qed.

Lemma emits_bind {A B} (m : Lint A) (k : A -> Lint B) a b o1 o2 :
  emits m a o1 -> emits (k a) b o2 -> emits (lint_bind m k) b (o1 ++ o2).
Proof.
  intros Hm Hk ms. unfold lint_bind. rewrite Hm, Hk. now rewrite app_assoc.
Qed.

Lemma emits_bind_silent {A B} (m : Lint A) (k : A -> Lint B) a b out :
  emits m a [] -> emits (k a) b out -> emits (lint_bind m k) b out.
Proof. intros Hm Hk. exact (emits_bind m k a b [] out Hm Hk). Qed.

Lemma emits_bind_ret {A B} (m : Lint A) (b : B) a out :
  emits m a out -> emits (lint_bind m (fun _ => lint_ret b)) b out.
Proof.
  intros Hm. rewrite <- (app_nil_r out).
  eapply emits_bind; [exact Hm | apply emits_ret].
Qed.

Lemma emits_run {A} (m : Lint A) a out :
  emits m a out -> run m = (Normal a, out).
Proof. intros H. unfold run. now rewrite H. Qed.

Lemma emits_each_cons {S A} (visitor : A -> S -> Lint S) x l s s' s'' o1 o2 :
  emits (visitor x s) s' o1 ->
  emits (each visitor l s') s'' o2 ->
  emits (each visitor (x :: l) s) s'' (o1 ++ o2).
Proof. intros H1 H2. simpl. eapply emits_bind; eauto. Qed.

(** ** final-newline *)

Lemma get_last_character (c : ascii) (s : string) :
  String.get (String.length s) (String c s) = last_character (String c s).
Proof.
  revert c. induction s as [|c' s IH]; intros c; [reflexivity|].
  change (String.get (String.length s) (String c' s) =
          last_character (String c' s)).
  apply IH.
Qed.

Lemma charAt_last (s : string) :
  charAt (Z.of_nat (String.length s) - 1) s =
  match last_character s with
  | Some c => String c ""
  | None => ""
  end.
Proof.
  unfold charAt. destruct s as [|c s]; [reflexivity|].
  replace (Z.of_nat (String.length (String c s)) - 1)
    with (Z.of_nat (String.length s)) by (simpl String.length; lia).
  destruct (Z.ltb_spec (Z.of_nat (String.length s)) 0) as [H|_]; [lia|].
  rewrite Nat2Z.id. now rewrite get_last_character.
Qed.

Lemma last_character_cons (c : ascii) (s : string) :
  last_character (String c s) <> None.
Proof.
  revert c. induction s as [|c' s IH]; intros c; [discriminate|].
  exact (IH c').
Qed.

(** C10: final-newline reports exactly when the text is not empty and its
    last character is not a line feed; an empty text gives no diagnostic;
    the diagnostic has no place (it is about the file). *)
Theorem final_newline_exactly_when_missing (tree : Node) (file : string) :
  run (remarkLintFinalNewline tree file) =
    (Normal tt,
     match last_character file with
     | Some c => if Ascii.eqb c (ascii_of_nat 10) then []
                 else [missing_final_newline]
     | None => []
     end) /\
  (diagnostics (remarkLintFinalNewline tree file) = [missing_final_newline] <->
   file <> "" /\ last_character file <> Some (ascii_of_nat 10)) /\
  diagnostics (remarkLintFinalNewline tree "") = [] /\
  place missing_final_newline = NoPlace.
Proof.
  assert (Hrun : run (remarkLintFinalNewline tree file) =
    (Normal tt,
     match last_character file with
     | Some c => if Ascii.eqb c (ascii_of_nat 10) then []
                 else [missing_final_newline]
     | None => []
     end)).
  { unfold remarkLintFinalNewline. cbv zeta. rewrite charAt_last.
    destruct file as [|c s]; [reflexivity|].
    replace (-1 <? Z.of_nat (String.length (String c s)) - 1) with true
      by (symmetry; apply Z.ltb_lt; simpl String.length; lia).
    pose proof (last_character_cons c s) as Hsome.
    destruct (last_character (String c s)) as [l|]; [|congruence].
    unfold line_feed. simpl String.eqb.
    destruct (Ascii.eqb l (ascii_of_nat 10)) eqn:E; reflexivity. }
  split; [exact Hrun|]. split; [|split; reflexivity].
  unfold diagnostics. rewrite Hrun. simpl snd.
  destruct file as [|c s].
  - simpl. split; [discriminate | intros [H _]; congruence].
  - pose proof (last_character_cons c s) as Hsome.
    destruct (last_character (String c s)) as [l|]; [|congruence].
    destruct (Ascii.eqb l (ascii_of_nat 10)) eqn:E.
    + apply Ascii.eqb_eq in E. subst l.
      split; [discriminate | intros [_ H]; congruence].
    + apply Ascii.eqb_neq in E.
      split; [intros _; split; congruence | reflexivity].
Qed.

(** ** rule-style: configuration *)

Lemma is_marker_char_spec (c : ascii) :
  is_marker_char c = true <-> recognized_marker c.
Proof.
  unfold is_marker_char, recognized_marker.
  rewrite !orb_true_iff, !Ascii.eqb_eq. tauto.
Qed.

Lemma has_non_marker_spec (s : string) :
  has_non_marker s = true <->
  exists c, In c (list_ascii_of_string s) /\ ~ recognized_marker c.
Proof.
  induction s as [|c s IH]; simpl.
  - split; [discriminate | intros (c & [] & _)].
  - rewrite orb_true_iff, IH, negb_true_iff. split.
    + intros [Hc | (c' & Hin & Hc')].
      * exists c. split; [now left|]. rewrite <- is_marker_char_spec.
        congruence.
      * exists c'. split; [now right | exact Hc'].
    + intros (c' & [<- | Hin] & Hc').
      * left. rewrite <- is_marker_char_spec in Hc'.
        now destruct (is_marker_char c).
      * right. now exists c'.
Qed.

(** C4: rule-style, given a string other than ['consistent'] with a
    character outside dash, underscore, asterisk and space, throws its
    fatal message before the tree is visited: the only message of the run
    is the fatal one, whatever the tree holds.  Both versions under src/. *)
Theorem rule_style_rejects_unrecognized_marker
    (tree : Node) (file option : string) :
  option <> "consistent" ->
  (exists c, In c (list_ascii_of_string option) /\ ~ recognized_marker c) ->
  run (remarkLintRuleStyle tree file (Some option)) =
    (Throw rule_style_failure, [rule_style_failure]) /\
  run (ruleStyle tree file (Some option)) =
    (Throw rule_style_failure, [rule_style_failure]).
Proof.
  intros Hne Hbad.
  assert (Hnm : has_non_marker option = true) by now apply has_non_marker_spec.
  assert (Htruthy : truthy option = true).
  { destruct option; [destruct Hbad as (c & [] & _) | reflexivity]. }
  assert (Heqb : String.eqb option "consistent" = false)
    by now apply String.eqb_neq.
  split.
  - unfold remarkLintRuleStyle, run, lint_bind. cbv zeta.
    rewrite Htruthy, Heqb, Hnm. reflexivity.
  - unfold ruleStyle, run, lint_bind. cbv zeta.
    rewrite Heqb. simpl negb. cbv iota. rewrite Hnm. reflexivity.
Qed.

Lemma rule_style_rejects_unrecognized_marker_witness :
  let tree := mkNode "root" None
                [mkNode "thematicBreak"
                   (Some (mkPosition (mkPoint 1 1 (Some 0))
                                     (mkPoint 1 4 (Some 3))))
                   [] None "" 1%positive]
                None "" 1%positive in
  run (remarkLintRuleStyle tree "***" (Some "=="%string)) =
    (Throw rule_style_failure, [rule_style_failure]) /\
  run (ruleStyle tree "***" (Some "=="%string)) =
    (Throw rule_style_failure, [rule_style_failure]).
Proof.
  apply rule_style_rejects_unrecognized_marker.
  - discriminate.
  - exists "="%char. split; [now left|].
    unfold recognized_marker. intros [H|[H|[H|H]]]; discriminate.
Defined.

(** ** Consistency inference (section 4.4) *)

(** *** rule-style *)

Lemma rule_style_visitor_step (value : string) (v : Visit) (option : string) :
  rule_style_visitor value v option =
  match rule_of value (v_node v) with
  | Some o =>
      if String.eqb option "consistent" then lint_ret (snd o)
      else if rule_differs (snd o) option then
        message (rule_style_reason option) (AtNode (fst o)) ;;;
        lint_ret option
      else lint_ret option
  | None => lint_ret option
  end.
Proof.
  unfold rule_style_visitor, rule_of.
  destruct (pointStart (Some (v_node v))) as [s|]; [|reflexivity].
  destruct (pointEnd (Some (v_node v))) as [e|]; [|reflexivity].
  destruct (offset s); [|reflexivity].
  destruct (offset e); reflexivity.
Qed.

Lemma rule_style_each_concrete (value : string) (l : list Visit)
    (option : string) :
  option <> "consistent" ->
  emits (each (rule_style_visitor value) l option) option
    (map (rule_report option)
       (List.filter (fun o => rule_differs (snd o) option)
          (rule_observations value l))).
Proof.
  intros Hne. apply String.eqb_neq in Hne.
  induction l as [|v l IH]; [apply emits_ret|].
  unfold rule_observations. cbn [omap list_omap].
  fold (rule_observations value l).
  destruct (rule_of value (v_node v)) as [o|] eqn:Ho.
  - cbn [List.filter].
    destruct (rule_differs (snd o) option) eqn:Hd.
    + cbn [map].
      apply emits_each_cons with (s' := option) (o1 := [rule_report option o]);
        [|exact IH].
      rewrite rule_style_visitor_step, Ho, Hne, Hd.
      apply emits_bind with (a := tt) (o1 := [rule_report option o]) (o2 := []);
        [apply emits_message | apply emits_ret].
    + apply emits_each_cons with (s' := option) (o1 := []); [|exact IH].
      rewrite rule_style_visitor_step, Ho, Hne, Hd. apply emits_ret.
  - apply emits_each_cons with (s' := option) (o1 := []); [|exact IH].
    rewrite rule_style_visitor_step, Ho. apply emits_ret.
Qed.

Lemma rule_style_each_consistent (value : string) (l : list Visit) :
  exists option',
    emits (each (rule_style_visitor value) l "consistent") option'
      (rule_inferred (rule_observations value l)).
Proof.
  induction l as [|v l [option' IH]].
  - exists "consistent"%string. apply emits_ret.
  - unfold rule_observations. cbn [omap list_omap].
    fold (rule_observations value l).
    destruct (rule_of value (v_node v)) as [o|] eqn:Ho.
    + cbn [rule_inferred].
      destruct (String.eqb (snd o) "consistent") eqn:Hc.
      * apply String.eqb_eq in Hc. exists option'.
        apply emits_each_cons with (s' := "consistent"%string) (o1 := []);
          [|exact IH].
        rewrite rule_style_visitor_step, Ho. cbn. rewrite Hc. apply emits_ret.
      * exists (snd o).
        apply emits_each_cons with (s' := snd o) (o1 := []).
        -- rewrite rule_style_visitor_step, Ho. cbn. apply emits_ret.
        -- apply rule_style_each_concrete. now apply String.eqb_neq.
    + exists option'.
      apply emits_each_cons with (s' := "consistent"%string) (o1 := []);
        [|exact IH].
      rewrite rule_style_visitor_step, Ho. apply emits_ret.
Qed.

Lemma rule_style_run_consistent (tree : Node) (file : string)
    (options : option string) :
  infers_style options ->
  run (remarkLintRuleStyle tree file options) =
    (Normal tt,
     rule_inferred
       (rule_observations file (visited false (is_type "thematicBreak") tree))).
Proof.
  intros Hopt.
  destruct (rule_style_each_consistent file
              (visited false (is_type "thematicBreak") tree)) as [o' He].
  apply emits_run.
  assert (Hshape : remarkLintRuleStyle tree file options =
    (when false (fail rule_style_fatal) ;;;
     _ <- visit tree (is_type "thematicBreak") (rule_style_visitor file) false
            "consistent" ;;
     lint_ret tt)).
  { destruct Hopt as [-> | [-> | ->]]; reflexivity. }
  rewrite Hshape.
  apply emits_bind_silent with (a := tt); [apply emits_ret|].
  apply emits_bind_ret with (a := o'). exact He.
Qed.

Lemma rule_style_run_concrete (tree : Node) (file option : string) :
  option <> "" -> option <> "consistent" -> has_non_marker option = false ->
  run (remarkLintRuleStyle tree file (Some option)) =
    (Normal tt,
     map (rule_report option)
       (List.filter (fun o => rule_differs (snd o) option)
          (rule_observations file
             (visited false (is_type "thematicBreak") tree)))).
Proof.
  intros Hne Hnc Hok. apply emits_run.
  unfold remarkLintRuleStyle. cbv zeta.
  assert (Ht : truthy option = true).
  { unfold truthy. apply negb_true_iff. now apply String.eqb_neq. }
  rewrite Ht, Hok, andb_false_r.
  apply emits_bind_silent with (a := tt); [apply emits_ret|].
  apply emits_bind_ret with (a := option).
  now apply rule_style_each_concrete.
Qed.

Lemma rule_inferred_identical (observed : list (Node * string))
    (value : string) :
  Forall (fun o => snd o = value) observed -> rule_inferred observed = [].
Proof.
  induction 1 as [|o later Ho Hlater IH]; [reflexivity|].
  cbn [rule_inferred]. destruct (String.eqb (snd o) "consistent"); [exact IH|].
  assert (Hnone : List.filter (fun o' => rule_differs (snd o') (snd o)) later
                  = []).
  { clear IH. induction Hlater as [|o' later' Ho' _ IH']; [reflexivity|].
    cbn [List.filter]. unfold rule_differs at 1.
    rewrite Ho, Ho', String.eqb_refl. cbn. rewrite <- Ho. exact IH'. }
  now rewrite Hnone.
Qed.

(** C8: rule-style in consistent mode: when every observed rule has the
    same text, there is no diagnostic, in whichever order the observations
    come (here: for a tree and for any tree whose observed texts are a
    permutation of its own). *)
Theorem rule_style_identical_observations
    (tree tree' : Node) (file : string) (options : option string)
    (value : string) :
  infers_style options ->
  Forall (fun o => snd o = value)
    (rule_observations file (visited false (is_type "thematicBreak") tree)) ->
  Permutation
    (map snd (rule_observations file
                (visited false (is_type "thematicBreak") tree)))
    (map snd (rule_observations file
                (visited false (is_type "thematicBreak") tree'))) ->
  run (remarkLintRuleStyle tree file options) = (Normal tt, []) /\
  run (remarkLintRuleStyle tree' file options) = (Normal tt, []).
Proof.
  intros Hopt Hsame Hperm. split.
  - rewrite rule_style_run_consistent by exact Hopt.
    now rewrite (rule_inferred_identical _ value).
  - rewrite rule_style_run_consistent by exact Hopt.
    rewrite (rule_inferred_identical _ value); [reflexivity|].
    apply (proj1 (@Forall_map _ _ snd (fun r => r = value) _)).
    apply (Permutation_Forall Hperm).
    now apply (proj2 (@Forall_map _ _ snd (fun r => r = value) _)).
Qed.

Lemma rule_style_identical_observations_witness :
  let break l a b :=
    mkNode "thematicBreak"
      (Some (mkPosition (mkPoint l 1 (Some a)) (mkPoint l 4 (Some b))))
      [] None "" 1%positive in
  let file := ("***" +:+ line_feed +:+ line_feed +:+ "***")%string in
  let tree := Example.parent "root" None [break 1 0 3; break 3 5 8] in
  let tree' := Example.parent "root" None [break 3 5 8; break 1 0 3] in
  run (remarkLintRuleStyle tree file None) = (Normal tt, []) /\
  run (remarkLintRuleStyle tree' file None) = (Normal tt, []).
Proof.
  intros break file tree tree'.
  apply (rule_style_identical_observations tree tree' file None "***").
  - now left.
  - repeat constructor.
  - vm_compute. apply Permutation_refl.
Defined.

(** *** blockquote-indentation *)

Lemma blockquote_visitor_step (v : Visit) (option : IndentOptions) :
  blockquote_visitor v option =
  match indent_of (v_node v) with
  | Some o =>
      match option with
      | IndentConsistent => lint_ret (IndentNumber (snd o))
      | IndentNumber preferred =>
          if indent_differs (snd o) preferred then
            message (blockquote_reason (preferred - snd o))
              (AtPoint (fst o)) ;;;
            lint_ret option
          else lint_ret option
      end
  | None => lint_ret option
  end.
Proof.
  unfold blockquote_visitor, indent_of.
  destruct (pointStart (node_children (v_node v) !! 0%nat)) as [h|];
    [|reflexivity].
  destruct (pointStart (Some (v_node v))) as [s|]; reflexivity.
Qed.

Lemma blockquote_each_concrete (l : list Visit) (preferred : Z) :
  emits (each blockquote_visitor l (IndentNumber preferred))
    (IndentNumber preferred)
    (map (indent_report preferred)
       (List.filter (fun o => indent_differs (snd o) preferred)
          (indent_observations l))).
Proof.
  induction l as [|v l IH]; [apply emits_ret|].
  unfold indent_observations. cbn [omap list_omap].
  fold (indent_observations l).
  destruct (indent_of (v_node v)) as [o|] eqn:Ho.
  - cbn [List.filter].
    destruct (indent_differs (snd o) preferred) eqn:Hd.
    + cbn [map].
      apply emits_each_cons with (s' := IndentNumber preferred)
                                 (o1 := [indent_report preferred o]);
        [|exact IH].
      rewrite blockquote_visitor_step, Ho, Hd.
      apply emits_bind with (a := tt) (o1 := [indent_report preferred o])
                            (o2 := []);
        [apply emits_message | apply emits_ret].
    + apply emits_each_cons with (s' := IndentNumber preferred) (o1 := []);
        [|exact IH].
      rewrite blockquote_visitor_step, Ho, Hd. apply emits_ret.
  - apply emits_each_cons with (s' := IndentNumber preferred) (o1 := []);
      [|exact IH].
    rewrite blockquote_visitor_step, Ho. apply emits_ret.
Qed.

Lemma blockquote_each_consistent (l : list Visit) :
  exists option',
    emits (each blockquote_visitor l IndentConsistent) option'
      (indent_reports None (indent_observations l)).
Proof.
  induction l as [|v l [option' IH]].
  - exists IndentConsistent. apply emits_ret.
  - unfold indent_observations. cbn [omap list_omap].
    fold (indent_observations l).
    destruct (indent_of (v_node v)) as [o|] eqn:Ho.
    + exists (IndentNumber (snd o)).
      apply emits_each_cons with (s' := IndentNumber (snd o)) (o1 := []).
      * rewrite blockquote_visitor_step, Ho. apply emits_ret.
      * apply blockquote_each_concrete.
    + exists option'.
      apply emits_each_cons with (s' := IndentConsistent) (o1 := []);
        [|exact IH].
      rewrite blockquote_visitor_step, Ho. apply emits_ret.
Qed.

Lemma blockquote_run (tree : Node) (options : option IndentOptions) :
  run (remarkLintBlockquoteIndentation tree options) =
    (Normal tt,
     indent_reports (effective_indent options)
       (indent_observations (visited false (is_type "blockquote") tree))).
Proof.
  apply emits_run. unfold remarkLintBlockquoteIndentation. cbv zeta.
  destruct (effective_indent options) as [n|] eqn:He.
  - assert (Hopt : match options with
                   | Some (IndentNumber n) =>
                       if n =? 0 then IndentConsistent else IndentNumber n
                   | _ => IndentConsistent
                   end = IndentNumber n).
    { destruct options as [[m|]|]; try discriminate. simpl in He.
      destruct (m =? 0); congruence. }
    rewrite Hopt. apply emits_bind_ret with (a := IndentNumber n).
    apply blockquote_each_concrete.
  - assert (Hopt : match options with
                   | Some (IndentNumber n) =>
                       if n =? 0 then IndentConsistent else IndentNumber n
                   | _ => IndentConsistent
                   end = IndentConsistent).
    { destruct options as [[m|]|]; try reflexivity. simpl in He.
      destruct (m =? 0); congruence. }
    rewrite Hopt.
    destruct (blockquote_each_consistent
                (visited false (is_type "blockquote") tree)) as [o' Ho'].
    apply emits_bind_ret with (a := o'). exact Ho'.
Qed.

(** C9: blockquote-indentation treats a falsy option, the number 0 in
    particular, as ['consistent']: the run is the run of ['consistent'],
    the first observed width is the preferred one, and no block quote is
    compared with 0. *)
Theorem blockquote_zero_is_consistent (tree : Node) :
  run (remarkLintBlockquoteIndentation tree (Some (IndentNumber 0))) =
    run (remarkLintBlockquoteIndentation tree (Some IndentConsistent)) /\
  run (remarkLintBlockquoteIndentation tree None) =
    run (remarkLintBlockquoteIndentation tree (Some IndentConsistent)) /\
  run (remarkLintBlockquoteIndentation tree (Some (IndentNumber 0))) =
    (Normal tt,
     match indent_observations (visited false (is_type "blockquote") tree) with
     | [] => []
     | first :: later =>
         map (indent_report (snd first))
           (List.filter (fun o => indent_differs (snd o) (snd first)) later)
     end).
Proof.
  split; [reflexivity|]. split; [reflexivity|].
  rewrite blockquote_run. cbn [effective_indent Z.eqb].
  unfold indent_reports, preferred_value, flagged.
  now destruct (indent_observations _).
Qed.

(** *** Both rules *)

Lemma rule_inferred_first (observed : list (Node * string)) :
  (forall o, head observed = Some o -> snd o <> "consistent") ->
  rule_inferred observed = rule_reports None observed.
Proof.
  destruct observed as [|o later]; [reflexivity|]. intros Hfirst.
  cbn [rule_inferred]. specialize (Hfirst o eq_refl).
  apply String.eqb_neq in Hfirst. now rewrite Hfirst.
Qed.

(** C1, as amended.  rule-style with a preferred rule made of marker
    characters, and blockquote-indentation with a preferred width other
    than 0: a diagnostic for exactly the observations that differ from the
    preferred value, in document order.  Without a preferred value: the
    first observation is adopted, it gets no diagnostic, and exactly the
    later observations that differ from it get one.  rule-style cites the
    preferred rule in its message; blockquote-indentation says how many
    spaces to add or remove. *)
Theorem consistency_inference
    (tree : Node) (file : string) (style : option string)
    (indent : option IndentOptions) :
  (forall o, style = Some o -> o <> "consistent" ->
     o <> "" /\
     forall c, In c (list_ascii_of_string o) -> recognized_marker c) ->
  (configured_style style = None ->
   forall o,
     head (rule_observations file
             (visited false (is_type "thematicBreak") tree)) = Some o ->
     snd o <> "consistent") ->
  indent <> Some (IndentNumber 0) ->
  run (remarkLintRuleStyle tree file style) =
    (Normal tt,
     rule_reports (configured_style style)
       (rule_observations file
          (visited false (is_type "thematicBreak") tree))) /\
  run (remarkLintBlockquoteIndentation tree indent) =
    (Normal tt,
     indent_reports (configured_indent indent)
       (indent_observations (visited false (is_type "blockquote") tree))).
Proof.
  intros Hstyle Hfirst Hindent. split.
  - destruct style as [o|].
    + destruct (String.eqb o "consistent") eqn:Hc.
      * apply String.eqb_eq in Hc. subst o.
        rewrite rule_style_run_consistent by (right; now left).
        apply f_equal, rule_inferred_first. now apply Hfirst.
      * unfold configured_style. rewrite Hc.
        apply String.eqb_neq in Hc.
        destruct (Hstyle o eq_refl Hc) as [Hne Hall].
        apply rule_style_run_concrete; trivial.
        destruct (has_non_marker o) eqn:Hbad; [|reflexivity].
        apply has_non_marker_spec in Hbad. destruct Hbad as (c & Hin & Hc').
        destruct (Hc' (Hall c Hin)).
    + rewrite rule_style_run_consistent by now left.
      apply f_equal, rule_inferred_first. now apply Hfirst.
  - rewrite blockquote_run. do 2 f_equal.
    destruct indent as [[n|]|]; try reflexivity.
    simpl. destruct (Z.eqb_spec n 0) as [->|]; [congruence | reflexivity].
Qed.

Lemma consistency_inference_witness :
  run (remarkLintRuleStyle Example.rules_and_quotes Example.two_rules_file
         (Some "***"%string)) =
    (Normal tt,
     rule_reports (configured_style (Some "***"%string))
       (rule_observations Example.two_rules_file
          (visited false (is_type "thematicBreak")
             Example.rules_and_quotes))) /\
  run (remarkLintBlockquoteIndentation Example.rules_and_quotes
         (Some (IndentNumber 2))) =
    (Normal tt,
     indent_reports (configured_indent (Some (IndentNumber 2)))
       (indent_observations
          (visited false (is_type "blockquote") Example.rules_and_quotes))).
Proof.
  apply (consistency_inference Example.rules_and_quotes
           Example.two_rules_file (Some "***"%string)
           (Some (IndentNumber 2))).
  - intros o [= <-] _. split; [discriminate|].
    intros c Hin. simpl in Hin. unfold recognized_marker.
    destruct Hin as [<- | [<- | [<- | []]]]; auto.
  - discriminate.
  - discriminate.
Defined.

(** C1 as stated fails on blockquote-indentation configured with the
    number 0: the one block quote of the tree is indented by 2, which
    differs from 0, so the claim wants a diagnostic for it; the rule gives
    none. *)
Lemma consistency_inference_zero_indent_counterexample :
  indent_reports (configured_indent (Some (IndentNumber 0)))
    (indent_observations
       (visited false (is_type "blockquote")
          (Example.root [Example.quote 1 0 2]))) =
    [{| reason := "Remove 2 spaces between block quote and content";
        place := AtPoint {| line := 1; column := 3; offset := Some 2 |};
        fatal := false |}] /\
  run (remarkLintBlockquoteIndentation (Example.root [Example.quote 1 0 2])
         (Some (IndentNumber 0))) = (Normal tt, []).
Proof. split; vm_compute; reflexivity. Qed.

(** ** Duplicate-by-key rules *)

Lemma duplicate_definitions_visitor_step (v : Visit)
    (map : gmap string string) :
  duplicate_definitions_visitor v map =
  duplicate_step duplicate_definitions_reason
    (definition_occurrence (v_node v)) map.
Proof.
  unfold duplicate_definitions_visitor, definition_occurrence, duplicate_step.
  destruct (is_type "definition" (v_node v)
            || is_type "footnoteDefinition" (v_node v));
    [|reflexivity].
  destruct (position (Some (v_node v))); [|reflexivity].
  destruct (pointStart (Some (v_node v))); reflexivity.
Qed.

Lemma stringifyPosition_truthy (p : Point) :
  truthy (stringifyPosition p) = true.
Proof.
  unfold stringifyPosition, truthy.
  destruct (pretty (index_or_1 (line p))); reflexivity.
Qed.

Lemma latest_snoc (k : string) (seen : list Occurrence) (o : Occurrence) :
  latest k (seen ++ [o]) =
  if String.eqb (occ_key o) k then Some o else latest k seen.
Proof. unfold latest. now rewrite rev_unit. Qed.

Lemma map_after_snoc (seen : list Occurrence) (o : Occurrence) :
  map_after (seen ++ [o]) =
  <[occ_key o := stringifyPosition (occ_start o)]> (map_after seen).
Proof. unfold map_after. now rewrite fold_left_app. Qed.

Lemma map_after_lookup (seen : list Occurrence) (k : string) :
  map_after seen !! k =
  option_map (fun o => stringifyPosition (occ_start o)) (latest k seen).
Proof.
  induction seen as [|o seen IH] using rev_ind; [reflexivity|].
  rewrite map_after_snoc, latest_snoc.
  destruct (String.eqb_spec (occ_key o) k) as [<- | Hne].
  - now rewrite lookup_insert_eq.
  - now rewrite lookup_insert_ne.
Qed.

Lemma duplicate_step_emits (reason : string -> string)
    (occurrence : option Occurrence) (seen : list Occurrence) :
  emits (duplicate_step reason occurrence (map_after seen))
    (map_after (seen ++ option_list occurrence))
    (duplicate_reports reason seen (option_list occurrence)).
Proof.
  destruct occurrence as [o|]; cbn [duplicate_step].
  - change (option_list (Some o)) with [o]. rewrite map_after_snoc.
    cbn [duplicate_reports]. rewrite app_nil_r.
    rewrite map_after_lookup.
    apply emits_bind_ret with (a := tt).
    destruct (latest (occ_key o) seen) as [earlier|]; cbn [option_map].
    + rewrite stringifyPosition_truthy. apply emits_message.
    + apply emits_ret.
  - change (option_list None) with (@nil Occurrence).
    rewrite app_nil_r. apply emits_ret.
Qed.

Lemma duplicate_reports_app (reason : string -> string)
    (seen l1 l2 : list Occurrence) :
  duplicate_reports reason seen (l1 ++ l2) =
  duplicate_reports reason seen l1 ++ duplicate_reports reason (seen ++ l1) l2.
Proof.
  revert seen. induction l1 as [|o l1 IH]; intros seen.
  - now rewrite app_nil_r.
  - cbn [app duplicate_reports]. rewrite IH, <- !app_assoc. reflexivity.
Qed.

Lemma duplicate_each (reason : string -> string)
    (occurrence : Node -> option Occurrence)
    (visitor : Visit -> gmap string string -> Lint (gmap string string)) :
  (forall v m, visitor v m = duplicate_step reason (occurrence (v_node v)) m) ->
  forall (l : list Visit) (seen : list Occurrence),
    emits (each visitor l (map_after seen))
      (map_after (seen ++ omap (fun v => occurrence (v_node v)) l))
      (duplicate_reports reason seen
         (omap (fun v => occurrence (v_node v)) l)).
Proof.
  intros Hstep l. induction l as [|v l IH]; intros seen.
  - cbn. rewrite app_nil_r. apply emits_ret.
  - assert (Homap : omap (fun v => occurrence (v_node v)) (v :: l) =
                    option_list (occurrence (v_node v)) ++
                    omap (fun v => occurrence (v_node v)) l).
    { cbn [omap list_omap]. now destruct (occurrence (v_node v)). }
    rewrite Homap, duplicate_reports_app, app_assoc.
    eapply emits_each_cons; [|apply IH].
    rewrite Hstep. apply duplicate_step_emits.
Qed.

Lemma latest_most_recent (pre mid : list Occurrence) (a : Occurrence)
    (k : string) :
  occ_key a = k ->
  Forall (fun o => occ_key o <> k) mid ->
  latest k (pre ++ a :: mid) = Some a.
Proof.
  intros Ha. induction mid as [|o mid IH] using rev_ind; intros Hmid.
  - rewrite latest_snoc. apply String.eqb_eq in Ha. now rewrite Ha.
  - apply Forall_app in Hmid. destruct Hmid as [Hmid Ho].
    apply Forall_inv in Ho.
    rewrite app_comm_cons, app_assoc, latest_snoc.
    apply String.eqb_neq in Ho. rewrite Ho. now apply IH.
Qed.

Section DuplicateByKey.
Variable toString : Node -> string.
Variable toUpperCase : string -> string.

Lemma duplicate_headings_visitor_step (v : Visit)
    (map : gmap string string) :
  duplicate_headings_visitor toString toUpperCase v map =
  duplicate_step duplicate_headings_reason
    (heading_occurrence toString toUpperCase (v_node v)) map.
Proof.
  unfold duplicate_headings_visitor, heading_occurrence, duplicate_step.
  destruct (position (Some (v_node v))); [|reflexivity].
  destruct (pointStart (Some (v_node v))); reflexivity.
Qed.

Lemma duplicate_rule_run (rule : DuplicateRule) (tree : Node) :
  run (duplicate_rule toString toUpperCase rule tree) =
    (Normal tt,
     duplicate_reports (duplicate_reason rule) []
       (occurrences toString toUpperCase rule tree)).
Proof.
  apply emits_run. destruct rule; cbn [duplicate_rule occurrences].
  - unfold remarkLintNoDuplicateDefinitions.
    eapply emits_bind_ret.
    apply (duplicate_each duplicate_definitions_reason definition_occurrence
             duplicate_definitions_visitor
             duplicate_definitions_visitor_step
             (visited false any_node tree) []).
  - unfold remarkLintNoDuplicateHeadings.
    eapply emits_bind_ret.
    apply (duplicate_each duplicate_headings_reason
             (heading_occurrence toString toUpperCase)
             (duplicate_headings_visitor toString toUpperCase)
             duplicate_headings_visitor_step
             (visited false (is_type "heading") tree) []).
Qed.

(** C2, as amended.  For no-duplicate-definitions and
    no-duplicate-headings: when two positioned qualifying nodes [a] and
    [b] have the same key, [b] comes after [a], and no qualifying node in
    between has that key, then the visit of [b] produces exactly one
    diagnostic, at [b], and its text cites the stringified start of [a].
    The diagnostics before it are those of the nodes up to [b], the ones
    after it those of the nodes after [b]. *)
Theorem duplicate_by_key (rule : DuplicateRule) (tree : Node)
    (pre mid post : list Occurrence) (a b : Occurrence) :
  occurrences toString toUpperCase rule tree = pre ++ a :: mid ++ b :: post ->
  occ_key a = occ_key b ->
  Forall (fun o => occ_key o <> occ_key b) mid ->
  run (duplicate_rule toString toUpperCase rule tree) =
    (Normal tt,
     duplicate_reports (duplicate_reason rule) [] (pre ++ a :: mid) ++
     [{| reason :=
           duplicate_reason rule (stringifyPosition (occ_start a));
         place := occ_place b;
         fatal := false |}] ++
     duplicate_reports (duplicate_reason rule) (pre ++ a :: mid ++ [b])
       post).
Proof.
  intros Hocc Hkey Hmid. rewrite duplicate_rule_run, Hocc.
  replace (pre ++ a :: mid ++ b :: post)
    with ((pre ++ a :: mid) ++ [b] ++ post)
    by (rewrite <- app_assoc; reflexivity).
  rewrite !duplicate_reports_app. cbn [app duplicate_reports].
  rewrite (latest_most_recent pre mid a (occ_key b) Hkey Hmid).
  rewrite app_nil_r. cbn [app]. do 3 f_equal.
  now rewrite <- app_assoc.
Qed.

End DuplicateByKey.

Lemma duplicate_by_key_witness :
  let first := Example2.heading 1 1 "Foo" in
  let second := Example2.heading 2 3 "foo" in
  let occ n :=
    {| occ_key := "FOO";
       occ_start := {| line := n; column := 1; offset := Some 0 |};
       occ_place := AtNode (if n =? 1 then first else second) |} in
  run (duplicate_rule Example2.flat_text Example2.upper Headings
         (Example.root [first; second])) =
    (Normal tt,
     duplicate_reports (duplicate_reason Headings) [] ([] ++ occ 1 :: []) ++
     [{| reason := duplicate_reason Headings
                     (stringifyPosition (occ_start (occ 1)));
         place := occ_place (occ 3);
         fatal := false |}] ++
     duplicate_reports (duplicate_reason Headings)
       ([] ++ occ 1 :: [] ++ [occ 3]) []).
Proof.
  intros first second occ.
  apply (duplicate_by_key Example2.flat_text Example2.upper Headings
           (Example.root [first; second]) [] [] [] (occ 1) (occ 3)).
  - reflexivity.
  - reflexivity.
  - constructor.
Defined.

(** C2 as stated fails with three definitions of one identifier: for the
    pair of the first (1:1) and the third, the diagnostic at the third
    cites 3:1, the start of the second, and not the first occurrence. *)
Lemma duplicate_by_key_third_counterexample :
  stringifyPosition {| line := 1; column := 1; offset := Some 0 |} = "1:1" /\
  run (remarkLintNoDuplicateDefinitions
         (Example.root [Example2.definition 1 "foo";
                        Example2.definition 3 "foo";
                        Example2.definition 5 "foo"])) =
    (Normal tt,
     [{| reason := "Do not use definitions with the same identifier (1:1)";
         place :=
           AtPosition
             {| pos_start := {| line := 3; column := 1; offset := Some 0 |};
                pos_end := {| line := 3; column := 11; offset := Some 10 |} |};
         fatal := false |};
      {| reason := "Do not use definitions with the same identifier (3:1)";
         place :=
           AtPosition
             {| pos_start := {| line := 5; column := 1; offset := Some 0 |};
                pos_end := {| line := 5; column := 11; offset := Some 10 |} |};
         fatal := false |}]).
Proof. split; vm_compute; reflexivity. Qed.

(** ** no-duplicate-headings-in-section *)

Lemma each_app {S A} (visitor : A -> S -> Lint S) (l1 l2 : list A) (s : S)
    (ms : list VFileMessage) :
  each visitor (l1 ++ l2) s ms =
  lint_bind (each visitor l1 s) (each visitor l2) ms.
Proof.
  revert s ms. induction l1 as [|x l1 IH]; intros s ms; [reflexivity|].
  cbn [app each]. unfold lint_bind.
  destruct (visitor x s ms) as [[s'|e] ms']; [|reflexivity].
  rewrite IH. reflexivity.
Qed.

Lemma array_get_take {A} (l : list (option A)) (n i : nat) :
  array_get (take n l) i = if (i <? n)%nat then array_get l i else None.
Proof.
  unfold array_get. destruct (Nat.ltb_spec i n) as [Hlt | Hge].
  - now rewrite lookup_take_lt.
  - now rewrite lookup_take_ge.
Qed.

Lemma array_get_set {A} (l : list (option A)) (i j : nat) (x : A) :
  array_get (array_set l i x) j =
  if (j =? i)%nat then Some x else array_get l j.
Proof.
  unfold array_get, array_set.
  destruct (Nat.ltb_spec i (length l)) as [Hin | Hout];
    destruct (Nat.eqb_spec j i) as [-> | Hne].
  - now rewrite list_lookup_insert_eq.
  - now rewrite list_lookup_insert_ne by congruence.
  - rewrite lookup_app_r by exact Hout.
    rewrite lookup_app_r by (rewrite length_replicate; lia).
    rewrite length_replicate.
    now replace (i - length l - (i - length l))%nat with 0%nat by lia.
  - destruct (Nat.lt_ge_cases j (length l)) as [Hj | Hj].
    + now rewrite lookup_app_l.
    + rewrite lookup_app_r by exact Hj.
      rewrite (lookup_ge_None_2 l j) by exact Hj.
      destruct (Nat.lt_ge_cases (j - length l) (i - length l)) as [Hr | Hr].
      * rewrite lookup_app_l by (rewrite length_replicate; exact Hr).
        rewrite lookup_replicate_2 by exact Hr. reflexivity.
      * rewrite lookup_app_r by (rewrite length_replicate; exact Hr).
        rewrite length_replicate.
        destruct (j - length l - (i - length l))%nat as [|n] eqn:E; [lia|].
        reflexivity.
Qed.

Section InSection.
Variable toString : Node -> string.
Variable toUpperCase : string -> string.

Local Abbreviation key_of := (heading_key toString toUpperCase).
Local Abbreviation next_of := (in_section_next toString toUpperCase).
Local Abbreviation out_of := (in_section_out toString toUpperCase).
Local Abbreviation stack_of := (in_section_stack toString toUpperCase).
Local Abbreviation reports_of := (in_section_reports toString toUpperCase).

Lemma in_section_visitor_emits (v : Visit)
    (stack : list (option (gmap string Node))) :
  emits (in_section_visitor toString toUpperCase v stack)
    (next_of (v_node v) stack) (out_of (v_node v) stack).
Proof.
  unfold in_section_visitor, in_section_next, in_section_out.
  cbv zeta. fold (heading_depth (v_node v)). fold (key_of (v_node v)).
  fold (scope_at stack (heading_depth (v_node v))).
  apply emits_bind_ret with (a := tt).
  destruct (scope_at stack (heading_depth (v_node v))
            !! key_of (v_node v)) as [d|].
  - destruct (V4.generated (v_node v)); cbn [negb when].
    + apply emits_ret.
    + apply emits_message.
  - apply emits_ret.
Qed.

Lemma in_section_each_emits (l : list Visit)
    (stack : list (option (gmap string Node))) :
  emits (each (in_section_visitor toString toUpperCase) l stack)
    (stack_of (map v_node l) stack)
    (reports_of (map v_node l) stack).
Proof.
  revert stack. induction l as [|v l IH]; intros stack.
  - apply emits_ret.
  - cbn [map in_section_stack in_section_reports].
    eapply emits_each_cons; [apply in_section_visitor_emits | apply IH].
Qed.

Lemma in_section_stack_snoc l node stack :
  stack_of (l ++ [node]) stack =
  next_of node (stack_of l stack).
Proof. revert stack. induction l as [|x l IH]; intros; cbn; auto. Qed.

Lemma in_section_reports_snoc l node stack :
  reports_of (l ++ [node]) stack =
  reports_of l stack ++
  out_of node (stack_of l stack).
Proof.
  revert stack. induction l as [|x l IH]; intros stack; cbn.
  - now rewrite app_nil_r.
  - now rewrite IH, app_assoc.
Qed.

Lemma in_section_run (tree : Node) :
  run (noDuplicateHeadingsInSection toString toUpperCase tree) =
    (Normal tt, reports_of (headings tree) []).
Proof.
  apply emits_run. unfold noDuplicateHeadingsInSection.
  eapply emits_bind_ret. apply in_section_each_emits.
Qed.

Lemma heading_depth_pos (node : Node) : (0 < heading_depth node)%nat.
Proof. unfold heading_depth. lia. Qed.

(** After a heading of depth [d]: no scope deeper than [d] is left, the
    scopes above [d] are as before, the scope of [d] has this heading
    under its key. *)
Lemma in_section_next_deeper node stack i :
  (heading_depth node <= i)%nat ->
  array_get (next_of node stack) i = None.
Proof.
  intros Hi. unfold in_section_next. rewrite array_get_take.
  destruct (Nat.ltb_spec i (heading_depth node)); [lia | reflexivity].
Qed.

Lemma in_section_next_shallower node stack i :
  (i < heading_depth node - 1)%nat ->
  array_get (next_of node stack) i = array_get stack i.
Proof.
  intros Hi. unfold in_section_next. rewrite array_get_take, array_get_set.
  destruct (Nat.ltb_spec i (heading_depth node)); [|lia].
  destruct (Nat.eqb_spec i (heading_depth node - 1)); [lia | reflexivity].
Qed.

Lemma in_section_next_same node stack :
  array_get (next_of node stack) (heading_depth node - 1) =
  Some (<[key_of node := node]> (scope_at stack (heading_depth node))).
Proof.
  pose proof (heading_depth_pos node).
  unfold in_section_next. rewrite array_get_take, array_get_set.
  destruct (Nat.ltb_spec (heading_depth node - 1) (heading_depth node));
    [|lia].
  now rewrite Nat.eqb_refl.
Qed.

Lemma in_section_out_deeper v w stack :
  (heading_depth v < heading_depth w)%nat ->
  out_of w (next_of v stack) = [].
Proof.
  intros Hd. unfold in_section_out, scope_at.
  rewrite in_section_next_deeper by lia. reflexivity.
Qed.

Lemma in_section_out_repeat v w stack :
  heading_depth w = heading_depth v ->
  key_of w = key_of v ->
  V4.generated w = false ->
  out_of w (next_of v stack) = [in_section_report w v].
Proof.
  intros Hd Hk Hg. unfold in_section_out, scope_at.
  rewrite Hd, Hk, in_section_next_same, lookup_insert_eq, Hg. reflexivity.
Qed.

(** The scope object of a depth holds, under each text, the most recent
    heading of that depth and text met since the last shallower heading. *)
Lemma in_section_scope (l : list Node) (depth : nat) (k : string) :
  (0 < depth)%nat ->
  scope_at (stack_of l []) depth !! k =
  List.find (fun e => String.eqb (key_of e) k) (section_scope depth (rev l)).
Proof.
  intros Hdepth. induction l as [|node l IH] using rev_ind; [reflexivity|].
  rewrite in_section_stack_snoc, rev_unit. cbn [section_scope].
  unfold scope_at in *.
  destruct (Nat.ltb_spec (heading_depth node) depth) as [Hlt | Hge].
  - rewrite in_section_next_deeper by lia. reflexivity.
  - destruct (Nat.eqb_spec (heading_depth node) depth) as [Heq | Hne].
    + rewrite <- Heq, in_section_next_same. cbn [List.find].
      destruct (String.eqb_spec (key_of node) k) as [<- | Hk].
      * now rewrite lookup_insert_eq.
      * rewrite lookup_insert_ne by exact Hk.
        unfold scope_at. rewrite Heq. exact IH.
    + rewrite in_section_next_shallower by lia. exact IH.
Qed.

Lemma in_section_reports_spec (seen todo : list Node) :
  reports_of todo (stack_of seen []) =
  section_reports toString toUpperCase (rev seen) todo.
Proof.
  revert seen. induction todo as [|node todo IH]; intros seen; [reflexivity|].
  cbn [in_section_reports section_reports]. f_equal.
  - unfold in_section_out.
    now rewrite in_section_scope by apply heading_depth_pos.
  - rewrite <- in_section_stack_snoc, IH, rev_unit. reflexivity.
Qed.

(** C3: in no-duplicate-headings-in-section the scopes are kept per depth,
    and meeting a heading of depth [d] (the boundary of every section of a
    depth greater than or equal to [d]) clears the scopes of every depth
    greater than [d]: the scopes of the depths less than [d] are left as
    they are, and the heading is added to the scope of [d].  So a heading
    that follows a shallower one gets no diagnostic (a depth-3 heading
    right under a new depth-2 section, whatever the sections before held),
    and a heading that follows one of its own depth and text gets exactly
    one, citing that heading.  In general a heading is compared with the
    headings of its own depth met since the last shallower heading
    ([section_reports]). *)
Theorem duplicate_headings_in_section :
  (forall tree : Node,
     run (noDuplicateHeadingsInSection toString toUpperCase tree) =
       (Normal tt,
        section_reports toString toUpperCase [] (headings tree))) /\
  (forall (v : Visit) (stack : list (option (gmap string Node))),
     exists stack' out,
       emits (in_section_visitor toString toUpperCase v stack) stack' out /\
       (forall i, (heading_depth (v_node v) <= i)%nat ->
                  array_get stack' i = None) /\
       (forall i, (i < heading_depth (v_node v) - 1)%nat ->
                  array_get stack' i = array_get stack i) /\
       array_get stack' (heading_depth (v_node v) - 1)%nat =
         Some (<[key_of (v_node v) := v_node v]>
                 (scope_at stack (heading_depth (v_node v))))) /\
  (forall (tree tree' : Node) (v w : Node),
     headings tree' = headings tree ++ [w] ->
     last (headings tree) = Some v ->
     (heading_depth v < heading_depth w)%nat ->
     run (noDuplicateHeadingsInSection toString toUpperCase tree') =
     run (noDuplicateHeadingsInSection toString toUpperCase tree)) /\
  (forall (tree tree' : Node) (v w : Node),
     headings tree' = headings tree ++ [w] ->
     last (headings tree) = Some v ->
     heading_depth w = heading_depth v ->
     key_of w = key_of v ->
     V4.generated w = false ->
     run (noDuplicateHeadingsInSection toString toUpperCase tree') =
       (Normal tt,
        diagnostics (noDuplicateHeadingsInSection toString toUpperCase tree)
        ++ [in_section_report w v])).
Proof.
  split; [|split; [|split]].
  - intros tree. rewrite in_section_run.
    exact (f_equal _ (in_section_reports_spec [] (headings tree))).
  - intros v stack.
    exists (next_of (v_node v) stack),
           (out_of (v_node v) stack).
    split; [apply in_section_visitor_emits|].
    split; [intros i; apply in_section_next_deeper|].
    split; [intros i; apply in_section_next_shallower|].
    apply in_section_next_same.
  - intros tree tree' v w Hext Hlast Hdepth.
    rewrite !in_section_run, Hext, in_section_reports_snoc.
    apply last_Some in Hlast. destruct Hlast as [l0 ->].
    rewrite in_section_stack_snoc, in_section_out_deeper by exact Hdepth.
    now rewrite app_nil_r.
  - intros tree tree' v w Hext Hlast Hdepth Hkey Hgen.
    unfold diagnostics.
    rewrite !in_section_run, Hext, in_section_reports_snoc. cbn [snd].
    apply last_Some in Hlast. destruct Hlast as [l0 ->].
    rewrite in_section_stack_snoc.
    now rewrite in_section_out_repeat.
Qed.

End InSection.

Lemma duplicate_headings_in_section_witness :
  run (noDuplicateHeadingsInSection Example2.flat_text Example2.upper
         (Example.root [Example2.heading 2 1 "Alpha";
                        Example2.heading 3 3 "Bravo";
                        Example2.heading 2 5 "Charlie";
                        Example2.heading 3 7 "Bravo"])) = (Normal tt, []) /\
  run (noDuplicateHeadingsInSection Example2.flat_text Example2.upper
         (Example.root [Example2.heading 2 1 "Foxtrot";
                        Example2.heading 3 3 "Golf";
                        Example2.heading 3 5 "Golf"])) =
    (Normal tt,
     [{| reason :=
           "Do not use headings with similar content per section (3:1)";
         place := AtNode (Example2.heading 3 5 "Golf");
         fatal := false |}]).
Proof.
  destruct (duplicate_headings_in_section Example2.flat_text Example2.upper)
    as (_ & _ & Hdeeper & Hrepeat).
  split.
  - rewrite (Hdeeper
               (Example.root [Example2.heading 2 1 "Alpha";
                              Example2.heading 3 3 "Bravo";
                              Example2.heading 2 5 "Charlie"])
               (Example.root [Example2.heading 2 1 "Alpha";
                              Example2.heading 3 3 "Bravo";
                              Example2.heading 2 5 "Charlie";
                              Example2.heading 3 7 "Bravo"])
               (Example2.heading 2 5 "Charlie")
               (Example2.heading 3 7 "Bravo")
               eq_refl eq_refl).
    + reflexivity.
    + vm_compute. lia.
  - rewrite (Hrepeat
               (Example.root [Example2.heading 2 1 "Foxtrot";
                              Example2.heading 3 3 "Golf"])
               (Example.root [Example2.heading 2 1 "Foxtrot";
                              Example2.heading 3 3 "Golf";
                              Example2.heading 3 5 "Golf"])
               (Example2.heading 3 3 "Golf")
               (Example2.heading 3 5 "Golf")
               eq_refl eq_refl eq_refl eq_refl eq_refl).
    reflexivity.
Defined.

(** ** no-missing-blank-lines *)

Lemma missing_blank_lines_visitor_emits (except : bool) (v : Visit) :
  emits (missing_blank_lines_visitor except v tt) tt
    (blank_line_check except v).
Proof.
  unfold missing_blank_lines_visitor, blank_line_check.
  destruct (v_parent v) as [parent|]; [|apply emits_ret].
  destruct (v_index v) as [index|]; [|apply emits_ret].
  destruct (pointEnd (Some (v_node v))) as [end_|]; [|apply emits_ret].
  destruct (negb except || negb (String.eqb (node_type parent) "listItem"));
    [|apply emits_ret].
  destruct (node_children parent !! (index + 1)%nat) as [next|];
    [|apply emits_ret].
  cbn [pointStart].
  destruct (match node_position next with
            | Some pos => resolve_point (pos_start pos)
            | None => None
            end) as [nextPoint|]; [|apply emits_ret].
  destruct (bool_decide (node_type next ∈ types) &&
            (line nextPoint =? line end_ + 1)); cbn [when].
  - apply emits_message.
  - apply emits_ret.
Qed.

Lemma missing_blank_lines_each (except : bool) (l : list Visit) :
  emits (each (missing_blank_lines_visitor except) l tt) tt
    (flat_map (blank_line_check except) l).
Proof.
  induction l as [|v l IH]; [apply emits_ret|].
  cbn [flat_map]. eapply emits_each_cons; [|exact IH].
  apply missing_blank_lines_visitor_emits.
Qed.

Lemma missing_blank_lines_run (tree : Node)
    (options : option BlankLinesOptions) :
  run (remarkLintNoMissingBlankLines tree options) =
    (Normal tt,
     flat_map (blank_line_check (except_tight_lists options))
       (visited false any_node tree)).
Proof.
  apply emits_run. unfold remarkLintNoMissingBlankLines.
  apply missing_blank_lines_each.
Qed.

Lemma walk_unfold (reverse : bool) (index : option nat) (parent : option Node)
    (node : Node) :
  walk reverse index parent node =
  {| v_node := node; v_index := index; v_parent := parent |} ::
  walk_children reverse node 0 (node_children node).
Proof.
  destruct node as [t p kids val id d]. cbn [walk node_children]. f_equal.
  generalize (mkNode t p kids val id d) as node. intros node.
  generalize 0%nat.
  induction kids as [|c kids IH]; intros i; [reflexivity|].
  cbn [walk_children]. rewrite <- IH. reflexivity.
Qed.

Lemma node_induction (P : Node -> Prop) :
  (forall node, Forall P (node_children node) -> P node) ->
  forall node, P node.
Proof.
  intros H. fix IH 1. intros [t p kids val id d]. apply H. cbn.
  induction kids as [|c kids IHk]; constructor; [apply IH | exact IHk].
Qed.

Lemma walk_children_in (node : Node) (cs : list Node) (i : nat) (x : Visit) :
  In x (walk_children false node i cs) <->
  exists j c, cs !! j = Some c /\
              In x (walk false (Some (i + j)%nat) (Some node) c).
Proof.
  revert i. induction cs as [|c cs IH]; intros i.
  - split; [intros [] | intros (j & c & Hj & _); discriminate].
  - cbn [walk_children]. rewrite in_app_iff, IH. split.
    + intros [Hx | (j & c' & Hj & Hx)].
      * exists 0%nat, c. rewrite Nat.add_0_r. auto.
      * exists (S j), c'. rewrite Nat.add_succ_r. auto.
    + intros (j & c' & Hj & Hx). destruct j as [|j].
      * left. cbn in Hj. injection Hj as <-. now rewrite Nat.add_0_r in Hx.
      * right. exists j, c'. rewrite Nat.add_succ_r in Hx. auto.
Qed.

(** Every visit of a walk is the one of its root, or has a parent that the
    walk visits too, and the index at which that parent holds the node. *)
Lemma walk_parent (node : Node) :
  forall (index : option nat) (parent : option Node) (v : Visit),
    In v (walk false index parent node) ->
    v = {| v_node := node; v_index := index; v_parent := parent |} \/
    exists p i,
      v_parent v = Some p /\ v_index v = Some i /\
      node_children p !! i = Some (v_node v) /\
      In p (map v_node (walk false index parent node)).
Proof.
  induction node as [node IH] using node_induction.
  intros index parent v. rewrite walk_unfold. intros [<- | Hv]; [now left|].
  right. apply walk_children_in in Hv. destruct Hv as (j & c & Hj & Hv).
  rewrite Forall_forall in IH.
  assert (Hc : c ∈ node_children node).
  { eapply list_elem_of_lookup_2. exact Hj. }
  destruct (IH c Hc _ _ _ Hv) as [-> | (p & i & Hp & Hi & Hchild & Hin)].
  - exists node, j. cbn. repeat split; try assumption. now left.
  - exists p, i. repeat split; try assumption.
    cbn [map]. right.
    apply in_map_iff in Hin. destruct Hin as (x & Hx & Hin).
    apply in_map_iff. exists x. split; [exact Hx|].
    apply walk_children_in. now exists j, c.
Qed.

(** A walk visits the children of every node it visits, each with its
    index and that node as its parent. *)
Lemma walk_child (node : Node) :
  forall (index : option nat) (parent : option Node) (p c : Node) (k : nat),
    In p (map v_node (walk false index parent node)) ->
    node_children p !! k = Some c ->
    In {| v_node := c; v_index := Some k; v_parent := Some p |}
       (walk false index parent node).
Proof.
  induction node as [node IH] using node_induction.
  intros index parent p c k. rewrite walk_unfold. cbn [map].
  intros [<- | Hp] Hk; right; apply walk_children_in.
  - exists k, c. split; [exact Hk|]. rewrite walk_unfold. now left.
  - apply in_map_iff in Hp. destruct Hp as (x & Hx & Hp).
    apply walk_children_in in Hp. destruct Hp as (j & c' & Hj & Hp).
    exists j, c'. split; [exact Hj|].
    rewrite Forall_forall in IH.
    apply IH; [|apply in_map_iff; now exists x|exact Hk].
    eapply list_elem_of_lookup_2. exact Hj.
Qed.

Lemma visited_any_node (tree : Node) :
  visited false any_node tree = walk false None None tree.
Proof.
  unfold visited, any_node.
  induction (walk false None None tree) as [|v l IH]; [reflexivity|].
  cbn [List.filter]. now rewrite IH.
Qed.

(** The children of the nodes of a tree are visited, each with its index
    and its parent. *)
Lemma nodes_of_child (tree parent child : Node) (i : nat) :
  In parent (nodes_of tree) ->
  node_children parent !! i = Some child ->
  In {| v_node := child; v_index := Some i; v_parent := Some parent |}
     (visited false any_node tree).
Proof.
  intros Hp Hi. rewrite visited_any_node. now apply walk_child.
Qed.

Lemma position_points (node : Node) (pos : Position) :
  position (Some node) = Some pos ->
  pointStart (Some node) = Some (pos_start pos) /\
  pointEnd (Some node) = Some (pos_end pos).
Proof.
  unfold position.
  destruct (pointStart (Some node)) as [s|]; [|discriminate].
  destruct (pointEnd (Some node)) as [e|]; [|discriminate].
  intros [= <-]. split; reflexivity.
Qed.

(** What the rule reports over a whole tree: the diagnostics are exactly
    the ones at the second node of two adjacent children of a node of the
    tree, the first with a resolvable end, the second of a block type with
    a resolvable start on the line after that end, list items left out
    when [exceptTightLists] is set. *)
Lemma missing_blank_lines_diagnostics (tree : Node)
    (options : option BlankLinesOptions) (m : VFileMessage) :
  In m (diagnostics (remarkLintNoMissingBlankLines tree options)) <->
  exists parent i a b ea sb,
    In parent (nodes_of tree) /\
    node_children parent !! i = Some a /\
    node_children parent !! (i + 1)%nat = Some b /\
    pointEnd (Some a) = Some ea /\
    pointStart (Some b) = Some sb /\
    node_type b ∈ types /\
    line sb = line ea + 1 /\
    (except_tight_lists options = true -> node_type parent <> "listItem") /\
    m = missing_blank_line b.
Proof.
  unfold diagnostics. rewrite missing_blank_lines_run. cbn [snd].
  rewrite in_flat_map. split.
  - intros (v & Hv & Hm). rewrite visited_any_node in Hv.
    unfold blank_line_check in Hm.
    destruct (v_parent v) as [parent|] eqn:Hparent; [|destruct Hm].
    destruct (v_index v) as [index|] eqn:Hindex; [|destruct Hm].
    destruct (pointEnd (Some (v_node v))) as [ea|] eqn:Hea; [|destruct Hm].
    destruct (negb (except_tight_lists options) ||
              negb (String.eqb (node_type parent) "listItem")) eqn:Hli;
      [|destruct Hm].
    destruct (node_children parent !! (index + 1)%nat) as [b|] eqn:Hb;
      [|destruct Hm].
    destruct (pointStart (Some b)) as [sb|] eqn:Hsb; [|destruct Hm].
    destruct (bool_decide (node_type b ∈ types)) eqn:Hblock;
      [|destruct Hm].
    destruct (Z.eqb_spec (line sb) (line ea + 1)) as [Hline|];
      [|destruct Hm].
    destruct Hm as [<- | []].
    destruct (walk_parent tree None None v Hv)
      as [-> | (p & i & Hp & Hi & Hchild & Hin)]; [discriminate|].
    rewrite Hparent in Hp. injection Hp as <-.
    rewrite Hindex in Hi. injection Hi as <-.
    exists parent, index, (v_node v), b, ea, sb.
    repeat split; try assumption.
    + exact (bool_decide_eq_true_1 _ Hblock).
    + intros Hex Htype. rewrite Hex, Htype in Hli. discriminate.
  - intros (parent & i & a & b & ea & sb & Hp & Ha & Hb & Hea & Hsb & Hblock
            & Hline & Hli & ->).
    exists {| v_node := a; v_index := Some i; v_parent := Some parent |}.
    split; [now apply nodes_of_child|].
    unfold blank_line_check. cbn [v_parent v_index v_node].
    rewrite Hea, Hb, Hsb, (bool_decide_eq_true_2 _ Hblock).
    rewrite (proj2 (Z.eqb_eq _ _) Hline).
    assert (Hor : negb (except_tight_lists options) ||
                  negb (String.eqb (node_type parent) "listItem") = true).
    { destruct (except_tight_lists options); [|reflexivity].
      cbn [negb orb]. apply negb_true_iff, String.eqb_neq, Hli. reflexivity. }
    rewrite Hor. now left.
Qed.

(** C6: no-missing-blank-lines.  [a] and [b] are adjacent children of a
    node [parent] of the tree, both positioned, [b] of a block type.  The
    rule completes, visits [a] at some point of its traversal, and its
    diagnostics are those of the visits before, then [out], then those of
    the visits after, where [out] is what the visit of [a] adds.  With the
    default configuration [out] is the one diagnostic at [b] exactly when
    [b] starts on the line after the one [a] ends on, and nothing
    otherwise, so nothing for a gap of 2 or more lines; with
    [exceptTightLists] and a [listItem] parent [out] is nothing.  Over the
    whole run a diagnostic is given exactly for the second of two adjacent
    children of a node of the tree, the first with a resolvable end, the
    second of a block type with a resolvable start on the very next line,
    the children of list items left out under [exceptTightLists]: no
    diagnostic of the run comes from a pair that is further apart. *)
Theorem missing_blank_lines_adjacent
    (tree : Node) (options : option BlankLinesOptions)
    (parent a b : Node) (i : nat) (pa pb : Position) :
  In parent (nodes_of tree) ->
  node_children parent !! i = Some a ->
  node_children parent !! (i + 1)%nat = Some b ->
  position (Some a) = Some pa ->
  position (Some b) = Some pb ->
  node_type b ∈ types ->
  exists v before out after,
    v = {| v_node := a; v_index := Some i; v_parent := Some parent |} /\
    visited false any_node tree = before ++ v :: after /\
    run (remarkLintNoMissingBlankLines tree options) =
      (Normal tt,
       flat_map (blank_line_check (except_tight_lists options)) before ++
       out ++
       flat_map (blank_line_check (except_tight_lists options)) after) /\
    emits (missing_blank_lines_visitor (except_tight_lists options) v tt)
      tt out /\
    (except_tight_lists options = false ->
       (out = [missing_blank_line b] <->
        line (pos_start pb) = line (pos_end pa) + 1) /\
       (line (pos_start pb) <> line (pos_end pa) + 1 -> out = []) /\
       (line (pos_end pa) + 2 <= line (pos_start pb) -> out = []) /\
       (line (pos_start pb) = line (pos_end pa) + 1 ->
        In (missing_blank_line b)
           (diagnostics (remarkLintNoMissingBlankLines tree options)))) /\
    (except_tight_lists options = true -> node_type parent = "listItem" ->
       out = []) /\
    (forall m,
       In m (diagnostics (remarkLintNoMissingBlankLines tree options)) <->
       exists parent' i' a' b' ea sb,
         In parent' (nodes_of tree) /\
         node_children parent' !! i' = Some a' /\
         node_children parent' !! (i' + 1)%nat = Some b' /\
         pointEnd (Some a') = Some ea /\
         pointStart (Some b') = Some sb /\
         node_type b' ∈ types /\
         line sb = line ea + 1 /\
         (except_tight_lists options = true ->
          node_type parent' <> "listItem") /\
         m = missing_blank_line b').
Proof.
  intros Hparent Hchild Hnext Ha Hb Hblock.
  set (v := {| v_node := a; v_index := Some i; v_parent := Some parent |}).
  assert (Hin : In v (visited false any_node tree)).
  { now apply nodes_of_child. }
  destruct (in_split _ _ Hin) as (l1 & l2 & Hsplit).
  exists v, l1, (blank_line_check (except_tight_lists options) v), l2.
  split; [reflexivity|]. split; [exact Hsplit|].
  split.
  { rewrite missing_blank_lines_run, Hsplit, flat_map_app. reflexivity. }
  split; [apply missing_blank_lines_visitor_emits|].
  destruct (position_points a pa Ha) as [_ Hea].
  destruct (position_points b pb Hb) as [Hsb _].
  assert (Hcheck : forall except,
    blank_line_check except v =
    if negb except || negb (String.eqb (node_type parent) "listItem") then
      if line (pos_start pb) =? line (pos_end pa) + 1
      then [missing_blank_line b] else []
    else []).
  { intros except. unfold blank_line_check. subst v.
    cbn [v_parent v_index v_node].
    rewrite Hea, Hnext, Hsb.
    rewrite (bool_decide_eq_true_2 _ Hblock). reflexivity. }
  split; [|split].
  - intros Hdefault. rewrite Hdefault, Hcheck. cbn [negb orb].
    assert (Hreported : line (pos_start pb) = line (pos_end pa) + 1 ->
      In (missing_blank_line b)
         (diagnostics (remarkLintNoMissingBlankLines tree options))).
    { intros Hline. apply missing_blank_lines_diagnostics.
      exists parent, i, a, b, (pos_end pa), (pos_start pb).
      repeat split; try assumption.
      rewrite Hdefault. discriminate. }
    destruct (Z.eqb_spec (line (pos_start pb)) (line (pos_end pa) + 1))
      as [Heq | Hne].
    + split; [tauto|]. split; [tauto|]. split; [lia | exact Hreported].
    + split; [split; [discriminate | tauto]|].
      split; [reflexivity|]. split; [reflexivity | exact Hreported].
  - intros -> Hli. rewrite Hcheck, Hli. reflexivity.
  - intros m. apply missing_blank_lines_diagnostics.
Qed.

Lemma missing_blank_lines_adjacent_witness :
  let a := Example.leaf "heading" (Example.span 1 1 0 1 6 5) in
  let b := Example.leaf "heading" (Example.span 2 1 6 2 7 12) in
  let c := Example.leaf "paragraph" (Example.span 4 1 14 4 6 19) in
  let tree := Example.root [a; b; c] in
  run (remarkLintNoMissingBlankLines tree None) =
    (Normal tt, [missing_blank_line b]) /\
  exists v before out after,
    v = {| v_node := a; v_index := Some 0%nat; v_parent := Some tree |} /\
    visited false any_node tree = before ++ v :: after /\
    run (remarkLintNoMissingBlankLines tree None) =
      (Normal tt,
       flat_map (blank_line_check (except_tight_lists None)) before ++
       out ++
       flat_map (blank_line_check (except_tight_lists None)) after) /\
    emits (missing_blank_lines_visitor (except_tight_lists None) v tt)
      tt out /\
    (except_tight_lists None = false ->
       (out = [missing_blank_line b] <-> 2 = 1 + 1) /\
       (2 <> 1 + 1 -> out = []) /\
       (1 + 2 <= 2 -> out = []) /\
       (2 = 1 + 1 ->
        In (missing_blank_line b)
           (diagnostics (remarkLintNoMissingBlankLines tree None)))) /\
    (except_tight_lists None = true -> node_type tree = "listItem" ->
       out = []) /\
    (forall m,
       In m (diagnostics (remarkLintNoMissingBlankLines tree None)) <->
       exists parent' i' a' b' ea sb,
         In parent' (nodes_of tree) /\
         node_children parent' !! i' = Some a' /\
         node_children parent' !! (i' + 1)%nat = Some b' /\
         pointEnd (Some a') = Some ea /\
         pointStart (Some b') = Some sb /\
         node_type b' ∈ types /\
         line sb = line ea + 1 /\
         (except_tight_lists None = true ->
          node_type parent' <> "listItem") /\
         m = missing_blank_line b').
Proof.
  intros a b c tree. split; [vm_compute; reflexivity|].
  apply (missing_blank_lines_adjacent tree None tree a b 0
           {| pos_start := {| line := 1; column := 1; offset := Some 0 |};
              pos_end := {| line := 1; column := 6; offset := Some 5 |} |}
           {| pos_start := {| line := 2; column := 1; offset := Some 6 |};
              pos_end := {| line := 2; column := 7; offset := Some 12 |} |}).
  - left. reflexivity.
  - reflexivity.
  - reflexivity.
  - reflexivity.
  - reflexivity.
  - apply (bool_decide_unpack _). vm_compute. exact I.
Defined.

(** ** final-definition *)

Lemma final_definition_visitor_step (v : Visit) (last : Z) :
  final_definition_visitor v last =
  match node_class (v_node v) with
  | Ignored => lint_ret last
  | DefinitionAt l =>
      when (negb (last =? 0) && (l <? last))
        (message (final_definition_reason last) (AtNode (v_node v))) ;;;
      lint_ret last
  | ContentAt l => if last =? 0 then lint_ret l else lint_ret last
  end.
Proof.
  unfold final_definition_visitor, node_class.
  destruct (pointStart (Some (v_node v))) as [start|]; [|reflexivity].
  destruct (is_type "root" (v_node v) || _); [reflexivity|].
  destruct (is_type "definition" (v_node v)); reflexivity.
Qed.

Lemma resolve_point_line (p s : Point) :
  resolve_point p = Some s -> 0 < line s.
Proof.
  unfold resolve_point.
  destruct (Z.ltb_spec 0 (line p)); [|discriminate].
  destruct (0 <? column p); [|discriminate].
  intros [= <-]. assumption.
Qed.

Lemma content_line_positive (node : Node) (l : Z) :
  content_line node = Some l -> 0 < l.
Proof.
  unfold content_line, node_class.
  destruct (pointStart (Some node)) as [start|] eqn:Hs; [|discriminate].
  assert (Hline : 0 < line start).
  { cbn in Hs. destruct (node_position node) as [pos|]; [|discriminate].
    exact (resolve_point_line _ _ Hs). }
  destruct (is_type "root" node || _); [discriminate|].
  destruct (is_type "definition" node); [discriminate|].
  intros [= <-]. exact Hline.
Qed.

(** Before any content node was met, nothing is reported. *)
Lemma final_definition_each_before (l : list Visit) :
  Forall (fun v => content_line (v_node v) = None) l ->
  emits (each final_definition_visitor l 0) 0 [].
Proof.
  induction 1 as [|v l Hv _ IH]; [apply emits_ret|].
  apply emits_each_cons with (s' := 0) (o1 := []); [|exact IH].
  rewrite final_definition_visitor_step. unfold content_line in Hv.
  destruct (node_class (v_node v)); [apply emits_ret | | discriminate].
  cbn. apply emits_bind_ret with (a := tt). apply emits_ret.
Qed.

(** Once a line is remembered it stays, and the definitions before it are
    reported. *)
Lemma final_definition_each_after (l : list Visit) (remembered : Z) :
  0 < remembered ->
  emits (each final_definition_visitor l remembered) remembered
    (map (final_definition_report remembered)
       (List.filter (definition_before remembered) l)).
Proof.
  intros Hpos.
  assert (Hnz : (remembered =? 0) = false) by (apply Z.eqb_neq; lia).
  induction l as [|v l IH]; [apply emits_ret|].
  cbn [List.filter]. unfold definition_before at 1.
  destruct (node_class (v_node v)) as [|d|c] eqn:Hclass.
  - apply emits_each_cons with (s' := remembered) (o1 := []); [|exact IH].
    rewrite final_definition_visitor_step, Hclass. apply emits_ret.
  - destruct (d <? remembered) eqn:Hd.
    + cbn [map].
      apply emits_each_cons with
        (s' := remembered) (o1 := [final_definition_report remembered v]);
        [|exact IH].
      rewrite final_definition_visitor_step, Hclass, Hnz, Hd.
      apply emits_bind_ret with (a := tt). apply emits_message.
    + apply emits_each_cons with (s' := remembered) (o1 := []); [|exact IH].
      rewrite final_definition_visitor_step, Hclass, Hnz, Hd.
      apply emits_bind_ret with (a := tt). apply emits_ret.
  - apply emits_each_cons with (s' := remembered) (o1 := []); [|exact IH].
    rewrite final_definition_visitor_step, Hclass, Hnz. apply emits_ret.
Qed.

(** C7: final-definition remembers the line of the first content node it
    sees ([c], with nothing but ignored nodes and definitions visited
    before it) and reports exactly the definitions visited from then on
    that start before that line, citing the line; when no definition
    visited before [c] starts before that line (positions follow the
    document, and the visit runs from the end of the document to its
    start), these are all the definitions of the tree that start before
    it. *)
Theorem final_definition_after_content
    (tree : Node) (pre post : list Visit) (c : Visit) (remembered : Z) :
  visited true any_node tree = pre ++ c :: post ->
  Forall (fun v => content_line (v_node v) = None) pre ->
  content_line (v_node c) = Some remembered ->
  run (remarkLintFinalDefinition tree) =
    (Normal tt,
     map (final_definition_report remembered)
       (List.filter (definition_before remembered) post)) /\
  (Forall (fun v => definition_before remembered v = false) pre ->
   run (remarkLintFinalDefinition tree) =
     (Normal tt,
      map (final_definition_report remembered)
        (List.filter (definition_before remembered)
           (visited true any_node tree)))).
Proof.
  intros Hsplit Hpre Hc.
  pose proof (content_line_positive _ _ Hc) as Hpos.
  assert (Hrun : run (remarkLintFinalDefinition tree) =
    (Normal tt,
     map (final_definition_report remembered)
       (List.filter (definition_before remembered) post))).
  { apply emits_run. unfold remarkLintFinalDefinition, visit.
    fold (visited true any_node tree). rewrite Hsplit.
    apply emits_bind_ret with (a := remembered).
    intros ms. rewrite each_app.
    apply (emits_bind_silent _ _ 0 remembered _
             (final_definition_each_before pre Hpre)).
    apply emits_each_cons with (s' := remembered) (o1 := []).
    - rewrite final_definition_visitor_step. unfold content_line in Hc.
      destruct (node_class (v_node c)); try discriminate.
      injection Hc as ->. apply emits_ret.
    - now apply final_definition_each_after. }
  split; [exact Hrun|].
  intros Hnone. rewrite Hrun, Hsplit. do 2 f_equal.
  rewrite List.filter_app. cbn [List.filter].
  assert (Hc' : definition_before remembered c = false).
  { unfold definition_before. unfold content_line in Hc.
    now destruct (node_class (v_node c)). }
  rewrite Hc'.
  assert (Hfilter : List.filter (definition_before remembered) pre = []).
  { clear Hsplit Hpre. induction Hnone as [|v l Hv _ IH]; [reflexivity|].
    cbn [List.filter]. now rewrite Hv. }
  now rewrite Hfilter.
Qed.

Lemma final_definition_after_content_witness :
  let paragraph l := Example.leaf "paragraph" (Example.span l 1 0 l 11 10) in
  let tree :=
    Example.root [paragraph 1; Example2.definition 3 "example"; paragraph 5] in
  let c := {| v_node := paragraph 5; v_index := Some 2%nat;
              v_parent := Some tree |} in
  let post :=
    [{| v_node := Example2.definition 3 "example"; v_index := Some 1%nat;
        v_parent := Some tree |};
     {| v_node := paragraph 1; v_index := Some 0%nat;
        v_parent := Some tree |}] in
  run (remarkLintFinalDefinition tree) =
    (Normal tt,
     map (final_definition_report 5)
       (List.filter (definition_before 5) post)) /\
  (Forall (fun v => definition_before 5 v = false)
     [{| v_node := tree; v_index := None; v_parent := None |}] ->
   run (remarkLintFinalDefinition tree) =
     (Normal tt,
      map (final_definition_report 5)
        (List.filter (definition_before 5) (visited true any_node tree)))).
Proof.
  intros paragraph tree c post.
  apply (final_definition_after_content tree
           [{| v_node := tree; v_index := None; v_parent := None |}]
           post c 5).
  - reflexivity.
  - repeat constructor.
  - reflexivity.
Defined.

(** ** Generated nodes *)

(** rule-style reports only at nodes that have a position: the subject of
    each of its diagnostics is a thematic break with a start and an end. *)
Lemma rule_observations_positioned (value : string) (l : list Visit)
    (o : Node * string) :
  In o (rule_observations value l) -> position (Some (fst o)) <> None.
Proof.
  unfold rule_observations. rewrite <- list_elem_of_In, list_elem_of_omap.
  intros (v & _ & Hv). unfold rule_of in Hv.
  destruct (pointStart (Some (v_node v))) as [s|] eqn:Hs; [|discriminate].
  destruct (pointEnd (Some (v_node v))) as [e|] eqn:He; [|discriminate].
  destruct (offset s); [|discriminate]. destruct (offset e); [|discriminate].
  injection Hv as Hv. subst o. cbn [fst]. unfold position.
  rewrite Hs, He. discriminate.
Qed.

Lemma rule_inferred_subject (observed : list (Node * string))
    (m : VFileMessage) :
  In m (rule_inferred observed) ->
  exists o, In o observed /\ place m = AtNode (fst o).
Proof.
  induction observed as [|o later IH]; [intros []|].
  cbn [rule_inferred]. destruct (String.eqb (snd o) "consistent").
  - intros Hin. destruct (IH Hin) as (o' & Ho' & Hm).
    exists o'. split; [now right | exact Hm].
  - rewrite in_map_iff. intros (o' & <- & Ho').
    apply List.filter_In in Ho'. destruct Ho' as [Ho' _].
    exists o'. split; [now right | reflexivity].
Qed.

Lemma rule_style_run_invalid (tree : Node) (file option : string) :
  option <> "" -> option <> "consistent" -> has_non_marker option = true ->
  run (remarkLintRuleStyle tree file (Some option)) =
    (Throw rule_style_failure, [rule_style_failure]).
Proof.
  intros Hne Hnc Hbad. unfold remarkLintRuleStyle, run, lint_bind. cbv zeta.
  assert (Ht : truthy option = true).
  { unfold truthy. apply negb_true_iff. now apply String.eqb_neq. }
  apply String.eqb_neq in Hnc. rewrite Ht, Hnc, Hbad. reflexivity.
Qed.

(** Whatever the tree, the file and the option, a diagnostic of rule-style
    is placed at a node of the tree that has a position; a generated
    thematic break is passed over. *)
Lemma rule_style_reports_at_positioned (tree : Node) (file : string)
    (options : option string) (m : VFileMessage) :
  In m (diagnostics (remarkLintRuleStyle tree file options)) ->
  fatal m = false ->
  exists n,
    place m = AtNode n /\ position (Some n) <> None /\
    In n (map v_node (visited false (is_type "thematicBreak") tree)).
Proof.
  intros Hin Hfatal. unfold diagnostics in Hin.
  assert (Hobs : forall o,
    In o (rule_observations file
            (visited false (is_type "thematicBreak") tree)) ->
    position (Some (fst o)) <> None /\
    In (fst o) (map v_node (visited false (is_type "thematicBreak") tree))).
  { intros o Ho. split; [exact (rule_observations_positioned _ _ _ Ho)|].
    unfold rule_observations in Ho.
    rewrite <- list_elem_of_In, list_elem_of_omap in Ho.
    destruct Ho as (v & Hv & Hrule). unfold rule_of in Hrule.
    destruct (pointStart (Some (v_node v))); [|discriminate].
    destruct (pointEnd (Some (v_node v))) as [e|]; [|discriminate].
    destruct (offset p); [|discriminate]. destruct (offset e); [|discriminate].
    injection Hrule as <-. cbn [fst]. apply in_map.
    now apply list_elem_of_In. }
  assert (Hcases : infers_style options \/
    exists o, options = Some o /\ o <> "" /\ o <> "consistent").
  { destruct options as [o|]; [|left; now left].
    destruct (String.eqb_spec o "consistent") as [->|Hc];
      [left; right; now left|].
    destruct (String.eqb_spec o "") as [->|He];
      [left; right; now right|].
    right. now exists o. }
  destruct Hcases as [Hinfer | (o & -> & Hne & Hnc)].
  - rewrite rule_style_run_consistent in Hin by exact Hinfer.
    cbn [snd] in Hin. apply rule_inferred_subject in Hin.
    destruct Hin as (o & Ho & Hm). exists (fst o).
    split; [exact Hm | now apply Hobs].
  - destruct (has_non_marker o) eqn:Hbad.
    + rewrite rule_style_run_invalid in Hin by assumption.
      destruct Hin as [<- | []]. discriminate.
    + rewrite rule_style_run_concrete in Hin by assumption.
      cbn [snd] in Hin. apply in_map_iff in Hin.
      destruct Hin as (o' & <- & Ho'). apply List.filter_In in Ho'.
      exists (fst o'). split; [reflexivity | now apply Hobs].
Qed.

(** What no-heading-punctuation adds at one heading. *)
Lemma heading_punctuation_visitor_emits (toString : Node -> string)
    (expression : string -> bool) (v : Visit) :
  emits (heading_punctuation_visitor toString expression v tt) tt
    (heading_punctuation_check toString expression v).
Proof.
  unfold heading_punctuation_visitor, heading_punctuation_check. cbv zeta.
  destruct (position (Some (v_node v))) as [pos|]; [|apply emits_ret].
  destruct (expression _); [apply emits_message | apply emits_ret].
Qed.

(** The same for no-heading-punctuation: each diagnostic is placed at the
    position of a heading that has one. *)
Lemma heading_punctuation_reports_at_positioned
    (toString : Node -> string) (RegExp : string -> option (string -> bool))
    (tree : Node) (options : option string) (m : VFileMessage) :
  In m (diagnostics (remarkLintNoHeadingPunctuation toString RegExp tree
                       options)) ->
  exists n pos,
    place m = AtPosition pos /\ position (Some n) = Some pos /\
    In n (map v_node (visited false (is_type "heading") tree)).
Proof.
  unfold diagnostics, remarkLintNoHeadingPunctuation.
  destruct (RegExp (heading_punctuation_source options)) as [expression|];
    [|intros []].
  unfold visit. fold (visited false (is_type "heading") tree).
  generalize (visited false (is_type "heading") tree) as l.
  intros l.
  assert (He : emits
    (each (heading_punctuation_visitor toString expression) l tt) tt
    (flat_map (heading_punctuation_check toString expression) l)).
  { induction l as [|v l IH]; [apply emits_ret|].
    cbn [flat_map]. eapply emits_each_cons; [|exact IH].
    apply heading_punctuation_visitor_emits. }
  rewrite (emits_run _ _ _ He). cbn [snd]. rewrite in_flat_map.
  intros (v & Hv & Hm). unfold heading_punctuation_check in Hm.
  destruct (position (Some (v_node v))) as [pos|] eqn:Hpos; [|destruct Hm].
  destruct (expression _); [|destruct Hm]. destruct Hm as [<- | []].
  exists (v_node v), pos. cbn. split; [reflexivity|].
  split; [exact Hpos | now apply in_map].
Qed.

(** C5 fails in list-item-spacing: only the list itself is tested with
    [generated], its items are not.  On [generated_items] the rule reports
    at the gap between two generated items, with a place whose lines and
    columns are all [null]. *)
Theorem list_item_spacing_generated_items :
  Forall (fun item => V4.generated item = true)
    (flat_map node_children (node_children generated_items)) /\
  run (listItemSpacing generated_items None) =
    (Normal tt,
     [{| reason := "Missing new line after list item";
         place := AtRange
                    {| V4.line := None; V4.column := None; V4.offset := None |}
                    {| V4.line := None; V4.column := None; V4.offset := None |};
         fatal := false |}]).
Proof. split; [repeat constructor | vm_compute; reflexivity]. Qed.

(** ** Rules that report on one node at a time *)

Lemma each_stateless {A} (visitor : A -> unit -> Lint unit)
    (check : A -> list VFileMessage) (l : list A) :
  (forall x, In x l -> emits (visitor x tt) tt (check x)) ->
  emits (each visitor l tt) tt (flat_map check l).
Proof.
  induction l as [|x l IH]; intros H; [apply emits_ret|].
  cbn [flat_map]. eapply emits_each_cons; [apply H; now left|].
  apply IH. intros y Hy. apply H. now right.
Qed.

Lemma flat_map_filter_nodes (test : Node -> bool)
    (report : Node -> list VFileMessage) (l : list Visit) :
  (forall n, test n = false -> report n = []) ->
  flat_map (fun v => report (v_node v))
    (List.filter (fun v => test (v_node v)) l) =
  flat_map report (map v_node l).
Proof.
  intros Hskip. induction l as [|v l IH]; [reflexivity|].
  cbn [List.filter map flat_map].
  destruct (test (v_node v)) eqn:Htest.
  - cbn [flat_map]. now rewrite IH.
  - now rewrite (Hskip _ Htest), IH.
Qed.

(** A visitor that only looks at its node, and emits [report node] there,
    makes the rule report [report] of every node, in document order. *)
Lemma visit_nodes_emits (test : Node -> bool)
    (visitor : Visit -> unit -> Lint unit)
    (report : Node -> list VFileMessage) (tree : Node) :
  (forall v, In (v_node v) (nodes_of tree) -> test (v_node v) = true ->
             emits (visitor v tt) tt (report (v_node v))) ->
  (forall n, test n = false -> report n = []) ->
  emits (visit tree test visitor false tt) tt
    (flat_map report (nodes_of tree)).
Proof.
  intros Hemits Hskip. unfold visit, nodes_of.
  rewrite <- (flat_map_filter_nodes test report _ Hskip).
  apply each_stateless. intros v Hv.
  apply filter_In in Hv as [Hv Htest]. apply Hemits; [|exact Htest].
  unfold nodes_of. now apply in_map.
Qed.

Lemma visit_nodes (test : Node -> bool)
    (visitor : Visit -> unit -> Lint unit)
    (report : Node -> list VFileMessage) (tree : Node) :
  (forall v, In (v_node v) (nodes_of tree) -> test (v_node v) = true ->
             emits (visitor v tt) tt (report (v_node v))) ->
  (forall n, test n = false -> report n = []) ->
  run (visit tree test visitor false tt) =
    (Normal tt, flat_map report (nodes_of tree)).
Proof. intros Hemits Hskip. now apply emits_run, visit_nodes_emits. Qed.

Lemma nodes_of_children (tree parent child : Node) (i : nat) :
  In parent (nodes_of tree) ->
  node_children parent !! i = Some child ->
  In child (nodes_of tree).
Proof.
  intros Hp Hi. unfold nodes_of.
  apply (in_map v_node _ _ (walk_child tree None None parent child i Hp Hi)).
Qed.

Lemma in_omap {A B} (f : A -> option B) (l : list A) (y : B) :
  In y (omap f l) <-> exists x, In x l /\ f x = Some y.
Proof.
  rewrite <- list_elem_of_In, list_elem_of_omap.
  split; intros (x & Hx & Hf); exists x; split; try assumption;
    now apply list_elem_of_In.
Qed.

Lemma flat_map_positioned (p : Node -> bool)
    (msg : Node -> Position -> VFileMessage) (l : list Node) :
  flat_map (fun n =>
              match position (Some n) with
              | Some pos => if p n then [msg n pos] else []
              | None => []
              end) l =
  map (fun o => msg (fst o) (snd o))
    (omap (fun n => option_map (pair n) (position (Some n)))
       (List.filter p l)).
Proof.
  induction l as [|n l IH]; [reflexivity|].
  cbn [flat_map List.filter]. rewrite IH.
  destruct (p n); cbn [omap list_omap].
  - destruct (position (Some n)); reflexivity.
  - destruct (position (Some n)); reflexivity.
Qed.

Lemma in_positioned_where (p : Node -> bool) (tree : Node)
    (o : Node * Position) :
  In o (positioned_where p tree) <->
  In (fst o) (nodes_of tree) /\ p (fst o) = true /\
  position (Some (fst o)) = Some (snd o).
Proof.
  unfold positioned_where. rewrite in_omap. split.
  - intros (n & Hn & Hpos). apply filter_In in Hn as [Hn Hp].
    destruct (position (Some n)) as [pos|] eqn:E; [|discriminate].
    cbn in Hpos. injection Hpos as <-. cbn. auto.
  - intros (Hn & Hp & Hpos). exists (fst o). split.
    + apply filter_In. auto.
    + rewrite Hpos. now destruct o.
Qed.

Lemma flat_map_filter_map {A B} (p : A -> bool) (f : A -> B) (l : list A) :
  flat_map (fun x => if p x then [f x] else []) l = map f (List.filter p l).
Proof.
  induction l as [|x l IH]; [reflexivity|].
  cbn [flat_map List.filter]. rewrite IH. now destruct (p x).
Qed.

Lemma is_type_true (t : string) (n : Node) :
  is_type t n = true <-> node_type n = t.
Proof. unfold is_type. apply String.eqb_eq. Qed.

Lemma is_type_false (t : string) (n : Node) :
  is_type t n = false <-> node_type n <> t.
Proof. unfold is_type. apply String.eqb_neq. Qed.

Section ResourceRules.
Variable url : Node -> string.
Variable referenceType : Node -> string.
Variable toString : Node -> string.
Variable toLowerCase : string -> string.

(** *** no-shortcut-reference-link *)

(** X1: no-shortcut-reference-link never throws and reports exactly the
    link references of type [shortcut] that have a resolvable position,
    once each, in document order, at that position; collapsed and full
    references and generated nodes get nothing. *)
Theorem shortcut_references_reported (tree : Node) :
  run (remarkLintNoShortcutReferenceLink referenceType tree) =
    (Normal tt,
     map (fun o => warning shortcut_reason (AtPosition (snd o)))
       (positioned_where
          (fun n => is_type "linkReference" n &&
                    String.eqb (referenceType n) "shortcut") tree)) /\
  forall m,
    In m (diagnostics (remarkLintNoShortcutReferenceLink referenceType tree))
    <->
    exists n pos,
      In n (nodes_of tree) /\ node_type n = "linkReference" /\
      referenceType n = "shortcut" /\ position (Some n) = Some pos /\
      m = warning shortcut_reason (AtPosition pos).
Proof.
  assert (Hrun :
    run (remarkLintNoShortcutReferenceLink referenceType tree) =
    (Normal tt,
     map (fun o => warning shortcut_reason (AtPosition (snd o)))
       (positioned_where
          (fun n => is_type "linkReference" n &&
                    String.eqb (referenceType n) "shortcut") tree))).
  { unfold remarkLintNoShortcutReferenceLink, positioned_where.
    rewrite <- (flat_map_positioned _
                  (fun _ pos => warning shortcut_reason (AtPosition pos))).
    apply visit_nodes.
    - intros v _ Htest. unfold shortcut_visitor. rewrite Htest. cbn [andb].
      destruct (position (Some (v_node v))) as [pos|]; [|apply emits_ret].
      destruct (String.eqb (referenceType (v_node v)) "shortcut");
        cbn [when]; [apply emits_message | apply emits_ret].
    - intros n Htest. rewrite Htest. cbn [andb].
      now destruct (position (Some n)). }
  split; [exact Hrun|].
  intros m. unfold diagnostics. rewrite Hrun. cbn [snd].
  rewrite in_map_iff. split.
  - intros (o & <- & Ho). apply in_positioned_where in Ho.
    destruct Ho as (Hn & Hp & Hpos).
    apply andb_true_iff in Hp as [Htype Hshort].
    exists (fst o), (snd o). repeat split; try assumption.
    + now apply is_type_true.
    + now apply String.eqb_eq.
  - intros (n & pos & Hn & Htype & Hshort & Hpos & ->).
    exists (n, pos). split; [reflexivity|].
    apply in_positioned_where. cbn. repeat split; try assumption.
    apply andb_true_iff. split; [now apply is_type_true|].
    now apply String.eqb_eq.
Qed.


Lemma generated_position (n : Node) :
  match node_position n with
  | Some pos =>
      0 <= line (pos_start pos) /\ 0 <= column (pos_start pos) /\
      0 <= line (pos_end pos) /\ 0 <= column (pos_end pos)
  | None => True
  end ->
  V4.generated n = match position (Some n) with Some _ => false | None => true end.
Proof.
  unfold V4.generated, position, pointStart, pointEnd, resolve_point.
  destruct (node_position n) as [pos|]; [|reflexivity].
  intros (H1 & H2 & H3 & H4).
  destruct (Z.eqb_spec (line (pos_start pos)) 0),
           (Z.eqb_spec (column (pos_start pos)) 0),
           (Z.eqb_spec (line (pos_end pos)) 0),
           (Z.eqb_spec (column (pos_end pos)) 0),
           (Z.ltb_spec 0 (line (pos_start pos))),
           (Z.ltb_spec 0 (column (pos_start pos))),
           (Z.ltb_spec 0 (line (pos_end pos))),
           (Z.ltb_spec 0 (column (pos_end pos)));
    cbn; try reflexivity; lia.
Qed.

(** X2: on a tree without negative lines or columns, the older version of
    no-shortcut-reference-link (which tests [generated(node)] and reports
    at the node) and the current one (which tests [position(node)] and
    reports at the position) give diagnostics that correspond one to one,
    in the same order: the same nodes, each at its position. *)
Theorem shortcut_versions_agree (tree : Node) :
  plain_positions tree ->
  Forall2
    (fun old new =>
       exists n pos,
         position (Some n) = Some pos /\
         old = warning shortcut_reason (AtNode n) /\
         new = warning shortcut_reason (AtPosition pos))
    (diagnostics (noShortcutReferenceLink referenceType tree))
    (diagnostics (remarkLintNoShortcutReferenceLink referenceType tree)).
Proof.
  intros Hplain.
  set (old_report := fun n =>
         if is_type "linkReference" n && (negb (V4.generated n) &&
            String.eqb (referenceType n) "shortcut")
         then [warning shortcut_reason (AtNode n)] else []).
  set (new_report := fun n =>
         if is_type "linkReference" n then
           match position (Some n) with
           | Some pos =>
               if String.eqb (referenceType n) "shortcut"
               then [warning shortcut_reason (AtPosition pos)] else []
           | None => []
           end
         else []).
  assert (Hold : run (noShortcutReferenceLink referenceType tree) =
                 (Normal tt, flat_map old_report (nodes_of tree))).
  { apply visit_nodes.
    - intros v _ Htest. unfold noShortcutReferenceLink_visitor, old_report.
      rewrite Htest. cbn [andb].
      destruct (negb (V4.generated (v_node v)) &&
                String.eqb (referenceType (v_node v)) "shortcut");
        cbn [when]; [apply emits_message | apply emits_ret].
    - intros n Htest. unfold old_report. now rewrite Htest. }
  assert (Hnew : run (remarkLintNoShortcutReferenceLink referenceType tree) =
                 (Normal tt, flat_map new_report (nodes_of tree))).
  { apply visit_nodes.
    - intros v _ Htest. unfold shortcut_visitor, new_report. rewrite Htest.
      destruct (position (Some (v_node v))) as [pos|]; [|apply emits_ret].
      destruct (String.eqb (referenceType (v_node v)) "shortcut");
        cbn [when]; [apply emits_message | apply emits_ret].
    - intros n Htest. unfold new_report. now rewrite Htest. }
  unfold diagnostics. rewrite Hold, Hnew. cbn [snd].
  unfold plain_positions in Hplain. revert Hplain.
  generalize (nodes_of tree) as l. intros l Hplain.
  induction Hplain as [|n l Hn _ IH]; [constructor|].
  cbn [flat_map]. apply Forall2_app; [|exact IH].
  unfold old_report, new_report. rewrite (generated_position n Hn).
  destruct (is_type "linkReference" n); [|constructor].
  destruct (position (Some n)) as [pos|] eqn:Hpos; [|constructor].
  cbn [negb andb].
  destruct (String.eqb (referenceType n) "shortcut"); [|constructor].
  constructor; [|constructor]. exists n, pos. auto.
Qed.

(** *** no-empty-url *)

(** X3: no-empty-url never throws and reports exactly the definitions,
    images and links that have a resolvable position and an empty [url],
    once each, in document order, with a reason made from the node's
    type. *)
Theorem empty_urls_reported (tree : Node) :
  run (remarkLintNoEmptyUrl url tree) =
    (Normal tt,
     map (fun o => warning (empty_url_reason (node_type (fst o)))
                     (AtPosition (snd o)))
       (positioned_where
          (fun n => (is_type "definition" n || is_type "image" n ||
                     is_type "link" n) && negb (truthy (url n))) tree)) /\
  forall m,
    In m (diagnostics (remarkLintNoEmptyUrl url tree)) <->
    exists n pos,
      In n (nodes_of tree) /\
      (node_type n = "definition" \/ node_type n = "image" \/
       node_type n = "link") /\
      url n = "" /\ position (Some n) = Some pos /\
      m = warning ("Don’t use " +:+ node_type n +:+ "s without URL")
            (AtPosition pos).
Proof.
  assert (Hrun :
    run (remarkLintNoEmptyUrl url tree) =
    (Normal tt,
     map (fun o => warning (empty_url_reason (node_type (fst o)))
                     (AtPosition (snd o)))
       (positioned_where
          (fun n => (is_type "definition" n || is_type "image" n ||
                     is_type "link" n) && negb (truthy (url n))) tree))).
  { unfold remarkLintNoEmptyUrl, positioned_where.
    rewrite <- (flat_map_positioned _
                  (fun n pos => warning (empty_url_reason (node_type n))
                                  (AtPosition pos))).
    apply visit_nodes; [|discriminate].
    intros v _ _. unfold empty_url_visitor.
    destruct (is_type "definition" (v_node v) || is_type "image" (v_node v) ||
              is_type "link" (v_node v)); cbn [andb].
    - destruct (position (Some (v_node v))) as [pos|]; [|apply emits_ret].
      destruct (negb (truthy (url (v_node v)))); cbn [when];
        [apply emits_message | apply emits_ret].
    - destruct (position (Some (v_node v))); apply emits_ret. }
  split; [exact Hrun|].
  intros m. unfold diagnostics. rewrite Hrun. cbn [snd].
  rewrite in_map_iff. split.
  - intros (o & <- & Ho). apply in_positioned_where in Ho.
    destruct Ho as (Hn & Hp & Hpos).
    apply andb_true_iff in Hp as [Htype Hurl].
    exists (fst o), (snd o). repeat split; try assumption.
    + rewrite !orb_true_iff, !is_type_true in Htype. tauto.
    + unfold truthy in Hurl. rewrite negb_involutive in Hurl.
      now apply String.eqb_eq.
  - intros (n & pos & Hn & Htype & Hurl & Hpos & ->).
    exists (n, pos). split; [reflexivity|].
    apply in_positioned_where. cbn. repeat split; try assumption.
    apply andb_true_iff. split.
    + rewrite !orb_true_iff, !is_type_true. tauto.
    + unfold truthy. rewrite Hurl. reflexivity.
Qed.

(** *** no-reference-like-url *)

Lemma map_filter_nodes (test : Node -> bool) (l : list Visit) :
  map v_node (List.filter (fun v => test (v_node v)) l) =
  List.filter test (map v_node l).
Proof.
  induction l as [|v l IH]; [reflexivity|].
  cbn [List.filter map]. destruct (test (v_node v)); cbn [map];
    now rewrite IH.
Qed.

Lemma reference_like_collect_each (l : list Visit) (s : gset string) :
  emits (each (reference_like_collect toLowerCase) l s)
    (list_to_set
       (map (fun n => toLowerCase (node_identifier n)) (map v_node l)) ∪ s)
    [].
Proof.
  revert s. induction l as [|v l IH]; intros s.
  - cbn [each map list_to_set]. rewrite (left_id_L ∅ (∪)).
    apply emits_ret.
  - cbn [each map list_to_set].
    apply emits_bind_silent
      with (a := {[toLowerCase (node_identifier (v_node v))]} ∪ s).
    + apply emits_ret.
    + set (k := toLowerCase (node_identifier (v_node v))).
      set (keys := list_to_set
                     (map (fun n => toLowerCase (node_identifier n))
                        (map v_node l)) : gset string).
      assert (E : {[k]} ∪ keys ∪ s = keys ∪ ({[k]} ∪ s)).
      { rewrite (comm_L (∪) {[k]} keys), <- (assoc_L (∪)). reflexivity. }
      rewrite E. apply IH.
Qed.

(** X4: no-reference-like-url never throws, and reports exactly the images
    and links with a resolvable position whose lower-cased [url] is the
    lower-cased identifier of some definition of the tree.  The definition
    may come after the link, and it needs no position: the identifiers are
    collected in a traversal of their own before any link is looked at. *)
Theorem reference_like_urls_reported (tree : Node) :
  run (remarkLintNoReferenceLikeUrl url toLowerCase tree) =
    (Normal tt,
     map (fun o => warning (reference_like_reason (url (fst o)))
                     (AtPosition (snd o)))
       (positioned_where
          (fun n => (is_type "image" n || is_type "link" n) &&
                    bool_decide (toLowerCase (url n) ∈
                                 identifiers_of toLowerCase tree))
          tree)) /\
  forall m,
    In m (diagnostics (remarkLintNoReferenceLikeUrl url toLowerCase tree)) <->
    exists n pos d,
      In n (nodes_of tree) /\
      (node_type n = "image" \/ node_type n = "link") /\
      position (Some n) = Some pos /\
      In d (nodes_of tree) /\ node_type d = "definition" /\
      toLowerCase (node_identifier d) = toLowerCase (url n) /\
      m = warning (reference_like_reason (url n)) (AtPosition pos).
Proof.
  assert (Hrun :
    run (remarkLintNoReferenceLikeUrl url toLowerCase tree) =
    (Normal tt,
     map (fun o => warning (reference_like_reason (url (fst o)))
                     (AtPosition (snd o)))
       (positioned_where
          (fun n => (is_type "image" n || is_type "link" n) &&
                    bool_decide (toLowerCase (url n) ∈
                                 identifiers_of toLowerCase tree))
          tree))).
  { apply emits_run. unfold remarkLintNoReferenceLikeUrl.
    apply emits_bind_silent with (a := identifiers_of toLowerCase tree).
    - unfold visit, identifiers_of, nodes_of.
      rewrite <- map_filter_nodes.
      set (l := List.filter _ (walk false None None tree)).
      rewrite <- (right_id_L ∅ (∪)
                    (list_to_set
                       (map (fun n => toLowerCase (node_identifier n))
                          (map v_node l)))).
      apply reference_like_collect_each.
    - unfold positioned_where.
      rewrite <- (flat_map_positioned _
                    (fun n pos => warning (reference_like_reason (url n))
                                    (AtPosition pos))).
      apply visit_nodes_emits; [|discriminate].
      intros v _ _. unfold reference_like_visitor.
      destruct (position (Some (v_node v))) as [pos|]; [|apply emits_ret].
      destruct ((is_type "image" (v_node v) || is_type "link" (v_node v)) &&
                bool_decide (toLowerCase (url (v_node v)) ∈
                             identifiers_of toLowerCase tree));
        cbn [when]; [apply emits_message | apply emits_ret]. }
  split; [exact Hrun|].
  intros m. unfold diagnostics. rewrite Hrun. cbn [snd].
  rewrite in_map_iff. split.
  - intros (o & <- & Ho). apply in_positioned_where in Ho.
    destruct Ho as (Hn & Hp & Hpos).
    apply andb_true_iff in Hp as [Htype Hid].
    apply bool_decide_eq_true_1 in Hid. unfold identifiers_of in Hid.
    apply elem_of_list_to_set, list_elem_of_In, in_map_iff in Hid.
    destruct Hid as (d & Hkey & Hd). apply filter_In in Hd as [Hd Hdef].
    exists (fst o), (snd o), d. repeat split; try assumption.
    + rewrite !orb_true_iff, !is_type_true in Htype. tauto.
    + now apply is_type_true.
  - intros (n & pos & d & Hn & Htype & Hpos & Hd & Hdef & Hkey & ->).
    exists (n, pos). split; [reflexivity|].
    apply in_positioned_where. cbn. repeat split; try assumption.
    apply andb_true_iff. split.
    + rewrite !orb_true_iff, !is_type_true. tauto.
    + apply bool_decide_eq_true_2. unfold identifiers_of.
      apply elem_of_list_to_set, list_elem_of_In, in_map_iff.
      exists d. split; [exact Hkey|].
      apply filter_In. split; [exact Hd | now apply is_type_true].
Qed.

(** *** no-literal-urls *)

(** X7: no-literal-urls never throws, and reports exactly the links whose
    start and end resolve, whose first child starts at the link's start
    column and whose last child ends at the link's end column, and whose
    [url] is their text or [mailto:] followed by their text.  Only columns
    are compared, and a link without children is never reported. *)
Theorem literal_urls_reported (tree : Node) :
  fst (run (remarkLintNoLiteralUrls url toString tree)) = Normal tt /\
  (forall m,
     In m (diagnostics (remarkLintNoLiteralUrls url toString tree)) <->
     exists n s e hs te,
       In n (nodes_of tree) /\ node_type n = "link" /\
       pointStart (Some n) = Some s /\ pointEnd (Some n) = Some e /\
       pointStart (node_children n !! 0%nat) = Some hs /\
       pointEnd (last (node_children n)) = Some te /\
       column e = column te /\ column s = column hs /\
       (url n = "mailto:" +:+ toString n \/ url n = toString n) /\
       m = warning literal_url_reason (AtNode n)) /\
  (forall n m,
     node_children n = [] ->
     In m (diagnostics (remarkLintNoLiteralUrls url toString tree)) ->
     place m <> AtNode n).
Proof.
  set (report := fun n =>
    if is_type "link" n then
      match pointEnd (Some n), pointStart (Some n),
            pointStart (node_children n !! 0%nat),
            pointEnd (last (node_children n)) with
      | Some e, Some s, Some hs, Some te =>
          if (column e =? column te) && (column s =? column hs) &&
             (String.eqb (url n) ("mailto:" +:+ toString n) ||
              String.eqb (url n) (toString n))
          then [warning literal_url_reason (AtNode n)] else []
      | _, _, _, _ => []
      end
    else []).
  assert (Hrun : run (remarkLintNoLiteralUrls url toString tree) =
                 (Normal tt, flat_map report (nodes_of tree))).
  { apply visit_nodes.
    - intros v _ Htest. unfold literal_urls_visitor, report. rewrite Htest.
      destruct (pointEnd (Some (v_node v))) as [e|]; [|apply emits_ret].
      destruct (pointStart (Some (v_node v))) as [s|]; [|apply emits_ret].
      destruct (pointStart (node_children (v_node v) !! 0%nat)) as [hs|];
        [|apply emits_ret].
      destruct (pointEnd (last (node_children (v_node v)))) as [te|];
        [|apply emits_ret].
      match goal with |- emits (when ?b _) _ _ => destruct b end;
        cbn [when]; [apply emits_message | apply emits_ret].
    - intros n Htest. unfold report. now rewrite Htest. }
  assert (Hiff : forall m,
     In m (diagnostics (remarkLintNoLiteralUrls url toString tree)) <->
     exists n s e hs te,
       In n (nodes_of tree) /\ node_type n = "link" /\
       pointStart (Some n) = Some s /\ pointEnd (Some n) = Some e /\
       pointStart (node_children n !! 0%nat) = Some hs /\
       pointEnd (last (node_children n)) = Some te /\
       column e = column te /\ column s = column hs /\
       (url n = "mailto:" +:+ toString n \/ url n = toString n) /\
       m = warning literal_url_reason (AtNode n)).
  { intros m. unfold diagnostics. rewrite Hrun. cbn [snd].
    rewrite in_flat_map. split.
    - intros (n & Hn & Hm). unfold report in Hm.
      destruct (is_type "link" n) eqn:Htype; [|destruct Hm].
      destruct (pointEnd (Some n)) as [e|] eqn:He; [|destruct Hm].
      destruct (pointStart (Some n)) as [s|] eqn:Hs; [|destruct Hm].
      destruct (pointStart (node_children n !! 0%nat)) as [hs|] eqn:Hhs;
        [|destruct Hm].
      destruct (pointEnd (last (node_children n))) as [te|] eqn:Hte;
        [|destruct Hm].
      match type of Hm with In _ (if ?b then _ else _) =>
        destruct b eqn:Hb end; [|destruct Hm].
      destruct Hm as [<- | []].
      rewrite !andb_true_iff, orb_true_iff, !Z.eqb_eq, !String.eqb_eq in Hb.
      destruct Hb as [[Hce Hcs] Hurl].
      exists n, s, e, hs, te. apply is_type_true in Htype.
      repeat split; assumption.
    - intros (n & s & e & hs & te & Hn & Htype & Hs & He & Hhs & Hte & Hce
              & Hcs & Hurl & ->).
      exists n. split; [exact Hn|]. unfold report.
      rewrite (proj2 (is_type_true _ _) Htype), Hs, He, Hhs, Hte.
      assert (Hb : (column e =? column te) && (column s =? column hs) &&
                   (String.eqb (url n) ("mailto:" +:+ toString n) ||
                    String.eqb (url n) (toString n)) = true).
      { rewrite !andb_true_iff, orb_true_iff, !Z.eqb_eq, !String.eqb_eq.
        tauto. }
      rewrite Hb. now left. }
  split; [now rewrite Hrun|]. split; [exact Hiff|].
  intros n m Hempty Hm Hplace. apply Hiff in Hm.
  destruct Hm as (n' & s & e & hs & te & _ & _ & _ & _ & Hhs & _ & _ & _ & _
                  & ->).
  cbn in Hplace. injection Hplace as ->. rewrite Hempty in Hhs.
  discriminate.
Qed.

End ResourceRules.

Lemma shortcut_versions_agree_witness :
  let reference :=
    mkNode "linkReference" (Example.span 1 1 0 1 6 5) [] None "foo"
      1%positive in
  let tree := Example.root [Example.parent "paragraph"
                              (Example.span 1 1 0 1 6 5) [reference]] in
  Forall2
    (fun old new =>
       exists n pos,
         position (Some n) = Some pos /\
         old = warning shortcut_reason (AtNode n) /\
         new = warning shortcut_reason (AtPosition pos))
    (diagnostics (noShortcutReferenceLink (fun _ => "shortcut"%string) tree))
    (diagnostics
       (remarkLintNoShortcutReferenceLink (fun _ => "shortcut"%string) tree)).
Proof.
  intros reference tree.
  apply (shortcut_versions_agree (fun _ => "shortcut"%string) tree).
  repeat constructor; cbn; lia.
Defined.

(** ** no-html *)

Lemma prefix_app (p s : string) :
  String.prefix p s = true <-> exists rest, s = p +:+ rest.
Proof.
  revert s. induction p as [|a p IH]; intros s.
  - split; [intros _; now exists s | intros _; now destruct s].
  - destruct s as [|b s]; cbn [String.prefix].
    + split; [discriminate | intros (rest & H); discriminate].
    + destruct (Ascii.ascii_dec a b) as [<- | Hne].
      * rewrite IH. split; intros (rest & H); exists rest.
        -- cbn. now rewrite H.
        -- cbn in H. now injection H.
      * split; [discriminate|]. intros (rest & H). cbn in H.
        injection H as H _. congruence.
Qed.

Lemma html_comment_unfold (s : string) :
  html_comment s =
  String.prefix "<!--" s ||
  match s with
  | String c s' => is_space c && html_comment s'
  | EmptyString => false
  end.
Proof. destruct s; reflexivity. Qed.

(** [html_comment] decides the regular expression [/^\s*<!--/]. *)
Lemma html_comment_spec (s : string) :
  html_comment s = true <-> comment_text s.
Proof.
  unfold comment_text. split.
  - induction s as [|c s IH]; rewrite html_comment_unfold.
    + discriminate.
    + intros H. apply orb_true_iff in H as [H | H].
      * apply prefix_app in H as (rest & ->). exists "", rest.
        split; [constructor | reflexivity].
      * apply andb_true_iff in H as [Hc Hs].
        destruct (IH Hs) as (ws & rest & Hws & ->).
        exists (String c ws), rest. split; [now constructor | reflexivity].
  - intros (ws & rest & Hws & ->).
    induction ws as [|c ws IH]; rewrite html_comment_unfold.
    + apply orb_true_iff. left. apply prefix_app. now exists rest.
    + apply orb_true_iff. right. cbn in Hws.
      apply andb_true_iff. split.
      * now apply Forall_inv in Hws.
      * apply IH. now apply Forall_inv_tail in Hws.
Qed.

(** X5: no-html never throws and reports exactly the [html] nodes that have
    a resolvable position and whose value is not a comment, a comment being
    white space followed by [<!--]; an [html] node without a value is
    reported too. *)
Theorem html_reported_unless_comment (tree : Node) :
  run (remarkLintNoHtml tree) =
    (Normal tt,
     map (fun o => warning no_html_reason (AtPosition (snd o)))
       (positioned_where
          (fun n => is_type "html" n &&
                    negb match node_value n with
                         | Some value => html_comment value
                         | None => false
                         end) tree)) /\
  forall m,
    In m (diagnostics (remarkLintNoHtml tree)) <->
    exists n pos,
      In n (nodes_of tree) /\ node_type n = "html" /\
      position (Some n) = Some pos /\
      (forall value, node_value n = Some value -> ~ comment_text value) /\
      m = warning no_html_reason (AtPosition pos).
Proof.
  assert (Hrun :
    run (remarkLintNoHtml tree) =
    (Normal tt,
     map (fun o => warning no_html_reason (AtPosition (snd o)))
       (positioned_where
          (fun n => is_type "html" n &&
                    negb match node_value n with
                         | Some value => html_comment value
                         | None => false
                         end) tree))).
  { unfold remarkLintNoHtml, positioned_where.
    rewrite <- (flat_map_positioned _
                  (fun _ pos => warning no_html_reason (AtPosition pos))).
    apply visit_nodes.
    - intros v _ Htest. unfold no_html_visitor. rewrite Htest. cbn [andb].
      destruct (position (Some (v_node v))) as [pos|]; [|apply emits_ret].
      match goal with |- emits (when ?b _) _ _ => destruct b end;
        cbn [when]; [apply emits_message | apply emits_ret].
    - intros n Htest. rewrite Htest. cbn [andb].
      now destruct (position (Some n)). }
  split; [exact Hrun|].
  intros m. unfold diagnostics. rewrite Hrun. cbn [snd].
  rewrite in_map_iff. split.
  - intros (o & <- & Ho). apply in_positioned_where in Ho.
    destruct Ho as (Hn & Hp & Hpos).
    apply andb_true_iff in Hp as [Htype Hvalue].
    exists (fst o), (snd o). repeat split; try assumption.
    + now apply is_type_true.
    + intros value Hsome Hcomment. rewrite Hsome in Hvalue.
      apply html_comment_spec in Hcomment. rewrite Hcomment in Hvalue.
      discriminate.
  - intros (n & pos & Hn & Htype & Hpos & Hvalue & ->).
    exists (n, pos). split; [reflexivity|].
    apply in_positioned_where. cbn. repeat split; try assumption.
    apply andb_true_iff. split; [now apply is_type_true|].
    destruct (node_value n) as [value|]; [|reflexivity].
    apply negb_true_iff, not_true_is_false. intros Hcomment.
    apply (Hvalue value eq_refl). now apply html_comment_spec.
Qed.

(** ** no-heading-like-paragraph *)

Lemma fence_prefix (value : string) :
  String.eqb (slice 0 (Z.of_nat (String.length fence)) value) fence =
  String.prefix fence value.
Proof.
  apply eq_true_iff_eq. rewrite String.eqb_eq, String.prefix_correct.
  reflexivity.
Qed.

(** X6: on a tree whose text nodes all have a value, no-heading-like-paragraph
    never throws and reports exactly the paragraphs that have a resolvable
    position and whose first child is a text starting with seven hashes,
    once each, in document order, at the paragraph's position. *)
Theorem heading_like_paragraphs_reported (tree : Node) :
  texts_have_values tree ->
  run (remarkLintNoHeadingLikeParagraph tree) =
    (Normal tt,
     map (fun o => warning heading_like_reason (AtPosition (snd o)))
       (positioned_where heading_like tree)) /\
  forall m,
    In m (diagnostics (remarkLintNoHeadingLikeParagraph tree)) <->
    exists n pos head rest,
      In n (nodes_of tree) /\ node_type n = "paragraph" /\
      position (Some n) = Some pos /\
      node_children n !! 0%nat = Some head /\ node_type head = "text" /\
      node_value head = Some ("#######" +:+ rest) /\
      m = warning heading_like_reason (AtPosition pos).
Proof.
  intros Hvalues.
  assert (Hrun :
    run (remarkLintNoHeadingLikeParagraph tree) =
    (Normal tt,
     map (fun o => warning heading_like_reason (AtPosition (snd o)))
       (positioned_where heading_like tree))).
  { unfold remarkLintNoHeadingLikeParagraph, positioned_where.
    rewrite <- (flat_map_positioned _
                  (fun _ pos => warning heading_like_reason (AtPosition pos))).
    apply visit_nodes.
    - intros v Hin Htest. unfold heading_like_visitor, heading_like.
      rewrite Htest. cbn [andb].
      destruct (position (Some (v_node v))) as [pos|]; [|apply emits_ret].
      destruct (node_children (v_node v) !! 0%nat) as [head|] eqn:Hhead;
        [|apply emits_ret].
      destruct (is_type "text" head) eqn:Htext; [|apply emits_ret].
      cbn [andb].
      destruct (node_value head) as [value|] eqn:Hvalue.
      + rewrite fence_prefix.
        destruct (String.prefix fence value); cbn [when];
          [apply emits_message | apply emits_ret].
      + exfalso. unfold texts_have_values in Hvalues.
        rewrite Forall_forall in Hvalues.
        apply (Hvalues head); [|now apply is_type_true | exact Hvalue].
        apply list_elem_of_In.
        exact (nodes_of_children tree (v_node v) head 0 Hin Hhead).
    - intros n Htest. unfold heading_like. rewrite Htest. cbn [andb].
      now destruct (position (Some n)). }
  split; [exact Hrun|].
  intros m. unfold diagnostics. rewrite Hrun. cbn [snd].
  rewrite in_map_iff. split.
  - intros (o & <- & Ho). apply in_positioned_where in Ho.
    destruct Ho as (Hn & Hp & Hpos). unfold heading_like in Hp.
    apply andb_true_iff in Hp as [Htype Hhead].
    destruct (node_children (fst o) !! 0%nat) as [head|] eqn:Hfirst;
      [|discriminate].
    apply andb_true_iff in Hhead as [Htext Hvalue].
    destruct (node_value head) as [value|] eqn:Hsome; [|discriminate].
    apply prefix_app in Hvalue as (rest & ->).
    exists (fst o), (snd o), head, rest.
    repeat split; try assumption; now apply is_type_true.
  - intros (n & pos & head & rest & Hn & Htype & Hpos & Hfirst & Htext
            & Hvalue & ->).
    exists (n, pos). split; [reflexivity|].
    apply in_positioned_where. cbn. repeat split; try assumption.
    unfold heading_like.
    rewrite (proj2 (is_type_true _ _) Htype), Hfirst,
      (proj2 (is_type_true _ _) Htext), Hvalue.
    cbn [andb]. apply prefix_app. now exists rest.
Qed.

Lemma heading_like_paragraphs_reported_witness :
  let text := mkNode "text" (Example.span 1 1 0 1 16 15) []
                (Some "####### Charlie"%string) "" 1%positive in
  let tree := Example.root [Example.parent "paragraph"
                              (Example.span 1 1 0 1 16 15) [text]] in
  run (remarkLintNoHeadingLikeParagraph tree) =
    (Normal tt,
     map (fun o => warning heading_like_reason (AtPosition (snd o)))
       (positioned_where heading_like tree)) /\
  forall m,
    In m (diagnostics (remarkLintNoHeadingLikeParagraph tree)) <->
    exists n pos head rest,
      In n (nodes_of tree) /\ node_type n = "paragraph" /\
      position (Some n) = Some pos /\
      node_children n !! 0%nat = Some head /\ node_type head = "text" /\
      node_value head = Some ("#######" +:+ rest) /\
      m = warning heading_like_reason (AtPosition pos).
Proof.
  intros text tree. apply (heading_like_paragraphs_reported tree).
  repeat constructor; cbn; discriminate.
Defined.

(** ** no-emphasis-as-heading *)

(** X8: when the root of the tree is itself a paragraph, no-emphasis-as-heading
    throws a [TypeError] ([parent] is [undefined] there) before it reports
    anything. *)
Theorem emphasis_paragraph_root_throws (tree : Node) :
  node_type tree = "paragraph" ->
  run (noEmphasisAsHeading tree) = (Throw type_error_value, []).
Proof.
  intros Htype. unfold run, noEmphasisAsHeading, visit.
  rewrite walk_unfold. cbn [List.filter v_node].
  rewrite (proj2 (is_type_true _ _) Htype). reflexivity.
Qed.

Lemma emphasis_paragraph_root_throws_witness :
  run (noEmphasisAsHeading
         (Example.parent "paragraph" (Example.span 1 1 0 1 8 7)
            [Example.leaf "emphasis" (Example.span 1 1 0 1 8 7)])) =
    (Throw type_error_value, []).
Proof.
  apply (emphasis_paragraph_root_throws
           (Example.parent "paragraph" (Example.span 1 1 0 1 8 7)
              [Example.leaf "emphasis" (Example.span 1 1 0 1 8 7)])).
  reflexivity.
Defined.

Lemma walk_root_only (tree : Node) (v : Visit) :
  In v (walk false None None tree) -> v_parent v = None -> v_node v = tree.
Proof.
  intros Hv Hparent.
  destruct (walk_parent tree None None v Hv)
    as [-> | (p & i & Hp & _)]; [reflexivity | congruence].
Qed.

(** What the visit of one paragraph below a parent adds. *)
Lemma emphasis_visitor_emits (v : Visit) (parent : Node) :
  v_parent v = Some parent ->
  emits (emphasis_visitor v tt) tt
    (if negb (V4.generated (v_node v)) &&
        match previous_sibling parent (v_index v) with
        | Some previous => negb (is_type "heading" previous)
        | None => true
        end &&
        match next_sibling parent (v_index v) with
        | Some next => is_type "paragraph" next
        | None => false
        end &&
        (length (node_children (v_node v)) =? 1)%nat &&
        match node_children (v_node v) !! 0%nat with
        | Some head => is_type "emphasis" head || is_type "strong" head
        | None => false
        end
     then [warning emphasis_reason (AtNode (v_node v))] else []).
Proof.
  intros Hparent. unfold emphasis_visitor. rewrite Hparent.
  match goal with |- emits (when ?b _) _ _ => destruct b end;
    cbn [when]; [apply emits_message | apply emits_ret].
Qed.

(** X9: when the root is not a paragraph, no-emphasis-as-heading never
    throws, and reports exactly the paragraphs that are not generated, whose
    only child is an emphasis or a strong, that are followed by a
    paragraph and not preceded by a heading; so the last child of a node
    is never reported, and neither is a paragraph right after a heading. *)
Theorem emphasis_headings_reported (tree : Node) :
  node_type tree <> "paragraph" ->
  fst (run (noEmphasisAsHeading tree)) = Normal tt /\
  forall m,
    In m (diagnostics (noEmphasisAsHeading tree)) <->
    exists parent i n head,
      In parent (nodes_of tree) /\ node_children parent !! i = Some n /\
      node_type n = "paragraph" /\ V4.generated n = false /\
      (forall prev, (0 < i)%nat ->
                    node_children parent !! (i - 1)%nat = Some prev ->
                    node_type prev <> "heading") /\
      (exists next, node_children parent !! (i + 1)%nat = Some next /\
                    node_type next = "paragraph") /\
      node_children n = [head] /\
      (node_type head = "emphasis" \/ node_type head = "strong") /\
      m = warning emphasis_reason (AtNode n).
Proof.
  intros Hroot.
  set (check := fun v =>
    match v_parent v with
    | Some parent =>
        if negb (V4.generated (v_node v)) &&
           match previous_sibling parent (v_index v) with
           | Some previous => negb (is_type "heading" previous)
           | None => true
           end &&
           match next_sibling parent (v_index v) with
           | Some next => is_type "paragraph" next
           | None => false
           end &&
           (length (node_children (v_node v)) =? 1)%nat &&
           match node_children (v_node v) !! 0%nat with
           | Some head => is_type "emphasis" head || is_type "strong" head
           | None => false
           end
        then [warning emphasis_reason (AtNode (v_node v))] else []
    | None => []
    end).
  assert (Hrun : run (noEmphasisAsHeading tree) =
                 (Normal tt,
                  flat_map check (visited false (is_type "paragraph") tree))).
  { apply emits_run. unfold noEmphasisAsHeading, visit, visited.
    apply each_stateless. intros v Hv. apply filter_In in Hv as [Hv Htest].
    unfold check. destruct (v_parent v) as [parent|] eqn:Hparent.
    - now apply emphasis_visitor_emits.
    - exfalso. apply Hroot. rewrite <- (walk_root_only tree v Hv Hparent).
      now apply is_type_true. }
  split; [now rewrite Hrun|].
  intros m. unfold diagnostics. rewrite Hrun. cbn [snd].
  rewrite in_flat_map. split.
  - intros (v & Hv & Hm). apply filter_In in Hv as [Hv Htest].
    unfold check in Hm.
    destruct (v_parent v) as [parent|] eqn:Hparent; [|destruct Hm].
    destruct (walk_parent tree None None v Hv)
      as [-> | (p & i & Hp & Hi & Hchild & Hin)]; [discriminate|].
    rewrite Hparent in Hp. injection Hp as <-. rewrite Hi in Hm.
    match type of Hm with In _ (if ?b then _ else _) =>
      destruct b eqn:Hb end; [|destruct Hm].
    destruct Hm as [<- | []].
    rewrite !andb_true_iff in Hb.
    destruct Hb as ((((Hgen & Hprev) & Hnext) & Hlen) & Hhead).
    cbn [next_sibling] in Hnext.
    destruct (node_children parent !! (i + 1)%nat) as [next|] eqn:Hn;
      [|discriminate].
    destruct (node_children (v_node v)) as [|head [|? ?]] eqn:Hkids;
      try discriminate.
    exists parent, i, (v_node v), head.
    split; [exact Hin|]. split; [exact Hchild|].
    split; [now apply is_type_true|]. split; [now apply negb_true_iff|].
    split.
    { intros prev Hpos Hlookup. destruct i as [|j]; [lia|].
      cbn [previous_sibling] in Hprev.
      replace (S j - 1)%nat with j in Hlookup by lia.
      rewrite Hlookup in Hprev. apply negb_true_iff in Hprev.
      now apply is_type_false. }
    split; [exists next; split; [exact Hn | now apply is_type_true]|].
    split; [exact Hkids|]. split; [|reflexivity].
    cbn in Hhead. rewrite orb_true_iff, !is_type_true in Hhead. exact Hhead.
  - intros (parent & i & n & head & Hparent & Hchild & Htype & Hgen & Hprev
            & (next & Hnext & Hnexttype) & Hkids & Hhead & ->).
    exists {| v_node := n; v_index := Some i; v_parent := Some parent |}.
    split.
    + apply filter_In. split; [|now apply is_type_true].
      now apply walk_child.
    + unfold check. cbn [v_parent v_index v_node next_sibling].
      rewrite Hgen, Hnext, Hkids, (proj2 (is_type_true _ _) Hnexttype).
      cbn [negb andb length Nat.eqb lookup list_lookup].
      assert (Hp : match previous_sibling parent (Some i) with
                   | Some previous => negb (is_type "heading" previous)
                   | None => true
                   end = true).
      { destruct i as [|j]; [reflexivity|]. cbn [previous_sibling].
        destruct (node_children parent !! j) as [prev|] eqn:Hj;
          [|reflexivity].
        apply negb_true_iff, is_type_false. apply (Hprev prev); [lia|].
        replace (S j - 1)%nat with j by lia. exact Hj. }
      rewrite Hp.
      assert (Hh : is_type "emphasis" head || is_type "strong" head = true).
      { rewrite orb_true_iff, !is_type_true. exact Hhead. }
      cbn. rewrite Hh. now left.
Qed.

Lemma emphasis_headings_reported_witness :
  let strong := Example.parent "paragraph" (Example.span 1 1 0 1 8 7)
                  [Example.leaf "strong" (Example.span 1 1 0 1 8 7)] in
  let tree := Example.root
                [strong;
                 Example.leaf "paragraph" (Example.span 3 1 9 3 8 16)] in
  fst (run (noEmphasisAsHeading tree)) = Normal tt /\
  forall m,
    In m (diagnostics (noEmphasisAsHeading tree)) <->
    exists parent i n head,
      In parent (nodes_of tree) /\ node_children parent !! i = Some n /\
      node_type n = "paragraph" /\ V4.generated n = false /\
      (forall prev, (0 < i)%nat ->
                    node_children parent !! (i - 1)%nat = Some prev ->
                    node_type prev <> "heading") /\
      (exists next, node_children parent !! (i + 1)%nat = Some next /\
                    node_type next = "paragraph") /\
      node_children n = [head] /\
      (node_type head = "emphasis" \/ node_type head = "strong") /\
      m = warning emphasis_reason (AtNode n).
Proof.
  intros strong tree. apply (emphasis_headings_reported tree). discriminate.
Defined.

(** ** link-title-style *)

Lemma markers_lookup (final initial : string) :
  markers !! final = Some initial <->
  (final = double_quote /\ initial = double_quote) \/
  (final = "'" /\ initial = "'") \/
  (final = ")" /\ initial = "(").
Proof.
  unfold markers.
  rewrite !lookup_insert_Some, lookup_empty. split.
  - intros [[<- <-] | [_ [[<- <-] | [_ [[<- <-] | [_ H]]]]]];
      [tauto | tauto | tauto | discriminate].
  - intros [[-> ->] | [[-> ->] | [-> ->]]].
    + left. split; reflexivity.
    + right. split; [discriminate|]. left. split; reflexivity.
    + right. split; [discriminate|]. right. split; [discriminate|].
      left. split; reflexivity.
Qed.

Lemma markers_truthy (final initial : string) :
  markers !! final = Some initial ->
  truthy final = true /\ has_space final = false.
Proof.
  intros H. apply markers_lookup in H.
  destruct H as [[-> _] | [[-> _] | [-> _]]]; split; reflexivity.
Qed.

Lemma markers_lookup_None (o : string) :
  ~ In o [double_quote; "'"; ")"]%string -> markers !! o = None.
Proof.
  intros Hnot. destruct (markers !! o) as [initial|] eqn:Hm; [|reflexivity].
  exfalso. apply Hnot. apply markers_lookup in Hm. cbn.
  destruct Hm as [[-> _] | [[-> _] | [-> _]]]; auto.
Qed.








Section LinkTitleStyle.
Variable toPoint : string -> Z -> V4.Point.

Lemma link_title_check_step (contents : string) (v : Visit)
    (preferred : option string) :
  link_title_check toPoint contents v preferred =
  match title_of contents (v_node v) with
  | Some o =>
      match preferred with
      | Some p =>
          if truthy p then
            when (title_differs (snd o) p)
              (message (link_title_reason p)
                 (AtRange (toPoint contents (fst (fst o)))
                          (toPoint contents (snd (fst o) + 1)))) ;;;
            lint_ret preferred
          else lint_ret (Some (snd o))
      | None => lint_ret (Some (snd o))
      end
  | None => lint_ret preferred
  end.
Proof.
  unfold link_title_check, title_of.
  destruct (V4.generated (v_node v)); [reflexivity|].
  destruct (skip_back contents _) as [last_ [final|]]; [|reflexivity].
  destruct (markers !! final) as [initial|]; [|reflexivity].
  destruct (number_le_point _ _ || negb (has_space _)); reflexivity.
Qed.

Lemma title_of_truthy (contents : string) (node : Node)
    (o : (Z * Z) * string) :
  title_of contents node = Some o -> truthy (snd o) = true.
Proof.
  unfold title_of.
  destruct (V4.generated node); [discriminate|].
  destruct (skip_back contents _) as [last_ [final|]]; [|discriminate].
  destruct (markers !! final) as [initial|] eqn:Hm; [|discriminate].
  destruct (number_le_point _ _ || negb (has_space _)); [discriminate|].
  intros [= <-]. cbn. now apply markers_truthy in Hm.
Qed.

Lemma link_title_each_concrete (contents : string) (l : list Visit)
    (p : string) :
  truthy p = true ->
  emits (each (link_title_check toPoint contents) l (Some p)) (Some p)
    (map (title_report toPoint contents p)
       (List.filter (fun o => title_differs (snd o) p)
          (title_observations contents l))).
Proof.
  intros Hp. induction l as [|v l IH]; [apply emits_ret|].
  unfold title_observations. cbn [each omap list_omap].
  fold (title_observations contents l).
  rewrite link_title_check_step, Hp.
  destruct (title_of contents (v_node v)) as [o|].
  - cbn [List.filter]. destruct (title_differs (snd o) p); cbn [when map].
    + change (?x :: ?r) with ([x] ++ r).
      eapply emits_bind; [|exact IH].
      eapply emits_bind_ret. apply emits_message.
    + eapply emits_bind_silent; [|exact IH].
      eapply emits_bind_ret. apply emits_ret.
  - eapply emits_bind_silent; [apply emits_ret | exact IH].
Qed.

Lemma link_title_each_consistent (contents : string) (l : list Visit)
    (preferred : option string) :
  preferred = None \/ preferred = Some ""%string ->
  exists preferred',
    emits (each (link_title_check toPoint contents) l preferred) preferred'
      (title_reports toPoint contents None (title_observations contents l)).
Proof.
  intros Hpreferred. induction l as [|v l IH].
  - exists preferred. apply emits_ret.
  - unfold title_observations. cbn [each omap list_omap].
    fold (title_observations contents l).
    rewrite link_title_check_step.
    destruct (title_of contents (v_node v)) as [o|] eqn:Ho.
    + exists (Some (snd o)).
      apply emits_bind_silent with (a := Some (snd o)).
      * destruct Hpreferred as [-> | ->]; apply emits_ret.
      * unfold title_reports. cbn [preferred_value head option_map flagged].
        apply link_title_each_concrete. now apply title_of_truthy in Ho.
    + destruct IH as (preferred' & IH). exists preferred'.
      eapply emits_bind_silent; [apply emits_ret | exact IH].
Qed.

(** A valid option: no style, or one of the closing delimiters. *)
Lemma link_title_run_valid (tree : Node) (file : string)
    (option : option string) :
  (forall p, configured_title option = Some p -> is_Some (markers !! p)) ->
  run (linkTitleStyle toPoint tree file option) =
    (Normal tt,
     title_reports toPoint file (configured_title option)
       (title_observations file (visited false link_title_test tree))).
Proof.
  intros Hvalid. apply emits_run. unfold linkTitleStyle.
  destruct option as [o|]; cbn [configured_title] in *.
  - destruct (String.eqb o "consistent") eqn:Hc; cbn [negb orb] in *.
    + apply emits_bind_silent with (a := tt); [apply emits_ret|].
      destruct (link_title_each_consistent file
                  (visited false link_title_test tree) None) as (p' & Hp');
        [now left|].
      eapply emits_bind_ret. exact Hp'.
    + destruct (String.eqb o "") eqn:He.
      * apply String.eqb_eq in He. subst o. cbn [String.eqb orb].
        apply emits_bind_silent with (a := tt); [apply emits_ret|].
        destruct (link_title_each_consistent file
                    (visited false link_title_test tree) (Some ""%string))
          as (p' & Hp'); [now right|].
        eapply emits_bind_ret. exact Hp'.
      * destruct (String.eqb o "()" || String.eqb o "(") eqn:Hparen.
        -- apply emits_bind_silent with (a := tt); [apply emits_ret|].
           eapply emits_bind_ret.
           apply (link_title_each_concrete file _ ")"). reflexivity.
        -- specialize (Hvalid o eq_refl).
           assert (Ht : truthy o = true).
           { unfold truthy. now rewrite He. }
           rewrite Ht, (bool_decide_eq_true_2 _ Hvalid).
           apply emits_bind_silent with (a := tt); [apply emits_ret|].
           eapply emits_bind_ret.
           apply (link_title_each_concrete file _ o Ht).
  - apply emits_bind_silent with (a := tt); [apply emits_ret|].
    destruct (link_title_each_consistent file
                (visited false link_title_test tree) None) as (p' & Hp');
      [now left|].
    eapply emits_bind_ret. exact Hp'.
Qed.

Lemma link_title_run_invalid (tree : Node) (file o : string) :
  ~ In o ["consistent"; ""; double_quote; "'"; "()"; "("; ")"]%string ->
  run (linkTitleStyle toPoint tree file (Some o)) =
    (Throw (link_title_failure o), [link_title_failure o]).
Proof.
  intros Hnot. unfold run, linkTitleStyle.
  assert (Hc : String.eqb o "consistent" = false)
    by (apply String.eqb_neq; intros ->; apply Hnot; cbn; auto 10).
  assert (H1 : String.eqb o "()" = false)
    by (apply String.eqb_neq; intros ->; apply Hnot; cbn; auto 10).
  assert (H2 : String.eqb o "(" = false)
    by (apply String.eqb_neq; intros ->; apply Hnot; cbn; auto 10).
  assert (Ht : truthy o = true).
  { unfold truthy. apply negb_true_iff, String.eqb_neq.
    intros ->; apply Hnot; cbn; auto 10. }
  rewrite Hc. cbn [negb]. rewrite H1, H2. cbn [orb]. rewrite Ht.
  rewrite bool_decide_eq_false_2.
  - reflexivity.
  - rewrite markers_lookup_None; [apply is_Some_None|].
    intros Hin. apply Hnot. cbn in *.
    destruct Hin as [<- | [<- | [<- | []]]]; auto 10.
Qed.

(** X10: any option of link-title-style that is a string but none of
    ['consistent'], the empty string, the double quote, ['], [()], [(] and
    [)] makes the rule fail before the tree is visited: the run throws, and
    its only message is the fatal one, which quotes the option. *)
Theorem link_title_rejects_unknown_marker (tree : Node)
    (file option : string) :
  ~ In option ["consistent"; ""; double_quote; "'"; "()"; "("; ")"]%string ->
  run (linkTitleStyle toPoint tree file (Some option)) =
    (Throw (link_title_failure option), [link_title_failure option]) /\
  fatal (link_title_failure option) = true /\
  reason (link_title_failure option) =
    "Incorrect link title style marker `" +:+ option +:+
    "`: use either `'consistent'`, `'" +:+ double_quote +:+
    "'`, `'\''`, or `'()'`".
Proof.
  intros Hnot. split; [now apply link_title_run_invalid|].
  split; reflexivity.
Qed.

Lemma configured_title_valid (option : option string) :
  (forall o, option = Some o ->
     In o ["consistent"; ""; double_quote; "'"; "()"; "("; ")"]%string) ->
  forall p, configured_title option = Some p -> is_Some (markers !! p).
Proof.
  intros Hin p. destruct option as [o|]; [|discriminate].
  specialize (Hin o eq_refl). cbn in Hin.
  destruct Hin as [<- | [<- | [<- | [<- | [<- | [<- | [<- | []]]]]]]];
    cbn; intros [= <-]; eexists; reflexivity.
Qed.

(** X11: link-title-style infers its style like the other consistency
    rules.  With a valid option the run does not throw; with a configured
    delimiter exactly the titles that close with another delimiter are
    reported; with ['consistent'], the empty string or no option the first
    title found sets the style, gets no diagnostic, and exactly the later
    titles that close differently are reported.  All diagnostics of a run
    name one and the same style. *)
Theorem link_title_consistency_inference (tree : Node) (file : string)
    (option : option string) :
  (forall o, option = Some o ->
     In o ["consistent"; ""; double_quote; "'"; "()"; "("; ")"]%string) ->
  run (linkTitleStyle toPoint tree file option) =
    (Normal tt,
     title_reports toPoint file (configured_title option)
       (title_observations file (visited false link_title_test tree))) /\
  exists style,
    forall m, In m (diagnostics (linkTitleStyle toPoint tree file option)) ->
              reason m = link_title_reason style.
Proof.
  intros Hin.
  pose proof (link_title_run_valid tree file option
                (configured_title_valid option Hin)) as Hrun.
  split; [exact Hrun|].
  unfold diagnostics. rewrite Hrun. cbn [snd]. unfold title_reports.
  destruct (preferred_value _ _) as [p|].
  - exists p. intros m Hm. apply in_map_iff in Hm as (o & <- & _).
    reflexivity.
  - exists ""%string. intros m [].
Qed.


End LinkTitleStyle.

(** A file with one link whose title is in single quotes, [[a](b 'c')],
    its tree, and a [toPoint] for a file of one line. *)
Lemma link_title_rejects_unknown_marker_witness :
  let toPoint := fun (_ : string) (o : Z) =>
    {| V4.line := Some 1; V4.column := Some (o + 1); V4.offset := Some o |} in
  let tree := Example.root [Example.leaf "link" (Example.span 1 1 0 1 11 10)] in
  run (linkTitleStyle toPoint tree "[a](b 'c')" (Some "x"%string)) =
    (Throw (link_title_failure "x"), [link_title_failure "x"]) /\
  fatal (link_title_failure "x") = true /\
  reason (link_title_failure "x") =
    "Incorrect link title style marker `" +:+ "x" +:+
    "`: use either `'consistent'`, `'" +:+ double_quote +:+
    "'`, `'\''`, or `'()'`".
Proof.
  intros toPoint tree.
  apply (link_title_rejects_unknown_marker toPoint tree "[a](b 'c')" "x").
  unfold double_quote. cbn. intuition discriminate.
Defined.

Lemma link_title_consistency_inference_witness :
  let toPoint := fun (_ : string) (o : Z) =>
    {| V4.line := Some 1; V4.column := Some (o + 1); V4.offset := Some o |} in
  let tree := Example.root [Example.leaf "link" (Example.span 1 1 0 1 11 10)] in
  run (linkTitleStyle toPoint tree "[a](b 'c')" (Some double_quote)) =
    (Normal tt,
     title_reports toPoint "[a](b 'c')" (configured_title (Some double_quote))
       (title_observations "[a](b 'c')"
          (visited false link_title_test tree))) /\
  exists style,
    forall m,
      In m (diagnostics
              (linkTitleStyle toPoint tree "[a](b 'c')" (Some double_quote))) ->
      reason m = link_title_reason style.
Proof.
  intros toPoint tree.
  apply (link_title_consistency_inference toPoint tree "[a](b 'c')"
           (Some double_quote)).
  intros o [= <-]. cbn. auto.
Defined.


(** ** list-item-spacing *)

Lemma list_item_gaps_emits (tight : bool) (child : Node) (rest : list Node) :
  emits (list_item_gaps tight child rest) tt (gap_reports tight child rest).
Proof.
  revert child. induction rest as [|next rest IH]; intros child.
  - apply emits_ret.
  - cbn [list_item_gaps gap_reports].
    eapply emits_bind; [|apply IH].
    destruct (negb (Bool.eqb (line_gap next child <? 2) tight)); cbn [when];
      [apply emits_message | apply emits_ret].
Qed.

Lemma list_item_spacing_run (tree : Node)
    (option : option ListItemSpacingOptions) :
  run (listItemSpacing tree option) =
    (Normal tt, flat_map (list_reports (spacing_infer option)) (nodes_of tree)).
Proof.
  unfold listItemSpacing. fold (spacing_infer option).
  apply visit_nodes.
  - intros v _ Htest. unfold listItemSpacing_visitor, list_reports.
    rewrite Htest. cbn [andb].
    destruct (negb (V4.generated (v_node v))); [|apply emits_ret].
    destruct (node_children (v_node v)) as [|child rest] eqn:Hkids;
      [apply emits_ret|].
    apply list_item_gaps_emits.
  - intros n Htest. unfold list_reports. now rewrite Htest.
Qed.

Lemma in_gap_reports (tight : bool) (child : Node) (rest : list Node)
    (m : VFileMessage) :
  In m (gap_reports tight child rest) <->
  exists i c n,
    (child :: rest) !! i = Some c /\ (child :: rest) !! (i + 1)%nat = Some n /\
    (line_gap n c <? 2) = negb tight /\
    m = warning (if tight then reasonTight else reasonLoose) (item_gap c n).
Proof.
  revert child. induction rest as [|next rest IH]; intros child.
  - cbn. split; [intros [] | intros (i & c & n & _ & Hn & _)].
    destruct i; discriminate.
  - cbn [gap_reports]. rewrite in_app_iff, IH. split.
    + intros [Hm | (i & c & n & Hc & Hn & Hgap & ->)].
      * destruct (negb (Bool.eqb (line_gap next child <? 2) tight)) eqn:Hb;
          [|destruct Hm].
        destruct Hm as [<- | []]. exists 0%nat, child, next.
        repeat split.
        apply negb_true_iff in Hb.
        destruct (line_gap next child <? 2), tight; cbn in *; congruence.
      * exists (S i), c, n. repeat split; assumption.
    + intros (i & c & n & Hc & Hn & Hgap & ->). destruct i as [|i].
      * left. cbn in Hc, Hn. injection Hc as <-. injection Hn as <-.
        rewrite Hgap. destruct tight; cbn; now left.
      * right. exists i, c, n. repeat split; assumption.
Qed.

Lemma reasons_differ : reasonLoose <> reasonTight.
Proof. discriminate. Qed.

(** The diagnostics of list-item-spacing, list by list. *)
Lemma list_item_spacing_diagnostics (tree : Node)
    (option : option ListItemSpacingOptions) (m : VFileMessage) :
  In m (diagnostics (listItemSpacing tree option)) <->
  exists ls i child next,
    In ls (nodes_of tree) /\ node_type ls = "list" /\
    V4.generated ls = false /\
    node_children ls !! i = Some child /\
    node_children ls !! (i + 1)%nat = Some next /\
    ((existsb (spacing_infer option) (node_children ls) = true /\
      line_gap next child < 2 /\
      m = warning reasonLoose (item_gap child next)) \/
     (existsb (spacing_infer option) (node_children ls) = false /\
      2 <= line_gap next child /\
      m = warning reasonTight (item_gap child next))).
Proof.
  unfold diagnostics. rewrite list_item_spacing_run. cbn [snd].
  rewrite in_flat_map. split.
  - intros (ls & Hlist & Hm). unfold list_reports in Hm.
    destruct (is_type "list" ls) eqn:Htype; [|destruct Hm].
    destruct (V4.generated ls) eqn:Hgen; [destruct Hm|]. cbn [negb andb] in Hm.
    destruct (node_children ls) as [|c0 rest] eqn:Hkids; [destruct Hm|].
    apply in_gap_reports in Hm as (i & c & n & Hc & Hn & Hgap & ->).
    exists ls, i, c, n. rewrite Hkids.
    split; [exact Hlist|]. split; [now apply is_type_true|].
    split; [exact Hgen|]. split; [exact Hc|]. split; [exact Hn|].
    destruct (existsb (spacing_infer option) (c0 :: rest)); cbn [negb] in *.
    + left. split; [reflexivity|]. split; [|reflexivity].
      now apply Z.ltb_lt.
    + right. split; [reflexivity|]. split; [|reflexivity].
      now apply Z.ltb_ge.
  - intros (ls & i & child & next & Hlist & Htype & Hgen & Hc & Hn & Hcase).
    exists ls. split; [exact Hlist|]. unfold list_reports.
    rewrite (proj2 (is_type_true _ _) Htype), Hgen. cbn [negb andb].
    destruct (node_children ls) as [|c0 rest] eqn:Hkids; [discriminate|].
    apply in_gap_reports. exists i, child, next.
    split; [exact Hc|]. split; [exact Hn|].
    destruct Hcase as [(Hloose & Hgap & ->) | (Htight & Hgap & ->)].
    + rewrite Hloose. cbn [negb]. split; [now apply Z.ltb_lt | reflexivity].
    + rewrite Htight. cbn [negb]. split; [now apply Z.ltb_ge | reflexivity].
Qed.

(** X13: list-item-spacing never throws.  A list that is not generated is
    loose when [infer] holds of one of its items and tight otherwise; a
    loose list gets ["Missing new line after list item"] between exactly
    the neighbouring items less than 2 lines apart, a tight list gets
    ["Extraneous new line after list item"] between exactly the
    neighbouring items 2 or more lines apart.  A generated list gets
    nothing. *)
Theorem list_item_spacing_reports (tree : Node)
    (option : option ListItemSpacingOptions) :
  fst (run (listItemSpacing tree option)) = Normal tt /\
  forall m,
    In m (diagnostics (listItemSpacing tree option)) <->
    exists ls i child next,
      In ls (nodes_of tree) /\ node_type ls = "list" /\
      V4.generated ls = false /\
      node_children ls !! i = Some child /\
      node_children ls !! (i + 1)%nat = Some next /\
      ((existsb (spacing_infer option) (node_children ls) = true /\
        line_gap next child < 2 /\
        m = warning reasonLoose (item_gap child next)) \/
       (existsb (spacing_infer option) (node_children ls) = false /\
        2 <= line_gap next child /\
        m = warning reasonTight (item_gap child next))).
Proof.
  split; [now rewrite list_item_spacing_run|].
  apply list_item_spacing_diagnostics.
Qed.

Lemma ordered_after_last (line : Z) (children : list Node) (x : Node) :
  ordered_after line children -> last children = Some x ->
  line <= V4.to_number (V4.line (V4.pointEnd (Some x))).
Proof.
  revert line. induction children as [|c rest IH]; intros line Hord Hlast.
  - discriminate.
  - destruct Hord as (H1 & H2 & Hrest). destruct rest as [|c' rest].
    + cbn in Hlast. injection Hlast as <-. lia.
    + change (last (c :: c' :: rest)) with (last (c' :: rest)) in Hlast.
      specialize (IH _ Hrest Hlast). lia.
Qed.

Lemma ordered_after_first_last (line : Z) (c : Node) (rest : list Node)
    (x : Node) :
  ordered_after line (c :: rest) -> last (c :: rest) = Some x ->
  V4.to_number (V4.line (V4.pointStart (Some c))) <=
  V4.to_number (V4.line (V4.pointEnd (Some x))).
Proof.
  intros (H1 & H2 & Hrest) Hlast. destruct rest as [|c' rest].
  - cbn in Hlast. injection Hlast as <-. exact H2.
  - change (last (c :: c' :: rest)) with (last (c' :: rest)) in Hlast.
    pose proof (ordered_after_last _ _ _ Hrest Hlast). lia.
Qed.

Lemma blank_line_loop (child : Node) (rest : list Node) :
  (fix loop (child : Node) (rest : list Node) {struct rest} : bool :=
     match rest with
     | [] => false
     | next :: rest' =>
         if 1 <? line_gap next child then true else loop next rest'
     end) child rest = true ->
  ordered_after (V4.to_number (V4.line (V4.pointEnd (Some child)))) rest ->
  exists x, last (child :: rest) = Some x /\
            V4.to_number (V4.line (V4.pointEnd (Some child))) + 1 <
            V4.to_number (V4.line (V4.pointEnd (Some x))).
Proof.
  revert child. induction rest as [|next rest IH]; intros child Hloop Hord.
  - discriminate.
  - change (last (child :: next :: rest)) with (last (next :: rest)).
    destruct (Z.ltb_spec 1 (line_gap next child)) as [Hgap | Hgap].
    + destruct (last (next :: rest)) as [x|] eqn:Hlast.
      * exists x. split; [reflexivity|].
        pose proof (ordered_after_first_last _ _ _ _ Hord Hlast) as Hle.
        unfold line_gap in Hgap. lia.
      * apply last_None in Hlast. discriminate.
    + destruct Hord as (H1 & H2 & Hrest).
      destruct (IH next Hloop Hrest) as (x & Hlast & Hlt).
      exists x. split; [exact Hlast | lia].
Qed.

(** An item whose children follow each other in the file and that holds a
    blank line spans more than one line. *)
Lemma blank_implies_multiline (item : Node) :
  children_in_order item ->
  inferBlankLine item = true -> inferMultiline item = true.
Proof.
  unfold children_in_order, inferBlankLine, inferMultiline.
  destruct (node_children item) as [|c0 rest]; [discriminate|].
  intros (H0 & H1 & Hrest) Hloop.
  destruct (blank_line_loop c0 rest Hloop Hrest) as (x & Hlast & Hlt).
  rewrite Hlast. cbn [lookup list_lookup]. apply Z.ltb_lt. lia.
Qed.

Lemma existsb_blank_multiline (tree ls : Node) :
  Forall children_in_order (nodes_of tree) ->
  In ls (nodes_of tree) ->
  existsb inferBlankLine (node_children ls) = true ->
  existsb inferMultiline (node_children ls) = true.
Proof.
  intros Hord Hlist Hblank. apply existsb_exists in Hblank.
  destruct Hblank as (item & Hitem & Hblank). apply existsb_exists.
  exists item. split; [exact Hitem|]. apply blank_implies_multiline;
    [|exact Hblank].
  rewrite Forall_forall in Hord. apply Hord, list_elem_of_In.
  apply list_elem_of_In, list_elem_of_lookup_1 in Hitem as (i & Hi).
  exact (nodes_of_children tree ls item i Hlist Hi).
Qed.

(** X14: on a tree where the children of every node follow each other in
    the file, [checkBlanks] only makes list-item-spacing more lenient about
    what is loose: a list item that holds a blank line also spans several
    lines, so every ["Missing new line"] diagnostic given with
    [checkBlanks] is given without it too, and every ["Extraneous new
    line"] diagnostic given without [checkBlanks] is given with it too. *)
Theorem check_blanks_against_default (tree : Node) :
  Forall children_in_order (nodes_of tree) ->
  (forall item, In item (nodes_of tree) ->
     inferBlankLine item = true -> inferMultiline item = true) /\
  (forall m,
     In m (diagnostics
             (listItemSpacing tree (Some {| checkBlanks := true |}))) ->
     reason m = reasonLoose ->
     In m (diagnostics (listItemSpacing tree None))) /\
  (forall m,
     In m (diagnostics (listItemSpacing tree None)) ->
     reason m = reasonTight ->
     In m (diagnostics
             (listItemSpacing tree (Some {| checkBlanks := true |})))).
Proof.
  intros Hord. split; [|split].
  - intros item Hitem. apply blank_implies_multiline.
    rewrite Forall_forall in Hord. now apply Hord, list_elem_of_In.
  - intros m Hm Hreason. apply list_item_spacing_diagnostics in Hm.
    destruct Hm as (ls & i & child & next & Hlist & Htype & Hgen & Hc & Hn
                    & Hcase).
    apply list_item_spacing_diagnostics.
    exists ls, i, child, next. repeat (split; [assumption|]).
    destruct Hcase as [(Hloose & Hgap & ->) | (_ & _ & ->)].
    + left. repeat split; try assumption.
      now apply (existsb_blank_multiline tree).
    + exfalso. now apply reasons_differ.
  - intros m Hm Hreason. apply list_item_spacing_diagnostics in Hm.
    destruct Hm as (ls & i & child & next & Hlist & Htype & Hgen & Hc & Hn
                    & Hcase).
    apply list_item_spacing_diagnostics.
    exists ls, i, child, next. repeat (split; [assumption|]).
    destruct Hcase as [(_ & _ & ->) | (Htight & Hgap & ->)].
    + exfalso. now apply reasons_differ.
    + right. repeat split; try assumption.
      cbn [spacing_infer checkBlanks] in *.
      destruct (existsb inferBlankLine (node_children ls)) eqn:Hblank;
        [|reflexivity].
      rewrite (existsb_blank_multiline tree ls Hord Hlist Hblank) in Htight.
      discriminate.
Qed.

Lemma check_blanks_against_default_witness :
  let paragraph l1 l2 :=
    Example.leaf "paragraph" (Example.span l1 3 0 l2 4 0) in
  let item l1 l2 children :=
    Example.parent "listItem" (Example.span l1 1 0 l2 4 0) children in
  let blank := item 1 3 [paragraph 1 1; paragraph 3 3] in
  let after_blank := item 4 4 [paragraph 4 4] in
  let apart := item 6 6 [paragraph 6 6] in
  let after_apart := item 8 8 [paragraph 8 8] in
  let long := item 10 11 [paragraph 10 11] in
  let after_long := item 12 12 [paragraph 12 12] in
  let tree :=
    Example.parent "root" (Example.span 1 1 0 12 4 0)
      [Example.parent "list" (Example.span 1 1 0 4 4 0) [blank; after_blank];
       Example.parent "list" (Example.span 6 1 0 8 4 0) [apart; after_apart];
       Example.parent "list" (Example.span 10 1 0 12 4 0)
         [long; after_long]] in
  (inferBlankLine blank = true /\ inferBlankLine long = false /\
   inferMultiline long = true) /\
  diagnostics (listItemSpacing tree (Some {| checkBlanks := true |})) =
    [warning reasonLoose (item_gap blank after_blank);
     warning reasonTight (item_gap apart after_apart)] /\
  diagnostics (listItemSpacing tree None) =
    [warning reasonLoose (item_gap blank after_blank);
     warning reasonTight (item_gap apart after_apart);
     warning reasonLoose (item_gap long after_long)] /\
  (forall item, In item (nodes_of tree) ->
     inferBlankLine item = true -> inferMultiline item = true) /\
  (forall m,
     In m (diagnostics
             (listItemSpacing tree (Some {| checkBlanks := true |}))) ->
     reason m = reasonLoose ->
     In m (diagnostics (listItemSpacing tree None))) /\
  (forall m,
     In m (diagnostics (listItemSpacing tree None)) ->
     reason m = reasonTight ->
     In m (diagnostics
             (listItemSpacing tree (Some {| checkBlanks := true |})))).
Proof.
  intros paragraph item blank after_blank apart after_apart long after_long
    tree.
  split; [vm_compute; auto|].
  split; [vm_compute; reflexivity|].
  split; [vm_compute; reflexivity|].
  apply (check_blanks_against_default tree).
  repeat constructor; cbn; lia.
Defined.

(** ** no-missing-blank-lines: [exceptTightLists] *)

Lemma flat_map_ext_in {A B} (f g : A -> list B) (l : list A) :
  (forall x, In x l -> f x = g x) -> flat_map f l = flat_map g l.
Proof.
  induction l as [|x l IH]; intros H; [reflexivity|].
  cbn [flat_map]. rewrite (H x (or_introl eq_refl)), IH; [reflexivity|].
  intros y Hy. apply H. now right.
Qed.

Lemma blank_line_check_except (v : Visit) :
  blank_line_check true v = blank_line_check false v \/
  (blank_line_check true v = [] /\
   exists parent, v_parent v = Some parent /\ node_type parent = "listItem").
Proof.
  unfold blank_line_check.
  destruct (v_parent v) as [parent|]; [|now left].
  destruct (v_index v) as [index|]; [|now left].
  destruct (pointEnd (Some (v_node v))) as [end_|]; [|now left].
  cbn [negb orb].
  destruct (String.eqb_spec (node_type parent) "listItem") as [Hli | Hne].
  - right. split; [reflexivity|]. now exists parent.
  - now left.
Qed.

(** X15: [exceptTightLists] only takes diagnostics away from
    no-missing-blank-lines: what the rule reports with any options is a
    sublist, in the same order, of what it reports without options; and on
    a tree without [listItem] nodes the option changes nothing. *)
Theorem except_tight_lists_reports_less (tree : Node)
    (options : option BlankLinesOptions) :
  sublist (diagnostics (remarkLintNoMissingBlankLines tree options))
          (diagnostics (remarkLintNoMissingBlankLines tree None)) /\
  ((forall n, In n (nodes_of tree) -> node_type n <> "listItem") ->
   run (remarkLintNoMissingBlankLines tree options) =
   run (remarkLintNoMissingBlankLines tree None)).
Proof.
  rewrite !missing_blank_lines_run. unfold diagnostics.
  rewrite !missing_blank_lines_run. cbn [snd except_tight_lists].
  destruct (except_tight_lists options).
  - split.
    + induction (visited false any_node tree) as [|v l IH]; [constructor|].
      cbn [flat_map]. apply sublist_app; [|exact IH].
      destruct (blank_line_check_except v) as [-> | [-> _]];
        [reflexivity | apply sublist_nil_l].
    + intros Hnone. f_equal. apply flat_map_ext_in. intros v Hv.
      destruct (blank_line_check_except v)
        as [E | (_ & parent & Hparent & Htype)]; [exact E|].
      exfalso. rewrite visited_any_node in Hv.
      destruct (walk_parent tree None None v Hv)
        as [-> | (p & i & Hp & _ & _ & Hin)]; [discriminate|].
      rewrite Hparent in Hp. injection Hp as <-.
      exact (Hnone parent Hin Htype).
  - split; [reflexivity | intros _; reflexivity].
Qed.

(** ** Duplicate-by-key rules: counting *)

Lemma latest_None (k : string) (seen : list Occurrence) :
  latest k seen = None <-> ~ In k (map occ_key seen).
Proof.
  unfold latest. split.
  - intros Hnone Hin. apply in_map_iff in Hin as (o & <- & Ho).
    apply in_rev in Ho. pose proof (find_none _ _ Hnone o Ho) as Hf.
    cbn in Hf. rewrite String.eqb_refl in Hf. discriminate.
  - intros Hnot. destruct (List.find _ (rev seen)) as [o|] eqn:Hfind;
      [|reflexivity].
    exfalso. apply find_some in Hfind as [Ho Hkey]. apply Hnot.
    apply in_map_iff. exists o.
    split; [now apply String.eqb_eq | now apply in_rev].
Qed.

Lemma duplicate_reports_nil (reason : string -> string)
    (seen todo : list Occurrence) :
  duplicate_reports reason seen todo = [] <->
  NoDup (map occ_key todo) /\
  forall k, In k (map occ_key todo) -> ~ In k (map occ_key seen).
Proof.
  revert seen. induction todo as [|o rest IH]; intros seen.
  - cbn. split; [intros _; split; [constructor | tauto] | reflexivity].
  - cbn [duplicate_reports map]. rewrite NoDup_cons, list_elem_of_In. split.
    + intros H. apply app_eq_nil in H as [Hlatest Hrest].
      apply IH in Hrest as [Hnodup Hfresh].
      assert (Hnone : latest (occ_key o) seen = None).
      { destruct (latest (occ_key o) seen); [discriminate | reflexivity]. }
      apply latest_None in Hnone.
      split; [split; [|exact Hnodup]|].
      * intros Hin. apply (Hfresh _ Hin). rewrite map_app, in_app_iff.
        right. now left.
      * intros k [<- | Hk]; [exact Hnone|].
        intros Hseen. apply (Hfresh _ Hk). rewrite map_app, in_app_iff.
        now left.
    + intros [[Hnotin Hnodup] Hfresh].
      rewrite (proj2 (latest_None _ _) (Hfresh _ (or_introl eq_refl))).
      cbn [app]. apply IH. split; [exact Hnodup|].
      intros k Hk. rewrite map_app, in_app_iff. cbn.
      intros [Hseen | [<- | []]].
      * exact (Hfresh k (or_intror Hk) Hseen).
      * exact (Hnotin Hk).
Qed.

Lemma duplicate_reports_length (reason : string -> string)
    (seen todo : list Occurrence) :
  (length (duplicate_reports reason seen todo) +
   size (list_to_set (map occ_key (seen ++ todo)) : gset string) =
   length todo + size (list_to_set (map occ_key seen) : gset string))%nat.
Proof.
  revert seen. induction todo as [|o rest IH]; intros seen.
  - now rewrite app_nil_r.
  - cbn [duplicate_reports length].
    rewrite length_app.
    replace (seen ++ o :: rest) with ((seen ++ [o]) ++ rest)
      by now rewrite <- app_assoc.
    specialize (IH (seen ++ [o])).
    assert (Hsnoc : (list_to_set (map occ_key (seen ++ [o])) : gset string) =
                    list_to_set (map occ_key seen) ∪ {[occ_key o]}).
    { rewrite map_app, list_to_set_app_L. cbn [map].
      now rewrite list_to_set_cons, list_to_set_nil, (right_id_L ∅ (∪)). }
    rewrite Hsnoc in IH.
    destruct (latest (occ_key o) seen) as [earlier|] eqn:Hlatest.
    + assert (Hin : occ_key o ∈ (list_to_set (map occ_key seen)
                                  : gset string)).
      { apply elem_of_list_to_set, list_elem_of_In.
        destruct (in_dec string_dec (occ_key o) (map occ_key seen))
          as [H | H]; [exact H|].
        apply latest_None in H. congruence. }
      assert (E : (list_to_set (map occ_key seen) : gset string) ∪
                  {[occ_key o]} = list_to_set (map occ_key seen)).
      { rewrite (comm_L (∪)). apply subseteq_union_1_L.
        now apply singleton_subseteq_l. }
      rewrite E in IH. cbn [length]. lia.
    + apply latest_None in Hlatest.
      assert (Hsize : size ((list_to_set (map occ_key seen) : gset string) ∪
                            {[occ_key o]}) =
                      S (size (list_to_set (map occ_key seen)
                               : gset string))).
      { rewrite size_union, size_singleton; [lia|].
        apply disjoint_singleton_r. intros Hin. apply Hlatest.
        apply elem_of_list_to_set in Hin. now apply list_elem_of_In. }
      rewrite Hsize in IH. cbn [length]. lia.
Qed.

Section DuplicateCounting.
Variable toString : Node -> string.
Variable toUpperCase : string -> string.

(** X16: for no-duplicate-definitions and no-duplicate-headings alike, the
    run is silent exactly when the keys of the positioned qualifying
    nodes are all different, and in general the number of diagnostics is
    the number of those nodes minus the number of different keys: every
    repetition of a key is reported, once. *)
Theorem duplicates_counted (rule : DuplicateRule) (tree : Node) :
  (diagnostics (duplicate_rule toString toUpperCase rule tree) = [] <->
   NoDup (map occ_key (occurrences toString toUpperCase rule tree))) /\
  (length (diagnostics (duplicate_rule toString toUpperCase rule tree)) +
   size (list_to_set
           (map occ_key (occurrences toString toUpperCase rule tree))
         : gset string) =
   length (occurrences toString toUpperCase rule tree))%nat.
Proof.
  unfold diagnostics. rewrite duplicate_rule_run. cbn [snd]. split.
  - rewrite duplicate_reports_nil. cbn. tauto.
  - pose proof (duplicate_reports_length (duplicate_reason rule) []
                  (occurrences toString toUpperCase rule tree)) as H.
    cbn [app map list_to_set] in H. rewrite size_empty in H. lia.
Qed.

End DuplicateCounting.

(** ** no-duplicate-headings-in-section: what a section holds *)

Lemma find_app_found {A} (f : A -> bool) (l1 l2 : list A) (x : A) :
  f x = true ->
  exists e, List.find f (l1 ++ x :: l2) = Some e /\ In e (l1 ++ [x]) /\
            f e = true.
Proof.
  intros Hx. induction l1 as [|y l1 IH]; cbn [app List.find].
  - rewrite Hx. exists x. cbn. auto.
  - destruct (f y) eqn:Hy.
    + exists y. cbn. auto.
    + destruct IH as (e & Hfind & Hin & He). exists e. cbn. auto.
Qed.

Section SectionContents.
Variable toString : Node -> string.
Variable toUpperCase : string -> string.

Lemma section_reports_app (seen l1 l2 : list Node) :
  section_reports toString toUpperCase seen (l1 ++ l2) =
  section_reports toString toUpperCase seen l1 ++
  section_reports toString toUpperCase (rev l1 ++ seen) l2.
Proof.
  revert seen. induction l1 as [|x l1 IH]; intros seen; [reflexivity|].
  cbn [app section_reports rev]. rewrite IH, <- !app_assoc. reflexivity.
Qed.

Lemma section_scope_through (depth : nat) (l rest : list Node) :
  Forall (fun h => (depth <= heading_depth h)%nat) l ->
  section_scope depth (l ++ rest) =
  List.filter (fun h => (heading_depth h =? depth)%nat) l ++
  section_scope depth rest.
Proof.
  induction 1 as [|h l Hh _ IH]; [reflexivity|].
  cbn [app section_scope List.filter].
  rewrite (proj2 (Nat.ltb_ge _ _) Hh), IH.
  now destruct (heading_depth h =? depth)%nat.
Qed.

Lemma in_section_run_spec (tree : Node) :
  run (noDuplicateHeadingsInSection toString toUpperCase tree) =
    (Normal tt, section_reports toString toUpperCase [] (headings tree)).
Proof.
  rewrite in_section_run.
  exact (f_equal _ (in_section_reports_spec toString toUpperCase []
                      (headings tree))).
Qed.

(** A heading [w] met after [v], of the same depth and text, with nothing
    shallower in between, is compared with a heading of its text. *)
Lemma in_section_found (tree : Node) (pre mid post : list Node) (v w : Node) :
  headings tree = pre ++ v :: mid ++ w :: post ->
  heading_depth v = heading_depth w ->
  heading_key toString toUpperCase v = heading_key toString toUpperCase w ->
  Forall (fun h => (heading_depth w <= heading_depth h)%nat) mid ->
  V4.generated w = false ->
  exists earlier,
    In earlier (v :: mid) /\
    heading_depth earlier = heading_depth w /\
    heading_key toString toUpperCase earlier =
      heading_key toString toUpperCase w /\
    In (in_section_report w earlier)
       (diagnostics (noDuplicateHeadingsInSection toString toUpperCase tree)).
Proof.
  intros Hsplit Hdepth Hkey Hmid Hgen.
  unfold diagnostics. rewrite in_section_run_spec, Hsplit. cbn [snd].
  replace (pre ++ v :: mid ++ w :: post)
    with ((pre ++ v :: mid) ++ w :: post)
    by (rewrite <- app_assoc; reflexivity).
  rewrite section_reports_app, app_nil_r. cbn [section_reports].
  rewrite rev_app_distr. cbn [rev]. rewrite <- app_assoc. cbn [app].
  rewrite section_scope_through by (apply Forall_rev; exact Hmid).
  cbn [section_scope].
  rewrite Hdepth, Nat.ltb_irrefl, Nat.eqb_refl.
  destruct (find_app_found
              (fun e => String.eqb (heading_key toString toUpperCase e)
                          (heading_key toString toUpperCase w))
              (List.filter (fun h => (heading_depth h =? heading_depth w)%nat)
                 (rev mid))
              (section_scope (heading_depth w) (rev pre)) v)
    as (earlier & Hfind & Hin & Hk).
  { apply String.eqb_eq. exact Hkey. }
  rewrite Hfind, Hgen. cbn [negb].
  exists earlier. apply in_app_iff in Hin.
  assert (Hwhere : In earlier (v :: mid) /\
                   heading_depth earlier = heading_depth w).
  { destruct Hin as [Hin | [<- | []]].
    - apply filter_In in Hin as [Hin Hd]. split.
      + right. now apply in_rev.
      + now apply Nat.eqb_eq.
    - split; [now left | exact Hdepth]. }
  destruct Hwhere as [Hwhere Hd].
  split; [exact Hwhere|]. split; [exact Hd|].
  split; [now apply String.eqb_eq|].
  apply in_app_iff. right. apply in_app_iff. left. now left.
Qed.

(** X17: in no-duplicate-headings-in-section, a heading [w] with a position
    that repeats the depth and the text of an earlier heading [v] is
    reported whenever no heading between them is shallower than they are,
    however many deeper or equally deep headings lie between; the
    diagnostic cites a heading of that depth and text from [v] on.  For
    headings of depth 1 the condition always holds: they are compared
    across the whole document. *)
Theorem section_duplicates_found (tree : Node) (pre mid post : list Node)
    (v w : Node) :
  headings tree = pre ++ v :: mid ++ w :: post ->
  heading_depth v = heading_depth w ->
  heading_key toString toUpperCase v = heading_key toString toUpperCase w ->
  heading_depth w = 1%nat \/
  Forall (fun h => (heading_depth w <= heading_depth h)%nat) mid ->
  V4.generated w = false ->
  exists earlier,
    In earlier (v :: mid) /\
    heading_depth earlier = heading_depth w /\
    heading_key toString toUpperCase earlier =
      heading_key toString toUpperCase w /\
    In (in_section_report w earlier)
       (diagnostics (noDuplicateHeadingsInSection toString toUpperCase tree)).
Proof.
  intros Hsplit Hdepth Hkey Hmid Hgen.
  apply (in_section_found tree pre mid post v w Hsplit Hdepth Hkey);
    [|exact Hgen].
  destruct Hmid as [Hone | Hmid]; [|exact Hmid].
  rewrite Hone. apply Forall_forall. intros h _. apply heading_depth_pos.
Qed.

(** Every diagnostic of the rule is placed at a heading that is not
    generated. *)
Lemma section_report_placed (seen todo : list Node) (m : VFileMessage) :
  In m (section_reports toString toUpperCase seen todo) ->
  exists w, In w todo /\ V4.generated w = false /\ place m = AtNode w.
Proof.
  revert seen. induction todo as [|n rest IH]; intros seen; [intros []|].
  cbn [section_reports]. rewrite in_app_iff. intros [Hm | Hm].
  - destruct (List.find _ (section_scope (heading_depth n) seen))
      as [e|]; [|destruct Hm].
    destruct (V4.generated n) eqn:Hgen; [destruct Hm|].
    destruct Hm as [<- | []]. exists n. cbn. auto.
  - destruct (IH _ Hm) as (w & Hw & Hgen & Hplace).
    exists w. cbn. auto.
Qed.

(** X18: a generated heading [v] is never reported, but it is remembered.
    When the next heading [w] has its depth and text and is not generated,
    the run is: the diagnostics of the headings before [v], nothing for
    [v], one diagnostic at [w] that cites the start of [v] as
    [stringifyPosition] prints it, then the diagnostics of the headings
    after [w].  A heading without any position is cited as [1:1]. *)
Theorem generated_heading_is_remembered (tree : Node)
    (pre post : list Node) (v w : Node) :
  headings tree = pre ++ v :: w :: post ->
  heading_depth v = heading_depth w ->
  heading_key toString toUpperCase v = heading_key toString toUpperCase w ->
  V4.generated v = true ->
  V4.generated w = false ->
  (forall m,
     In m (diagnostics (noDuplicateHeadingsInSection toString toUpperCase
                          tree)) ->
     place m <> AtNode v) /\
  run (noDuplicateHeadingsInSection toString toUpperCase tree) =
    (Normal tt,
     section_reports toString toUpperCase [] pre ++
     warning ("Do not use headings with similar content per section (" +:+
              V4.stringifyPosition (V4.pointStart (Some v)) +:+ ")")
       (AtNode w) ::
     section_reports toString toUpperCase (w :: v :: rev pre) post) /\
  (node_position v = None ->
   V4.stringifyPosition (V4.pointStart (Some v)) = "1:1").
Proof.
  intros Hsplit Hdepth Hkey Hv Hw. split; [|split].
  - intros m Hm. unfold diagnostics in Hm.
    rewrite in_section_run_spec in Hm. cbn [snd] in Hm.
    apply section_report_placed in Hm as (n & _ & Hgen & ->).
    intros [= ->]. congruence.
  - rewrite in_section_run_spec, Hsplit, section_reports_app, app_nil_r.
    f_equal. f_equal. cbn [section_reports]. rewrite Hv. cbn [negb].
    assert (Hnone :
      match List.find
              (fun e => String.eqb (heading_key toString toUpperCase e)
                          (heading_key toString toUpperCase v))
              (section_scope (heading_depth v) (rev pre)) with
      | Some _ => [] | None => []
      end = ([] : list VFileMessage)).
    { now destruct (List.find _ _). }
    rewrite Hnone. cbn [app section_scope].
    rewrite Hdepth, Nat.ltb_irrefl, Nat.eqb_refl. cbn [List.find].
    rewrite Hkey, String.eqb_refl, Hw. reflexivity.
  - intros Hpos. unfold V4.stringifyPosition, V4.pointStart, V4.start_of.
    rewrite Hpos. reflexivity.
Qed.

End SectionContents.

Lemma section_duplicates_found_witness :
  let tree := Example.root [Example2.heading 1 1 "Alpha";
                            Example2.heading 2 3 "Bravo";
                            Example2.heading 1 5 "Alpha"] in
  exists earlier,
    In earlier [Example2.heading 1 1 "Alpha"; Example2.heading 2 3 "Bravo"] /\
    heading_depth earlier = heading_depth (Example2.heading 1 5 "Alpha") /\
    heading_key Example2.flat_text Example2.upper earlier =
      heading_key Example2.flat_text Example2.upper
        (Example2.heading 1 5 "Alpha") /\
    In (in_section_report (Example2.heading 1 5 "Alpha") earlier)
       (diagnostics
          (noDuplicateHeadingsInSection Example2.flat_text Example2.upper
             tree)).
Proof.
  intros tree.
  apply (section_duplicates_found Example2.flat_text Example2.upper tree
           [] [Example2.heading 2 3 "Bravo"] []
           (Example2.heading 1 1 "Alpha") (Example2.heading 1 5 "Alpha")).
  - reflexivity.
  - reflexivity.
  - reflexivity.
  - left. reflexivity.
  - reflexivity.
Defined.

Lemma generated_heading_is_remembered_witness :
  let generated :=
    mkNode "heading" None [Example2.text "Alpha"] None "" 2%positive in
  let w := Example2.heading 2 3 "Alpha" in
  let tree := Example.root [generated; w] in
  (forall m,
     In m (diagnostics
             (noDuplicateHeadingsInSection Example2.flat_text Example2.upper
                tree)) ->
     place m <> AtNode generated) /\
  run (noDuplicateHeadingsInSection Example2.flat_text Example2.upper tree) =
    (Normal tt,
     [warning "Do not use headings with similar content per section (1:1)"
        (AtNode w)]) /\
  (node_position generated = None ->
   V4.stringifyPosition (V4.pointStart (Some generated)) = "1:1").
Proof.
  intros generated w tree.
  apply (generated_heading_is_remembered Example2.flat_text Example2.upper
           tree [] [] generated w);
    reflexivity.
Defined.

(** ** final-definition: what is reported, and when nothing is *)

Lemma walk_children_in_reverse (node : Node) (cs : list Node) (i : nat)
    (x : Visit) :
  In x (walk_children true node i cs) <->
  exists j c, cs !! j = Some c /\
              In x (walk true (Some (i + j)%nat) (Some node) c).
Proof.
  revert i. induction cs as [|c cs IH]; intros i.
  - split; [intros [] | intros (j & c & Hj & _); discriminate].
  - cbn [walk_children]. rewrite in_app_iff, IH. split.
    + intros [(j & c' & Hj & Hx) | Hx].
      * exists (S j), c'. rewrite Nat.add_succ_r. auto.
      * exists 0%nat, c. rewrite Nat.add_0_r. auto.
    + intros (j & c' & Hj & Hx). destruct j as [|j].
      * right. cbn in Hj. injection Hj as <-. now rewrite Nat.add_0_r in Hx.
      * left. exists j, c'. rewrite Nat.add_succ_r in Hx. auto.
Qed.

(** A traversal in reverse makes the same visits as one in document
    order. *)
Lemma walk_reverse_in (node : Node) :
  forall (index : option nat) (parent : option Node) (v : Visit),
    In v (walk true index parent node) <-> In v (walk false index parent node).
Proof.
  induction node as [node IH] using node_induction.
  intros index parent v. rewrite !walk_unfold. cbn [In].
  rewrite walk_children_in, walk_children_in_reverse.
  rewrite Forall_forall in IH.
  split; (intros [Hroot | (j & c & Hj & Hv)]; [now left | right]);
    exists j, c; (split; [exact Hj|]);
    apply (IH c (list_elem_of_lookup_2 _ _ _ Hj)); exact Hv.
Qed.

Lemma visited_reverse_node (tree : Node) (v : Visit) :
  In v (visited true any_node tree) -> In (v_node v) (nodes_of tree).
Proof.
  unfold visited. intros Hv. apply filter_In in Hv as [Hv _].
  apply walk_reverse_in in Hv. unfold nodes_of. now apply in_map.
Qed.

Lemma first_content_split (l : list Visit) :
  Forall (fun v => content_line (v_node v) = None) l \/
  exists pre c post remembered,
    l = pre ++ c :: post /\
    Forall (fun v => content_line (v_node v) = None) pre /\
    content_line (v_node c) = Some remembered.
Proof.
  induction l as [|v l IH]; [left; constructor|].
  destruct (content_line (v_node v)) as [r|] eqn:Hv.
  - right. exists [], v, l, r. repeat split; [constructor | exact Hv].
  - destruct IH as [IH | (pre & c & post & r & -> & Hpre & Hc)].
    + left. now constructor.
    + right. exists (v :: pre), c, post, r.
      repeat split; [now constructor | exact Hc].
Qed.

(** The run of final-definition on any tree. *)
Lemma final_definition_run (tree : Node) :
  run (remarkLintFinalDefinition tree) = (Normal tt, []) \/
  exists pre c post remembered,
    visited true any_node tree = pre ++ c :: post /\
    content_line (v_node c) = Some remembered /\
    run (remarkLintFinalDefinition tree) =
      (Normal tt,
       map (final_definition_report remembered)
         (List.filter (definition_before remembered) post)).
Proof.
  destruct (first_content_split (visited true any_node tree))
    as [Hnone | (pre & c & post & r & Hsplit & Hpre & Hc)].
  - left. apply emits_run. unfold remarkLintFinalDefinition, visit.
    fold (visited true any_node tree).
    apply emits_bind_ret with (a := 0).
    now apply final_definition_each_before.
  - right. exists pre, c, post, r. split; [exact Hsplit|].
    split; [exact Hc|].
    pose proof (content_line_positive _ _ Hc) as Hpos.
    apply emits_run. unfold remarkLintFinalDefinition, visit.
    fold (visited true any_node tree). rewrite Hsplit.
    apply emits_bind_ret with (a := r).
    intros ms. rewrite each_app.
    apply (emits_bind_silent _ _ 0 r _
             (final_definition_each_before pre Hpre)).
    apply emits_each_cons with (s' := r) (o1 := []).
    + rewrite final_definition_visitor_step. unfold content_line in Hc.
      destruct (node_class (v_node c)); try discriminate.
      injection Hc as ->. apply emits_ret.
    + now apply final_definition_each_after.
Qed.

Lemma definition_before_inv (remembered : Z) (v : Visit) :
  definition_before remembered v = true ->
  exists start,
    node_type (v_node v) = "definition" /\
    pointStart (Some (v_node v)) = Some start /\
    node_class (v_node v) = DefinitionAt (line start) /\
    line start < remembered.
Proof.
  unfold definition_before, node_class.
  destruct (pointStart (Some (v_node v))) as [start|]; [|discriminate].
  destruct (is_type "root" (v_node v) || _); [discriminate|].
  destruct (is_type "definition" (v_node v)) eqn:Htype; [|discriminate].
  intros Hlt. exists start. apply is_type_true in Htype.
  apply Z.ltb_lt in Hlt. auto.
Qed.

(** X19: final-definition never throws, reports definitions only, and all
    diagnostics of one run cite one and the same line: each is at a
    definition of the tree whose start resolves to a line before the cited
    one, and when anything is reported the cited line is the start line of
    a content node of the tree. *)
Theorem final_definition_reports_definitions (tree : Node) :
  fst (run (remarkLintFinalDefinition tree)) = Normal tt /\
  exists remembered,
    (diagnostics (remarkLintFinalDefinition tree) <> [] ->
     exists c, In c (nodes_of tree) /\ content_line c = Some remembered) /\
    forall m,
      In m (diagnostics (remarkLintFinalDefinition tree)) ->
      exists n start,
        In n (nodes_of tree) /\ node_type n = "definition" /\
        pointStart (Some n) = Some start /\ line start < remembered /\
        m = warning (final_definition_reason remembered) (AtNode n).
Proof.
  destruct (final_definition_run tree)
    as [Hrun | (pre & c & post & r & Hsplit & Hc & Hrun)].
  - split; [now rewrite Hrun|]. exists 0. unfold diagnostics.
    rewrite Hrun. cbn [snd]. split; [congruence | intros m []].
  - split; [now rewrite Hrun|]. exists r. unfold diagnostics.
    rewrite Hrun. cbn [snd]. split.
    + intros _. exists (v_node c). split; [|exact Hc].
      apply visited_reverse_node. rewrite Hsplit.
      apply in_app_iff. right. now left.
    + intros m Hm. apply in_map_iff in Hm as (v & <- & Hv).
      apply filter_In in Hv as [Hv Hbefore].
      destruct (definition_before_inv _ _ Hbefore)
        as (start & Htype & Hstart & _ & Hlt).
      exists (v_node v), start.
      split.
      { apply visited_reverse_node. rewrite Hsplit.
        apply in_app_iff. right. now right. }
      repeat split; assumption.
Qed.

(** X20: when no definition of the tree starts before a content node of
    the tree (every definition starts on or after the line of every
    positioned node that is not the root, a definition or an HTML
    comment), final-definition reports nothing. *)
Theorem final_definition_silent_when_last (tree : Node) :
  (forall d c ld lc,
     In d (nodes_of tree) -> In c (nodes_of tree) ->
     node_class d = DefinitionAt ld -> content_line c = Some lc ->
     lc <= ld) ->
  run (remarkLintFinalDefinition tree) = (Normal tt, []).
Proof.
  intros Hlast.
  destruct (final_definition_run tree)
    as [Hrun | (pre & c & post & r & Hsplit & Hc & Hrun)]; [exact Hrun|].
  rewrite Hrun. f_equal.
  assert (Hnone : List.filter (definition_before r) post = []).
  { assert (Hall : forall v, In v post -> definition_before r v = false).
    { intros v Hv. destruct (definition_before r v) eqn:Hbefore;
        [|reflexivity].
      exfalso.
      destruct (definition_before_inv _ _ Hbefore)
        as (start & _ & _ & Hclass & Hlt).
      assert (Hle : r <= line start).
      { apply (Hlast (v_node v) (v_node c) (line start) r);
          [| |exact Hclass | exact Hc];
          apply visited_reverse_node; rewrite Hsplit; apply in_app_iff;
          right; [now right | now left]. }
      lia. }
    clear Hrun Hsplit. induction post as [|v post IH]; [reflexivity|].
    cbn [List.filter]. rewrite (Hall v (or_introl eq_refl)).
    apply IH. intros v' Hv'. apply Hall. now right. }
  now rewrite Hnone.
Qed.

Lemma final_definition_silent_when_last_witness :
  run (remarkLintFinalDefinition
         (Example.root [Example.leaf "paragraph" (Example.span 1 1 0 1 11 10);
                        Example2.definition 3 "example"])) = (Normal tt, []).
Proof.
  apply (final_definition_silent_when_last
           (Example.root
              [Example.leaf "paragraph" (Example.span 1 1 0 1 11 10);
               Example2.definition 3 "example"])).
  intros d c ld lc Hd Hc Hclass Hcontent.
  cbn in Hd, Hc.
  destruct Hd as [<- | [<- | [<- | []]]];
    vm_compute in Hclass; try discriminate;
    destruct Hc as [<- | [<- | [<- | []]]];
    vm_compute in Hcontent; try discriminate.
  injection Hclass as <-. injection Hcontent as <-. lia.
Defined.

(** ** rule-style: the older version against the current one *)

Lemma ruleStyle_visitor_step (contents : string) (v : Visit)
    (preferred : option string) :
  complete_position (v_node v) ->
  ruleStyle_visitor contents v preferred =
  match rule_of contents (v_node v) with
  | Some o =>
      match preferred with
      | Some p =>
          if truthy p then
            when (rule_differs (snd o) p)
              (message (rule_style_reason p) (AtNode (fst o))) ;;;
            lint_ret preferred
          else lint_ret (Some (snd o))
      | None => lint_ret (Some (snd o))
      end
  | None => lint_ret preferred
  end.
Proof.
  unfold complete_position, ruleStyle_visitor, rule_of, V4.generated,
    V4.pointStart, V4.pointEnd, V4.start_of, V4.end_of, pointStart, pointEnd,
    resolve_point.
  destruct (node_position (v_node v)) as [pos|]; [|reflexivity].
  intros (H1 & H2 & H3 & H4 & (a & Ha & Ha0) & (b & Hb & Hb0)).
  cbn [option_map V4.offset V4.offset_or_null].
  rewrite Ha, Hb.
  rewrite (proj2 (Z.ltb_lt 0 _) H1), (proj2 (Z.ltb_lt 0 _) H2),
    (proj2 (Z.ltb_lt 0 _) H3), (proj2 (Z.ltb_lt 0 _) H4).
  rewrite (proj2 (Z.eqb_neq _ 0)), (proj2 (Z.eqb_neq _ 0)),
    (proj2 (Z.eqb_neq _ 0)), (proj2 (Z.eqb_neq _ 0)) by lia.
  rewrite (proj2 (Z.ltb_lt (-1) a)), (proj2 (Z.ltb_lt (-1) b)) by lia.
  cbn. reflexivity.
Qed.

Lemma ruleStyle_each_concrete (contents : string) (l : list Visit)
    (p : string) :
  truthy p = true ->
  Forall (fun v => complete_position (v_node v)) l ->
  emits (each (ruleStyle_visitor contents) l (Some p)) (Some p)
    (map (rule_report p)
       (List.filter (fun o => rule_differs (snd o) p)
          (rule_observations contents l))).
Proof.
  intros Hp. induction 1 as [|v l Hv _ IH]; [apply emits_ret|].
  unfold rule_observations. cbn [each omap list_omap].
  fold (rule_observations contents l).
  rewrite (ruleStyle_visitor_step contents v (Some p) Hv), Hp.
  destruct (rule_of contents (v_node v)) as [o|].
  - cbn [List.filter]. destruct (rule_differs (snd o) p); cbn [when map].
    + change (?x :: ?r) with ([x] ++ r).
      eapply emits_bind; [|exact IH].
      eapply emits_bind_ret. apply emits_message.
    + eapply emits_bind_silent; [|exact IH].
      eapply emits_bind_ret. apply emits_ret.
  - eapply emits_bind_silent; [apply emits_ret | exact IH].
Qed.

Lemma ruleStyle_each_consistent (contents : string) (l : list Visit)
    (preferred : option string) :
  preferred = None \/ preferred = Some ""%string ->
  Forall (fun v => complete_position (v_node v)) l ->
  Forall (fun o => snd o <> ""%string) (rule_observations contents l) ->
  exists preferred',
    emits (each (ruleStyle_visitor contents) l preferred) preferred'
      (rule_reports None (rule_observations contents l)).
Proof.
  intros Hpreferred Hl. induction Hl as [|v l Hv Hl IH]; intros Hobs.
  - exists preferred. apply emits_ret.
  - unfold rule_observations in *. cbn [each omap list_omap] in *.
    fold (rule_observations contents l) in *.
    rewrite (ruleStyle_visitor_step contents v preferred Hv).
    destruct (rule_of contents (v_node v)) as [o|] eqn:Ho.
    + exists (Some (snd o)).
      apply emits_bind_silent with (a := Some (snd o)).
      * destruct Hpreferred as [-> | ->]; apply emits_ret.
      * unfold rule_reports. cbn [preferred_value head option_map flagged].
        apply ruleStyle_each_concrete; [|exact Hl].
        apply Forall_inv in Hobs. unfold truthy.
        now apply negb_true_iff, String.eqb_neq.
    + destruct (IH Hobs) as (preferred' & IH'). exists preferred'.
      eapply emits_bind_silent; [apply emits_ret | exact IH'].
Qed.

Lemma visited_complete (tree : Node) (test : Node -> bool) :
  Forall complete_position (nodes_of tree) ->
  Forall (fun v => complete_position (v_node v)) (visited false test tree).
Proof.
  intros Hall. apply Forall_forall. intros v Hv.
  apply list_elem_of_In in Hv. unfold visited in Hv.
  apply filter_In in Hv as [Hv _].
  rewrite Forall_forall in Hall. apply Hall, list_elem_of_In.
  unfold nodes_of. now apply in_map.
Qed.

(** X21: the older version of rule-style ([ruleStyle], which tests
    [generated(node)] and keeps [null] until a style is known) and the
    current one (which tests the points and keeps ['consistent']) run
    alike: on a tree whose positions are complete, and when no observed
    rule text is empty or reads ['consistent'], both throw the same
    failure or give the same diagnostics, for every option. *)
Theorem rule_style_versions_agree (tree : Node) (file : string)
    (options : option string) :
  Forall complete_position (nodes_of tree) ->
  Forall (fun o => snd o <> ""%string /\ snd o <> "consistent"%string)
    (rule_observations file
       (visited false (is_type "thematicBreak") tree)) ->
  run (ruleStyle tree file options) =
  run (remarkLintRuleStyle tree file options).
Proof.
  intros Hcomplete Hobs.
  pose proof (visited_complete tree (is_type "thematicBreak") Hcomplete)
    as Hvisits.
  assert (Hnonempty :
    Forall (fun o => snd o <> ""%string)
      (rule_observations file
         (visited false (is_type "thematicBreak") tree))).
  { eapply Forall_impl; [exact Hobs|]. cbn. tauto. }
  assert (Hinfer : forall preferred,
    preferred = None \/ preferred = Some ""%string ->
    forall options', infers_style options' ->
    emits (_ <- visit tree (is_type "thematicBreak")
                  (ruleStyle_visitor file) false preferred ;;
           lint_ret tt) tt
      (snd (run (remarkLintRuleStyle tree file options')))).
  { intros preferred Hpreferred options' Hinfers.
    rewrite (rule_style_run_consistent tree file options' Hinfers).
    cbn [snd]. rewrite rule_inferred_first.
    - destruct (ruleStyle_each_consistent file _ preferred Hpreferred
                  Hvisits Hnonempty) as (p' & Hp').
      eapply emits_bind_ret. exact Hp'.
    - intros o Hhead. destruct (rule_observations _ _) as [|o' later];
        [discriminate|].
      injection Hhead as ->. apply Forall_inv in Hobs. tauto. }
  destruct options as [o|].
  - destruct (String.eqb o "consistent") eqn:Hc.
    + apply String.eqb_eq in Hc. subst o.
      rewrite (rule_style_run_consistent tree file (Some "consistent"%string))
        by (right; now left).
      apply emits_run. unfold ruleStyle. cbn [String.eqb Ascii.eqb negb when].
      apply emits_bind_silent with (a := tt); [apply emits_ret|].
      specialize (Hinfer None (or_introl eq_refl) (Some "consistent"%string)
                    (or_intror (or_introl eq_refl))).
      rewrite (rule_style_run_consistent tree file (Some "consistent"%string))
        in Hinfer by (right; now left).
      exact Hinfer.
    + destruct (String.eqb o "") eqn:He.
      * apply String.eqb_eq in He. subst o.
        rewrite (rule_style_run_consistent tree file (Some ""%string))
          by (right; now right).
        apply emits_run. unfold ruleStyle. cbn [String.eqb negb].
        cbn [has_non_marker when].
        apply emits_bind_silent with (a := tt); [apply emits_ret|].
        specialize (Hinfer (Some ""%string) (or_intror eq_refl)
                      (Some ""%string) (or_intror (or_intror eq_refl))).
        rewrite (rule_style_run_consistent tree file (Some ""%string))
          in Hinfer by (right; now right).
        exact Hinfer.
      * apply String.eqb_neq in Hc, He.
        destruct (has_non_marker o) eqn:Hmarker.
        -- rewrite (rule_style_run_invalid tree file o He Hc Hmarker).
           unfold run, ruleStyle.
           rewrite (proj2 (String.eqb_neq _ _) Hc). cbn [negb].
           rewrite Hmarker. reflexivity.
        -- rewrite (rule_style_run_concrete tree file o He Hc Hmarker).
           apply emits_run. unfold ruleStyle.
           rewrite (proj2 (String.eqb_neq _ _) Hc). cbn [negb].
           rewrite Hmarker. cbn [when].
           apply emits_bind_silent with (a := tt); [apply emits_ret|].
           eapply emits_bind_ret.
           apply ruleStyle_each_concrete; [|exact Hvisits].
           unfold truthy. now apply negb_true_iff, String.eqb_neq.
  - rewrite (rule_style_run_consistent tree file None) by now left.
    apply emits_run. unfold ruleStyle. cbn [when].
    apply emits_bind_silent with (a := tt); [apply emits_ret|].
    specialize (Hinfer None (or_introl eq_refl) None (or_introl eq_refl)).
    rewrite (rule_style_run_consistent tree file None) in Hinfer
      by now left.
    exact Hinfer.
Qed.

Lemma rule_style_versions_agree_witness :
  run (ruleStyle Example.rules_and_quotes Example.two_rules_file None) =
  run (remarkLintRuleStyle Example.rules_and_quotes Example.two_rules_file
         None).
Proof.
  apply (rule_style_versions_agree Example.rules_and_quotes
           Example.two_rules_file None).
  - repeat constructor; cbn; try lia; eexists; split; try reflexivity; lia.
  - repeat constructor; cbn; discriminate.
Defined.

(** ** blockquote-indentation: uniform documents *)

(** X22: without a configured width, blockquote-indentation is silent
    exactly when all block quotes it observes (those whose start and whose
    first child's start resolve) are indented alike. *)
Theorem blockquote_silent_iff_uniform (tree : Node) :
  run (remarkLintBlockquoteIndentation tree None) = (Normal tt, []) <->
  forall o o',
    In o (indent_observations (visited false (is_type "blockquote") tree)) ->
    In o' (indent_observations (visited false (is_type "blockquote") tree)) ->
    snd o = snd o'.
Proof.
  rewrite blockquote_run. cbn [effective_indent].
  generalize (indent_observations
                (visited false (is_type "blockquote") tree)) as obs.
  intros obs. unfold indent_reports.
  destruct obs as [|first later]; cbn [preferred_value head option_map flagged].
  - split; [intros _ o o' [] | reflexivity].
  - assert (Hfilter :
      List.filter (fun o => indent_differs (snd o) (snd first)) later = [] <->
      forall o, In o later -> snd o = snd first).
    { induction later as [|x later IH]; cbn [List.filter].
      - split; [intros _ o [] | reflexivity].
      - unfold indent_differs at 1.
        destruct (Z.eqb_spec (snd first - snd x) 0) as [Heq | Hne];
          cbn [negb].
        + rewrite IH. split.
          * intros H o [<- | Ho]; [lia | now apply H].
          * intros H o Ho. apply H. now right.
        + split; [discriminate|]. intros H. exfalso. apply Hne.
          rewrite (H x (or_introl eq_refl)). lia. }
    split.
    + intros Hrun. injection Hrun as Hmap.
      assert (Hnil : List.filter
                       (fun o => indent_differs (snd o) (snd first)) later =
                     []).
      { destruct (List.filter _ later); [reflexivity | discriminate]. }
      pose proof (proj1 Hfilter Hnil) as Hsame. clear Hmap.
      assert (Hall : forall o, In o (first :: later) -> snd o = snd first).
      { intros o [<- | Ho]; [reflexivity | now apply Hsame]. }
      intros o o' Ho Ho'. now rewrite (Hall o Ho), (Hall o' Ho').
    + intros Hall. f_equal.
      rewrite (proj2 Hfilter); [reflexivity|].
      intros o Ho. apply Hall; [now right | now left].
Qed.

(** ** no-missing-blank-lines: all diagnostics *)

Lemma blank_line_check_pair (except : bool) (v : Visit) :
  blank_line_check except v =
  match sibling_pair v with
  | Some t => if lacks_blank_line except t
              then [missing_blank_line (snd t)] else []
  | None => []
  end.
Proof.
  unfold blank_line_check, sibling_pair, lacks_blank_line.
  destruct (v_parent v) as [parent|]; [|reflexivity].
  destruct (v_index v) as [index|]; [|reflexivity].
  destruct (node_children parent !! (index + 1)%nat) as [next|];
    cbn [option_map snd].
  - destruct (pointEnd (Some (v_node v))) as [ea|]; [|reflexivity].
    destruct (pointStart (Some next)) as [sb|];
      [|now destruct (negb except || _)].
    destruct except, (String.eqb (node_type parent) "listItem"),
      (bool_decide (node_type next ∈ types)), (line sb =? line ea + 1);
      reflexivity.
  - destruct (pointEnd (Some (v_node v))) as [ea|]; [|reflexivity].
    now destruct (negb except || _).
Qed.

Lemma blank_line_checks_pairs (except : bool) (l : list Visit) :
  flat_map (blank_line_check except) l =
  map (fun t => missing_blank_line (snd t))
    (List.filter (lacks_blank_line except) (omap sibling_pair l)).
Proof.
  induction l as [|v l IH]; [reflexivity|].
  cbn [flat_map omap list_omap]. rewrite IH, blank_line_check_pair.
  destruct (sibling_pair v) as [t|]; [|reflexivity].
  cbn [List.filter]. now destruct (lacks_blank_line except t).
Qed.

Lemma in_sibling_pairs (tree parent a b : Node) :
  In (parent, a, b) (sibling_pairs tree) <->
  exists i,
    In parent (nodes_of tree) /\
    node_children parent !! i = Some a /\
    node_children parent !! (i + 1)%nat = Some b.
Proof.
  unfold sibling_pairs. rewrite in_omap. split.
  - intros (v & Hv & Hpair). rewrite visited_any_node in Hv.
    unfold sibling_pair in Hpair.
    destruct (v_parent v) as [p|] eqn:Hparent; [|discriminate].
    destruct (v_index v) as [index|] eqn:Hindex; [|discriminate].
    destruct (node_children p !! (index + 1)%nat) as [next|] eqn:Hnext;
      [|discriminate].
    cbn in Hpair. injection Hpair as <- <- <-.
    destruct (walk_parent tree None None v Hv)
      as [-> | (p' & i & Hp & Hi & Hchild & Hin)]; [discriminate|].
    rewrite Hparent in Hp. injection Hp as <-.
    rewrite Hindex in Hi. injection Hi as <-.
    exists index. auto.
  - intros (i & Hp & Ha & Hb).
    exists {| v_node := a; v_index := Some i; v_parent := Some parent |}.
    split; [now apply nodes_of_child|].
    unfold sibling_pair. cbn [v_parent v_index v_node]. now rewrite Hb.
Qed.

(** X23: no-missing-blank-lines never throws.  Its diagnostics are, in the
    order of the traversal and one for each, those at the second node of
    the pairs of neighbouring children it meets that lack a blank line:
    the first with a resolvable end, the second of a block type with a
    resolvable start on the very next line, the children of list items
    left out under [exceptTightLists].  The pairs it meets are the pairs
    of neighbouring children of the nodes of the tree.  Only the end of
    the first and the start of the second are read. *)
Theorem missing_blank_lines_characterized (tree : Node)
    (options : option BlankLinesOptions) :
  run (remarkLintNoMissingBlankLines tree options) =
    (Normal tt,
     map (fun t => missing_blank_line (snd t))
       (List.filter (lacks_blank_line (except_tight_lists options))
          (sibling_pairs tree))) /\
  (forall parent a b,
     In (parent, a, b) (sibling_pairs tree) <->
     exists i,
       In parent (nodes_of tree) /\
       node_children parent !! i = Some a /\
       node_children parent !! (i + 1)%nat = Some b) /\
  forall m,
    In m (diagnostics (remarkLintNoMissingBlankLines tree options)) <->
    exists parent i a b ea sb,
      In parent (nodes_of tree) /\
      node_children parent !! i = Some a /\
      node_children parent !! (i + 1)%nat = Some b /\
      pointEnd (Some a) = Some ea /\
      pointStart (Some b) = Some sb /\
      node_type b ∈ types /\
      line sb = line ea + 1 /\
      (except_tight_lists options = true -> node_type parent <> "listItem") /\
      m = missing_blank_line b.
Proof.
  split; [|split].
  - rewrite missing_blank_lines_run. f_equal. apply blank_line_checks_pairs.
  - intros parent a b. apply in_sibling_pairs.
  - intros m. apply missing_blank_lines_diagnostics.
Qed.

(** ** no-heading-punctuation *)

Section HeadingPunctuationReports.
Variable toString : Node -> string.
Variable RegExp : string -> option (string -> bool).

(** X24: no-heading-punctuation makes its expression before it visits
    anything.  When the engine rejects the character class made from the
    option (the default class for no option or the empty string), the rule
    throws the [SyntaxError] and records nothing.  Otherwise it completes
    and reports exactly the headings with a resolvable position whose last
    character of text the expression matches, once each, in document
    order, at that position; the message quotes that last character, and
    a heading without text is tested with the empty string. *)
Theorem heading_punctuation_reported (tree : Node)
    (options : option string) :
  match RegExp (heading_punctuation_source options) with
  | None =>
      run (remarkLintNoHeadingPunctuation toString RegExp tree options) =
        (Throw syntax_error_value, [])
  | Some expression =>
      let tail := fun n => match last_character (toString n) with
                           | Some c => String c ""
                           | None => ""%string
                           end in
      run (remarkLintNoHeadingPunctuation toString RegExp tree options) =
        (Normal tt,
         map (fun o =>
                warning ("Don’t add a trailing `" +:+ tail (fst o) +:+
                         "` to headings") (AtPosition (snd o)))
           (positioned_where
              (fun n => is_type "heading" n && expression (tail n)) tree)) /\
      forall m,
        In m (diagnostics
                (remarkLintNoHeadingPunctuation toString RegExp tree options))
        <->
        exists n pos,
          In n (nodes_of tree) /\ node_type n = "heading" /\
          position (Some n) = Some pos /\
          expression (tail n) = true /\
          m = warning ("Don’t add a trailing `" +:+ tail n +:+
                       "` to headings") (AtPosition pos)
  end.
Proof.
  unfold diagnostics, remarkLintNoHeadingPunctuation.
  destruct (RegExp (heading_punctuation_source options)) as [expression|];
    [|reflexivity].
  cbv zeta.
  set (tail := fun n => match last_character (toString n) with
                        | Some c => String c ""
                        | None => ""%string
                        end).
  assert (Hrun :
    run (visit tree (is_type "heading")
           (heading_punctuation_visitor toString expression) false tt) =
    (Normal tt,
     map (fun o =>
            warning ("Don’t add a trailing `" +:+ tail (fst o) +:+
                     "` to headings") (AtPosition (snd o)))
       (positioned_where
          (fun n => is_type "heading" n && expression (tail n)) tree))).
  { unfold positioned_where.
    rewrite <- (flat_map_positioned _
                  (fun n pos =>
                     warning ("Don’t add a trailing `" +:+ tail n +:+
                              "` to headings") (AtPosition pos))).
    apply visit_nodes.
    - intros v _ Htest. rewrite Htest. cbn [andb].
      unfold heading_punctuation_visitor. cbv zeta.
      destruct (position (Some (v_node v))) as [pos|]; [|apply emits_ret].
      rewrite charAt_last. fold (tail (v_node v)).
      destruct (expression (tail (v_node v))); cbn [when];
        [apply emits_message | apply emits_ret].
    - intros n Htest. rewrite Htest. cbn [andb].
      now destruct (position (Some n)). }
  split; [exact Hrun|].
  intros m. rewrite Hrun. cbn [snd]. rewrite in_map_iff. split.
  - intros (o & <- & Ho). apply in_positioned_where in Ho.
    destruct Ho as (Hn & Hp & Hpos). apply andb_true_iff in Hp as [Ht He].
    exists (fst o), (snd o). split; [exact Hn|].
    split; [now apply is_type_true|]. split; [exact Hpos|].
    split; [exact He | reflexivity].
  - intros (n & pos & Hn & Htype & Hpos & He & ->).
    exists (n, pos). split; [reflexivity|].
    apply in_positioned_where. cbn [fst snd]. split; [exact Hn|].
    split; [|exact Hpos].
    rewrite (proj2 (is_type_true _ _) Htype). exact He.
Qed.

End HeadingPunctuationReports.

(** ** The two duplicate-heading rules against each other *)

Lemma duplicate_reported (reason : string -> string)
    (seen l1 l2 : list Occurrence) (o : Occurrence) :
  In (occ_key o) (map occ_key (seen ++ l1)) ->
  exists earlier,
    In (duplicate_report reason o earlier)
       (duplicate_reports reason seen (l1 ++ o :: l2)).
Proof.
  intros Hin. rewrite duplicate_reports_app. cbn [duplicate_reports].
  destruct (latest (occ_key o) (seen ++ l1)) as [earlier|] eqn:Hlatest.
  - exists earlier. apply in_app_iff. right. now left.
  - apply latest_None in Hlatest. contradiction.
Qed.

Section HeadingRules.
Variable toString : Node -> string.
Variable toUpperCase : string -> string.

Lemma section_scope_subset (depth : nat) (seen : list Node) (e : Node) :
  In e (section_scope depth seen) -> In e seen.
Proof.
  induction seen as [|h seen IH]; [intros []|].
  cbn [section_scope].
  destruct (heading_depth h <? depth)%nat; [intros []|].
  destruct (heading_depth h =? depth)%nat.
  - intros [<- | He]; [now left | right; now apply IH].
  - intros He. right. now apply IH.
Qed.

Lemma section_report_origin (seen todo : list Node) (m : VFileMessage) :
  In m (section_reports toString toUpperCase seen todo) ->
  exists l1 w l2 earlier,
    todo = l1 ++ w :: l2 /\ In earlier (rev l1 ++ seen) /\
    heading_key toString toUpperCase earlier =
      heading_key toString toUpperCase w /\
    m = in_section_report w earlier.
Proof.
  revert seen. induction todo as [|n rest IH]; intros seen; [intros []|].
  cbn [section_reports]. rewrite in_app_iff. intros [Hm | Hm].
  - destruct (List.find _ (section_scope (heading_depth n) seen))
      as [e|] eqn:Hfind; [|destruct Hm].
    destruct (negb (V4.generated n)); [|destruct Hm].
    destruct Hm as [<- | []].
    apply find_some in Hfind as [He Hkey].
    exists [], n, rest, e. cbn [rev app].
    repeat split; [now apply (section_scope_subset _ _ _ He)|].
    now apply String.eqb_eq.
  - destruct (IH _ Hm) as (l1 & w & l2 & e & -> & He & Hkey & ->).
    exists (n :: l1), w, l2, e. cbn [rev app].
    repeat split; [|exact Hkey].
    rewrite <- app_assoc. exact He.
Qed.

Lemma heading_occurrence_positioned (h : Node) :
  position (Some h) <> None ->
  exists o,
    heading_occurrence toString toUpperCase h = Some o /\
    occ_key o = heading_key toString toUpperCase h /\
    occ_place o = AtNode h.
Proof.
  intros Hpos. unfold heading_occurrence.
  destruct (position (Some h)) as [pos|] eqn:Hp; [|contradiction].
  destruct (position_points h pos Hp) as [-> _].
  eexists. repeat split.
Qed.

Lemma heading_occurrence_keys (l : list Node) :
  Forall (fun h => position (Some h) <> None) l ->
  map occ_key (omap (heading_occurrence toString toUpperCase) l) =
  map (heading_key toString toUpperCase) l.
Proof.
  induction 1 as [|h l Hh _ IH]; [reflexivity|].
  destruct (heading_occurrence_positioned h Hh) as (o & Ho & Hkey & _).
  cbn [omap list_omap map]. rewrite Ho. cbn [map]. now rewrite Hkey, IH.
Qed.

Lemma occurrences_headings (tree : Node) :
  occurrences toString toUpperCase Headings tree =
  omap (heading_occurrence toString toUpperCase) (headings tree).
Proof.
  unfold occurrences, headings.
  induction (visited false (is_type "heading") tree) as [|v l IH];
    [reflexivity|].
  cbn [omap list_omap map]. now rewrite IH.
Qed.

(** X25: no-duplicate-headings-in-section only reports headings that
    no-duplicate-headings reports as well: on a tree whose headings all
    have a resolvable position, for every diagnostic of the rule that
    looks at sections there is a diagnostic of the rule that looks at the
    whole document, at the same heading. *)
Theorem section_rule_within_document_rule (tree : Node) :
  Forall (fun h => position (Some h) <> None) (headings tree) ->
  forall m,
    In m (diagnostics
            (noDuplicateHeadingsInSection toString toUpperCase tree)) ->
    exists m',
      In m' (diagnostics
               (remarkLintNoDuplicateHeadings toString toUpperCase tree)) /\
      place m' = place m.
Proof.
  intros Hpos m Hm. unfold diagnostics in Hm.
  rewrite in_section_run_spec in Hm. cbn [snd] in Hm.
  apply section_report_origin in Hm.
  destruct Hm as (l1 & w & l2 & earlier & Hsplit & Hearlier & Hkey & ->).
  rewrite app_nil_r in Hearlier. apply in_rev in Hearlier.
  rewrite Hsplit in Hpos. apply Forall_app in Hpos as [Hpos1 Hpos2].
  apply Forall_cons in Hpos2 as [Hw Hpos2].
  destruct (heading_occurrence_positioned w Hw) as (o & Ho & Hokey & Hoplace).
  pose proof (duplicate_rule_run toString toUpperCase Headings tree) as Hrun.
  cbn [duplicate_rule] in Hrun.
  rewrite occurrences_headings, Hsplit in Hrun.
  assert (Hocc :
    omap (heading_occurrence toString toUpperCase) (l1 ++ w :: l2) =
    omap (heading_occurrence toString toUpperCase) l1 ++
    o :: omap (heading_occurrence toString toUpperCase) l2).
  { rewrite omap_app. cbn [omap list_omap]. now rewrite Ho. }
  rewrite Hocc in Hrun.
  destruct (duplicate_reported (duplicate_reason Headings) []
              (omap (heading_occurrence toString toUpperCase) l1)
              (omap (heading_occurrence toString toUpperCase) l2) o)
    as (e & He).
  { cbn [app]. rewrite Hokey, (heading_occurrence_keys l1 Hpos1), <- Hkey.
    now apply in_map. }
  exists (duplicate_report (duplicate_reason Headings) o e).
  split.
  - unfold diagnostics. rewrite Hrun. exact He.
  - cbn. exact Hoplace.
Qed.

End HeadingRules.

Lemma section_rule_within_document_rule_witness :
  let tree := Example.root [Example2.heading 2 1 "Foxtrot";
                            Example2.heading 3 3 "Golf";
                            Example2.heading 3 5 "Golf"] in
  exists m',
    In m' (diagnostics
             (remarkLintNoDuplicateHeadings Example2.flat_text
                Example2.upper tree)) /\
    place m' =
      place (in_section_report (Example2.heading 3 5 "Golf")
               (Example2.heading 3 3 "Golf")).
Proof.
  intros tree.
  apply (section_rule_within_document_rule Example2.flat_text Example2.upper
           tree).
  - repeat constructor; discriminate.
  - vm_compute. left. reflexivity.
Defined.
